(** * The table-based client interface of [client/table.go]

    A shallow embedding of the structured (table) layer of the Cockroach
    client: the key codec dispatch ([encodeTableKey], [decodeTableKey]), the
    primary-key and column-key builders, the model registry ([BindModel],
    [getModel]), the value marshaler ([marshalTableValue],
    [unmarshalTableValue]) and the five structured batch operations with their
    deferred post-processing steps.

    Conventions.  A Go [[]byte] is a [list byte]; a Go [string] is a Rocq
    [string] (both are byte sequences, related by [list_byte_of_string]).
    Machine integers are [Z] with the wrap-around written out.  A [float64] is
    its IEEE-754 bit pattern, a [Z] below [2^64].  A function that returns
    [(T, error)] returns an [outcome T]; a Go panic is the outcome [Panic]. *)

From Stdlib Require Import ZArith Lia Bool.
From Stdlib Require Import Init.Byte Strings.Byte.
From stdpp Require Import base option list strings gmap sorting.

Open Scope Z_scope.
Set Warnings "-register-all".

(** ** Bytes and their order *)

Abbreviation bytes := (list byte).

#[global] Instance byte_eq_dec : EqDecision byte := Byte.byte_eq_dec.

Definition byte_val (b : byte) : Z := Z.of_N (Byte.to_N b).

Definition byte_of_Z (z : Z) : byte :=
  match Byte.of_N (Z.to_N (z mod 256)) with
  | Some b => b
  | None => x00
  end.

(** [bytes.Compare(a, b) < 0]: the lexicographic order of the store's keys. *)
Fixpoint bytes_ltb (a b : bytes) : bool :=
  match a, b with
  | _, [] => false
  | [], _ :: _ => true
  | x :: a', y :: b' =>
      (byte_val x <? byte_val y) || ((byte_val x =? byte_val y) && bytes_ltb a' b')
  end.

Definition bytes_lt (a b : bytes) : Prop := bytes_ltb a b = true.
Definition bytes_le (a b : bytes) : Prop := bytes_ltb b a = false.

(** [bytes.HasPrefix(s, p)]. *)
Fixpoint HasPrefix (s p : bytes) {struct p} : bool :=
  match p, s with
  | [], _ => true
  | _ :: _, [] => false
  | y :: p', x :: s' => bool_decide (x = y) && HasPrefix s' p'
  end.

(** [append(r, t...)] on a possibly nil slice: appending nothing to nil
    leaves nil. *)
Definition go_append (r : option bytes) (t : bytes) : option bytes :=
  match r, t with
  | None, [] => None
  | None, _ => Some t
  | Some r', _ => Some (r' ++ t)
  end.

(** The content of a possibly nil slice. *)
Definition slice_bytes (r : option bytes) : bytes := default [] r.

(** ** Machine integers *)

Definition wrap_unsigned (w : Z) (z : Z) : Z := z mod 2 ^ w.

Definition wrap_signed (w : Z) (z : Z) : Z :=
  (z + 2 ^ (w - 1)) mod 2 ^ w - 2 ^ (w - 1).

Definition is_int64 (z : Z) : Prop := - 2 ^ 63 <= z < 2 ^ 63.
Definition is_uint64 (z : Z) : Prop := 0 <= z < 2 ^ 64.

(** [int64(u)] and [uint64(i)]: reinterpretation of the 64 bits. *)
Definition int64_of_uint64 (u : Z) : Z := wrap_signed 64 u.
Definition uint64_of_int64 (i : Z) : Z := wrap_unsigned 64 i.

(** ** Floats as bit patterns

    [math.Float64bits] and [math.Float64frombits] are the identity on this
    representation.  The order of two floats is read off the patterns: the
    sign bit and the magnitude below it; a NaN compares with nothing and the
    two zeros are equal. *)

Definition Float64bits (f : Z) : Z := f.
Definition Float64frombits (u : Z) : Z := u.

Definition float_magnitude (f : Z) : Z := f mod 2 ^ 63.
Definition float_sign (f : Z) : bool := 2 ^ 63 <=? f.
Definition float_is_nan (f : Z) : bool := 2047 * 2 ^ 52 <? float_magnitude f.

Definition float_key (f : Z) : Z :=
  if float_sign f then - float_magnitude f else float_magnitude f.

(** [f1 < f2] on [float64]. *)
Definition float_lt (f1 f2 : Z) : Prop :=
  float_is_nan f1 = false /\ float_is_nan f2 = false /\ float_key f1 < float_key f2.

(** ** Errors and outcomes *)

(** One constructor per [fmt.Errorf] format of the file, with its arguments;
    [EExternal] is an error returned by a marshaler of the application. *)
Inductive error :=
| EUnableToEncodeKey
| EUnableToDecodeKey
| EUnableToFindField (table col : string)
| EUnexpectedTableName (table : string) (found : bytes)
| EAlreadyDefined (table : string)
| EPointerRequired
| ENoModel
| EDestNotSlicePointer
| EIncompatibleStart
| EIncompatibleEnd
| EUnableToMarshal
| EUnmarshalInteger
| EUnmarshalBytes
| EUnableToUnmarshal
| EExternal (msg : string).

Inductive outcome (A : Type) :=
| Ok (a : A)
| Err (e : error)
| Panic.
Arguments Ok {A} a.
Arguments Err {A} e.
Arguments Panic {A}.

Definition obind {A B} (x : outcome A) (f : A -> outcome B) : outcome B :=
  match x with
  | Ok a => f a
  | Err e => Err e
  | Panic => Panic
  end.

Notation "'let!' x ':=' c1 'in' c2" := (obind c1 (fun x => c2))
  (at level 10, x pattern, c1 at level 100, c2 at level 200).

(** The result of an outcome, when there is one. *)
Definition of_outcome {A} (x : outcome A) : option A :=
  match x with
  | Ok a => Some a
  | _ => None
  end.

Definition of_option {A} (o : option A) : outcome A :=
  match o with
  | Some a => Ok a
  | None => Panic
  end.

(** ** The key encoding package

    The codecs of the package [util/encoding] are the operations of a class;
    what §4.1 of the specification promises of them is the class
    [EncodingLaws] further down.  A decoder returns [None] where the Go
    function panics on a buffer it did not encode. *)
Class Encoding := {
  EncodeBytes : bytes -> bytes -> bytes;
  DecodeBytes : bytes -> option (bytes * bytes);
  EncodeVarint : bytes -> Z -> bytes;
  DecodeVarint : bytes -> option (bytes * Z);
  EncodeUvarint : bytes -> Z -> bytes;
  DecodeUvarint : bytes -> option (bytes * Z);
  EncodeNumericFloat : bytes -> Z -> bytes;
  DecodeNumericFloat : bytes -> option (bytes * Z);
}.

(** [float64(float32(x))] on bit patterns: what [SetFloat] stores in a
    [float32] field, read back by [Float].  A language primitive, left
    abstract. *)
Class Float32 := { float32_round : Z -> Z }.

(** ** Types and values of model fields *)

Inductive int_kind := KInt | KInt8 | KInt16 | KInt32 | KInt64.
Inductive uint_kind := KUint | KUint8 | KUint16 | KUint32 | KUint64 | KUintptr.
Inductive float_kind := KFloat32 | KFloat64.
Inductive iface_kind := IMessage | IBinaryMarshaler | IOther.

(** The field types the file tells apart.  [TMessage n] and [TMarshaler n]
    are concrete struct or pointer types that implement [gogoproto.Message]
    and [encoding.BinaryMarshaler]; [TIface] is a field declared with an
    interface type; [TOther] is any other type (a struct, a map, a named
    slice). *)
Inductive rtype :=
| TBool
| TInt (k : int_kind)
| TUint (k : uint_kind)
| TFloat (k : float_kind)
| TString
| TNamedString (n : string)
| TBytes
| TIface (i : iface_kind)
| TMessage (n : string)
| TMarshaler (n : string)
| TOther (n : string).

(** A field value, as [reflect.Value] shows it: [VInt k i] has [v.Int() = i],
    [VUint k u] has [v.Uint() = u], [VFloat k f] has [v.Float() = f].  A
    [VMessage] or [VMarshaler] carries what its marshal method returns.  A
    field of interface type is covered when it holds nil ([VNilIface]); a
    value held by such a field, which [v.Interface()] would unwrap, is not
    represented. *)
Inductive value :=
| VBool (b : bool)
| VInt (k : int_kind) (i : Z)
| VUint (k : uint_kind) (u : Z)
| VFloat (k : float_kind) (f : Z)
| VString (s : string)
| VNamedString (n : string) (s : string)
| VBytes (b : option bytes)
| VNilIface (i : iface_kind)
| VMessage (n : string) (out : outcome bytes)
| VMarshaler (n : string) (out : outcome bytes)
| VOther (n : string).

(** Platform word size of [int], [uint] and [uintptr]. *)
Definition intSize : Z := 64.

Definition int_bits (k : int_kind) : Z :=
  match k with
  | KInt => intSize | KInt8 => 8 | KInt16 => 16 | KInt32 => 32 | KInt64 => 64
  end.

Definition uint_bits (k : uint_kind) : Z :=
  match k with
  | KUint => intSize | KUint8 => 8 | KUint16 => 16 | KUint32 => 32
  | KUint64 => 64 | KUintptr => intSize
  end.

Definition type_of (v : value) : rtype :=
  match v with
  | VBool _ => TBool
  | VInt k _ => TInt k
  | VUint k _ => TUint k
  | VFloat k _ => TFloat k
  | VString _ => TString
  | VNamedString n _ => TNamedString n
  | VBytes _ => TBytes
  | VNilIface i => TIface i
  | VMessage n _ => TMessage n
  | VMarshaler n _ => TMarshaler n
  | VOther n => TOther n
  end.

(** [reflect.Zero(t)].  The zero value of a pointer type that implements a
    marshaling interface is the nil pointer, which its marshaler refuses. *)
Definition zero (t : rtype) : value :=
  match t with
  | TBool => VBool false
  | TInt k => VInt k 0
  | TUint k => VUint k 0
  | TFloat k => VFloat k 0
  | TString => VString ""
  | TNamedString n => VNamedString n ""
  | TBytes => VBytes None
  | TIface i => VNilIface i
  | TMessage n => VMessage n (Err (EExternal "nil"))
  | TMarshaler n => VMarshaler n (Err (EExternal "nil"))
  | TOther n => VOther n
  end.

(** [v.SetInt], [v.SetUint] and [v.SetFloat] truncate to the field's width. *)
Definition SetInt (k : int_kind) (i : Z) : value := VInt k (wrap_signed (int_bits k) i).
Definition SetUint (k : uint_kind) (u : Z) : value := VUint k (wrap_unsigned (uint_bits k) u).
Definition SetFloat `{Float32} (k : float_kind) (f : Z) : value :=
  match k with
  | KFloat32 => VFloat k (float32_round f)
  | KFloat64 => VFloat k f
  end.

(** A value its type can hold: integers within the width, floats of a
    [float32] field representable in single precision. *)
Definition wf_value `{Float32} (v : value) : Prop :=
  match v with
  | VInt k i => - 2 ^ (int_bits k - 1) <= i < 2 ^ (int_bits k - 1)
  | VUint k u => 0 <= u < 2 ^ uint_bits k
  | VFloat KFloat32 f => 0 <= f < 2 ^ 64 /\ float32_round f = f
  | VFloat KFloat64 f => 0 <= f < 2 ^ 64
  | _ => True
  end.

(** Equality of field values as Go compares them: byte slices by content
    ([bytes.Equal], which does not tell nil from empty), the rest by [==]. *)
Definition same_value (v1 v2 : value) : Prop :=
  match v1, v2 with
  | VBytes b1, VBytes b2 => slice_bytes b1 = slice_bytes b2
  | _, _ => v1 = v2
  end.

(** [v1 < v2] on two values of one ordered kind. *)
Definition value_lt (v1 v2 : value) : Prop :=
  match v1, v2 with
  | VBool b1, VBool b2 => b1 = false /\ b2 = true
  | VInt k1 i1, VInt k2 i2 => k1 = k2 /\ i1 < i2
  | VUint k1 u1, VUint k2 u2 => k1 = k2 /\ u1 < u2
  | VFloat k1 f1, VFloat k2 f2 => k1 = k2 /\ float_lt f1 f2
  | VString s1, VString s2 => bytes_lt (String.list_byte_of_string s1) (String.list_byte_of_string s2)
  | VNamedString n1 s1, VNamedString n2 s2 =>
      n1 = n2 /\ bytes_lt (String.list_byte_of_string s1) (String.list_byte_of_string s2)
  | VBytes b1, VBytes b2 => bytes_lt (slice_bytes b1) (slice_bytes b2)
  | _, _ => False
  end.

(** The kinds [encodeTableKey] and [decodeTableKey] support. *)
Definition key_kind (t : rtype) : bool :=
  match t with
  | TBool | TInt _ | TUint _ | TFloat _ | TString | TNamedString _ | TBytes => true
  | _ => false
  end.

(** ** Struct types, objects and field access *)

Record struct_type := { st_name : string; st_fields : list rtype }.

(** [reflect.Type] of the values handed to the structured operations. *)
Inductive gotype :=
| GStruct (st : struct_type)
| GPtr (t : gotype)
| GSlice (t : gotype)
| GScalar (t : rtype).

(** The values handed to the structured operations as [interface{}], and the
    records they point to.  A struct is the list of its field values. *)
Inductive object :=
| OStruct (st : struct_type) (r : list value)
| OPtr (o : object)
| ONilPtr (t : gotype)
| OSlice (elem : gotype) (items : list object)
| OScalar (v : value)
| OInvalid.

Fixpoint TypeOf (o : object) : gotype :=
  match o with
  | OStruct st _ => GStruct st
  | OPtr o' => GPtr (TypeOf o')
  | ONilPtr t => GPtr t
  | OSlice elem _ => GSlice elem
  | OScalar v => GScalar (type_of v)
  | OInvalid => GScalar (TOther "invalid")
  end.

(** [v.Type()] panics on the invalid [reflect.Value], which is what
    [reflect.ValueOf(nil)] and the target of a nil pointer are. *)
Definition Type_ (v : object) : outcome gotype :=
  match v with
  | OInvalid => Panic
  | _ => Ok (TypeOf v)
  end.

(** Modelled from the spec: [deref] of the package, which the registry
    applies to the type it is handed; one pointer level is dropped. *)
Definition deref (t : gotype) : gotype :=
  match t with
  | GPtr e => e
  | _ => t
  end.

Definition is_ptr (t : gotype) : bool :=
  match t with
  | GPtr _ => true
  | _ => false
  end.

(** [reflect.Indirect] and [v.Elem()] of a pointer. *)
Definition Indirect (o : object) : object :=
  match o with
  | OPtr o' => o'
  | ONilPtr _ => OInvalid
  | _ => o
  end.

(** [reflect.New(t).Elem()], the zero value of [t]. *)
Definition zero_object (t : gotype) : object :=
  match t with
  | GStruct st => OStruct st (zero <$> st_fields st)
  | GPtr e => ONilPtr e
  | GSlice e => OSlice e []
  | GScalar t' => OScalar (zero t')
  end.

(** Types are keys of the registry: equality is decidable and the types can
    be enumerated. *)
#[global] Instance int_kind_eq_dec : EqDecision int_kind.
Proof. solve_decision. Defined.
#[global] Instance uint_kind_eq_dec : EqDecision uint_kind.
Proof. solve_decision. Defined.
#[global] Instance float_kind_eq_dec : EqDecision float_kind.
Proof. solve_decision. Defined.
#[global] Instance iface_kind_eq_dec : EqDecision iface_kind.
Proof. solve_decision. Defined.
#[global] Instance rtype_eq_dec : EqDecision rtype.
Proof. solve_decision. Defined.
#[global] Instance struct_type_eq_dec : EqDecision struct_type.
Proof. solve_decision. Defined.
#[global] Instance gotype_eq_dec : EqDecision gotype.
Proof. solve_decision. Defined.

Definition rtype_code (t : rtype) : nat * string :=
  match t with
  | TBool => (0, "")
  | TInt KInt => (1, "") | TInt KInt8 => (2, "") | TInt KInt16 => (3, "")
  | TInt KInt32 => (4, "") | TInt KInt64 => (5, "")
  | TUint KUint => (6, "") | TUint KUint8 => (7, "") | TUint KUint16 => (8, "")
  | TUint KUint32 => (9, "") | TUint KUint64 => (10, "") | TUint KUintptr => (11, "")
  | TFloat KFloat32 => (12, "") | TFloat KFloat64 => (13, "")
  | TString => (14, "")
  | TNamedString n => (15, n)
  | TBytes => (16, "")
  | TIface IMessage => (17, "") | TIface IBinaryMarshaler => (18, "")
  | TIface IOther => (19, "")
  | TMessage n => (20, n)
  | TMarshaler n => (21, n)
  | TOther n => (22, n)
  end%nat.

Definition rtype_decode (c : nat * string) : rtype :=
  match c with
  | (0, _) => TBool
  | (1, _) => TInt KInt | (2, _) => TInt KInt8 | (3, _) => TInt KInt16
  | (4, _) => TInt KInt32 | (5, _) => TInt KInt64
  | (6, _) => TUint KUint | (7, _) => TUint KUint8 | (8, _) => TUint KUint16
  | (9, _) => TUint KUint32 | (10, _) => TUint KUint64 | (11, _) => TUint KUintptr
  | (12, _) => TFloat KFloat32 | (13, _) => TFloat KFloat64
  | (14, _) => TString
  | (15, n) => TNamedString n
  | (16, _) => TBytes
  | (17, _) => TIface IMessage | (18, _) => TIface IBinaryMarshaler
  | (19, _) => TIface IOther
  | (20, n) => TMessage n
  | (21, n) => TMarshaler n
  | (_, n) => TOther n
  end%nat.

#[global] Instance rtype_countable : Countable rtype.
Proof.
  apply (inj_countable' rtype_code rtype_decode).
  intros [| [] | [] | [] | | | | [] | | |]; reflexivity.
Defined.

#[global] Instance struct_type_countable : Countable struct_type.
Proof.
  apply (inj_countable' (fun st => (st_name st, st_fields st))
           (fun p => {| st_name := p.1; st_fields := p.2 |})).
  intros []; reflexivity.
Defined.

Fixpoint gotype_code (t : gotype) : list bool * (struct_type + rtype) :=
  match t with
  | GStruct st => ([], inl st)
  | GScalar t' => ([], inr t')
  | GPtr e => let (w, b) := gotype_code e in (true :: w, b)
  | GSlice e => let (w, b) := gotype_code e in (false :: w, b)
  end.

Fixpoint gotype_decode (w : list bool) (b : struct_type + rtype) : gotype :=
  match w with
  | [] => match b with inl st => GStruct st | inr t' => GScalar t' end
  | true :: w' => GPtr (gotype_decode w' b)
  | false :: w' => GSlice (gotype_decode w' b)
  end.

#[global] Instance gotype_countable : Countable gotype.
Proof.
  apply (inj_countable' gotype_code (fun c => gotype_decode c.1 c.2)).
  intros t; induction t as [st | e IH | e IH | t']; simpl; try reflexivity;
    destruct (gotype_code e); simpl in *; congruence.
Defined.

(** Modelled from the spec: the field descriptor of the package's field map,
    "a column name plus an accessor path into the bound record type"; the
    path is the position of the field in the struct. *)
Record field := { Index : nat }.

(** [v.FieldByIndex(f.Index)] panics on a value that is not a struct and on
    a position the struct does not have. *)
Definition FieldByIndex (v : object) (i : nat) : outcome value :=
  match v with
  | OStruct _ r => of_option (r !! i)
  | _ => Panic
  end.

(** Assignment through the addressable field [v.FieldByIndex(i)]. *)
Definition update_field (v : object) (i : nat) (fv : value) : object :=
  match v with
  | OStruct st r => OStruct st (<[i:=fv]> r)
  | _ => v
  end.

(** model holds information about a particular type that has been bound to a
    table using [BindModel]. *)
Record model := {
  name : string;
  fields : gmap string field;
  primaryKey : list string;
  otherColumns : list string;
}.

(** Modelled from the spec: [proto.Value], the generic value of §3, with the
    two members the table layer reads and writes; each is absent or
    present. *)
Record proto_Value := { Bytes : option bytes; Integer : option Z }.

Definition GetInteger (v : proto_Value) : Z := default 0 (Integer v).

Section Table.
Context `{Encoding} `{Float32}.

(** ** Key codec dispatch *)

(** encodeTableKey encodes a single element of a table key, appending the
    encoded value to [b]. *)
Definition encodeTableKey (b : bytes) (v : value) : outcome bytes :=
  match v with
  | VBytes t => Ok (EncodeBytes b (slice_bytes t))
  | VString t => Ok (EncodeBytes b (String.list_byte_of_string t))
  | VBool true => Ok (EncodeVarint b 1)
  | VBool false => Ok (EncodeVarint b 0)
  | VInt _ i => Ok (EncodeVarint b i)
  | VUint _ u => Ok (EncodeUvarint b u)
  | VFloat _ f => Ok (EncodeNumericFloat b f)
  | VNamedString _ s => Ok (EncodeBytes b (String.list_byte_of_string s))
  | _ => Err EUnableToEncodeKey
  end.

(** decodeTableKey decodes a single element of a table key from [b] into the
    field that holds [v], returning the remaining bytes and the field's new
    value. *)
Definition decodeTableKey (b : bytes) (v : value) : outcome (bytes * value) :=
  match v with
  | VBytes _ =>
      let! (b', r) := of_option (DecodeBytes b) in
      Ok (b', VBytes (go_append None r))
  | VString _ =>
      let! (b', r) := of_option (DecodeBytes b) in
      Ok (b', VString (String.string_of_list_byte r))
  | VBool _ =>
      let! (b', i) := of_option (DecodeVarint b) in
      Ok (b', VBool (negb (i =? 0)))
  | VInt k _ =>
      let! (b', i) := of_option (DecodeVarint b) in
      Ok (b', SetInt k i)
  | VUint k _ =>
      let! (b', i) := of_option (DecodeUvarint b) in
      Ok (b', SetUint k i)
  | VFloat k _ =>
      let! (b', f) := of_option (DecodeNumericFloat b) in
      Ok (b', SetFloat k f)
  | VNamedString n _ =>
      let! (b', r) := of_option (DecodeBytes b) in
      Ok (b', VNamedString n (String.string_of_list_byte r))
  | _ => Err EUnableToDecodeKey
  end.

(** ** Key builder *)

(** The loop of [encodePrimaryKey] over the primary-key columns. *)
Fixpoint encodePrimaryKey_loop (m : model) (cols : list string) (key : bytes)
    (v : object) : outcome bytes :=
  match cols with
  | [] => Ok key
  | col :: cols' =>
      match fields m !! col with
      | None => Err (EUnableToFindField (name m) col)
      | Some f =>
          let! fv := FieldByIndex v (Index f) in
          let! key' := encodeTableKey key fv in
          encodePrimaryKey_loop m cols' key' v
      end
  end.

(** encodePrimaryKey encodes a primary key for the table using the model
    object [v]. *)
Definition encodePrimaryKey (m : model) (v : object) : outcome bytes :=
  let key := EncodeBytes [] (String.list_byte_of_string (name m)) in
  encodePrimaryKey_loop m (primaryKey m) key v.

(** The loop of [decodePrimaryKey]: the object is returned as the loop left
    it, also when a later column fails. *)
Fixpoint decodePrimaryKey_loop (m : model) (cols : list string) (key : bytes)
    (v : object) : object * outcome bytes :=
  match cols with
  | [] => (v, Ok key)
  | col :: cols' =>
      match fields m !! col with
      | None => (v, Err (EUnableToFindField (name m) col))
      | Some f =>
          match let! fv := FieldByIndex v (Index f) in decodeTableKey key fv with
          | Ok (key', fv') =>
              decodePrimaryKey_loop m cols' key' (update_field v (Index f) fv')
          | Err e => (v, Err e)
          | Panic => (v, Panic)
          end
      end
  end.

(** decodePrimaryKey decodes a primary key for the table into the model
    object [v].  It returns the object and the remaining (undecoded) bytes. *)
Definition decodePrimaryKey (m : model) (key : bytes) (v : object)
    : object * outcome bytes :=
  match DecodeBytes key with
  | None => (v, Panic)
  | Some (key', name') =>
      if bool_decide (String.string_of_list_byte name' = name m)
      then decodePrimaryKey_loop m (primaryKey m) key' v
      else (v, Err (EUnexpectedTableName (name m) name'))
  end.

(** encodeColumnKey encodes the column and appends it to [primaryKey]. *)
Definition encodeColumnKey (m : model) (primaryKey : bytes) (column : string) : bytes :=
  let key := [] in
  let key := key ++ primaryKey in
  key ++ String.list_byte_of_string column.

(** ** Value marshaler *)

(** marshalTableValue returns a [proto.Value] initialized from the source
    value, returning an error if the types are not compatible. *)
Definition marshalTableValue (v : value) : outcome proto_Value :=
  match v with
  | VNilIface _ => Ok {| Bytes := None; Integer := None |}
  | VString t => Ok {| Bytes := Some (String.list_byte_of_string t); Integer := None |}
  | VBytes t => Ok {| Bytes := t; Integer := None |}
  | VMessage _ out => let! b := out in Ok {| Bytes := Some b; Integer := None |}
  | VMarshaler _ out => let! b := out in Ok {| Bytes := Some b; Integer := None |}
  | VBool b => Ok {| Bytes := None; Integer := Some (if b then 1 else 0) |}
  | VInt _ i => Ok {| Bytes := None; Integer := Some i |}
  | VUint _ u => Ok {| Bytes := None; Integer := Some (int64_of_uint64 u) |}
  | VFloat _ f => Ok {| Bytes := None; Integer := Some (int64_of_uint64 (Float64bits f)) |}
  | VNamedString _ s => Ok {| Bytes := Some (String.list_byte_of_string s); Integer := None |}
  | VOther _ => Err EUnableToMarshal
  end.

(** unmarshalTableValue computes the new contents of the destination field
    from the source [proto.Value]; on an error the field keeps its value. *)
Definition unmarshalTableValue (src : option proto_Value) (dest : value) : outcome value :=
  match src with
  | None => Ok (zero (type_of dest))
  | Some src =>
      match dest with
      | VString _ =>
          if Integer src is Some _ then Err EUnmarshalInteger
          else Ok (VString (String.string_of_list_byte (slice_bytes (Bytes src))))
      | VBytes _ =>
          if Integer src is Some _ then Err EUnmarshalInteger
          else Ok (VBytes (Bytes src))
      | VNilIface IMessage => Panic
      | VNilIface IBinaryMarshaler => Panic
      | VBool _ =>
          if Bytes src is Some _ then Err EUnmarshalBytes
          else Ok (VBool (negb (GetInteger src =? 0)))
      | VInt k _ =>
          if Bytes src is Some _ then Err EUnmarshalBytes
          else Ok (SetInt k (GetInteger src))
      | VUint k _ =>
          if Bytes src is Some _ then Err EUnmarshalBytes
          else Ok (SetUint k (uint64_of_int64 (GetInteger src)))
      | VFloat k _ =>
          if Bytes src is Some _ then Err EUnmarshalBytes
          else Ok (SetFloat k (Float64frombits (uint64_of_int64 (GetInteger src))))
      | VNamedString n _ =>
          if Integer src is Some _ then Err EUnmarshalInteger
          else Ok (VNamedString n (String.string_of_list_byte (slice_bytes (Bytes src))))
      | _ => Err EUnableToUnmarshal
      end
  end.

(** ** Calls and batches *)

Inductive request :=
| GetRequest (key : bytes)
| PutRequest (key : bytes) (v : proto_Value)
| IncrementRequest (key : bytes) (inc : Z)
| ScanRequest (startKey endKey : bytes) (maxRows : Z)
| DeleteRequest (key : bytes).

Record KeyValue := { Key : bytes; Value : proto_Value }.

Inductive response :=
| GetResponse (v : option proto_Value)
| PutResponse
| IncrementResponse (NewValue : Z)
| ScanResponse (Rows : list KeyValue)
| DeleteResponse.

(** A call and its deferred post-processing step.  The step is run on the
    reply and on the object the operation was handed (the target of [obj] or
    of [dest]); it returns the object's new contents, and on an error the
    object keeps its contents. *)
Record Call := {
  Args : request;
  Post : option (response -> object -> outcome object);
}.

(** Modelled from the spec: [Get], [Increment], [Scan] and [Delete] of the
    package, which build the call of one primitive of §6. *)
Definition Get (key : bytes) : Call := {| Args := GetRequest key; Post := None |}.
Definition Increment (key : bytes) (value : Z) : Call :=
  {| Args := IncrementRequest key value; Post := None |}.
Definition Scan (startKey endKey : bytes) (maxRows : Z) : Call :=
  {| Args := ScanRequest startKey endKey maxRows; Post := None |}.
Definition Delete (key : bytes) : Call := {| Args := DeleteRequest key; Post := None |}.

(** The result an operation records in its batch: the number of calls it
    issued, the number of rows it expects, and its error. *)
Record Result := { res_calls : nat; res_rows : nat; res_Err : option error }.

(** The registry of the models, by record type; a nil map is an empty one. *)
Record DB := { experimentalModels : gmap gotype model }.

(** A batch: its database, the calls queued so far and the results recorded
    so far. *)
Record Batch := { bDB : DB; calls : list Call; Results : list Result }.

(** Modelled from the spec: [b.initResult(calls, numRows, err)] of batch.go,
    by which an operation records its result (the "synchronous error" of
    §4.5, or none). *)
Definition initResult (b : Batch) (n numRows : nat) (err : option error) : Batch :=
  {| bDB := bDB b; calls := calls b;
     Results := Results b ++ [{| res_calls := n; res_rows := numRows; res_Err := err |}] |}.

(** [b.calls = append(b.calls, cs...)]. *)
Definition append_calls (b : Batch) (cs : list Call) : Batch :=
  {| bDB := bDB b; calls := calls b ++ cs; Results := Results b |}.

(** ** Schema binding registry *)

(** [getDBFields] of the package computes the field map of a type by
    introspection. *)
Context (getDBFields : gotype -> outcome (gmap string field)).

(** BindModel binds the supplied interface with the named table.  The columns
    that are not part of the primary key are collected by ranging over the
    field map, in the order the map yields them.  [reflect.TypeOf(nil)] has
    no kind to ask for: [deref] panics on it. *)
Definition BindModel (db : DB) (name : string) (obj : object)
    (primaryKey : list string) : DB * outcome unit :=
  match Type_ obj with
  | Panic => (db, Panic)
  | Err e => (db, Err e)
  | Ok t =>
      let t := deref t in
      match experimentalModels db !! t with
      | Some _ => (db, Err (EAlreadyDefined name))
      | None =>
          match getDBFields t with
          | Err e => (db, Err e)
          | Panic => (db, Panic)
          | Ok fields =>
              let isPrimaryKey : gset string := list_to_set primaryKey in
              let m := {| name := name; fields := fields; primaryKey := primaryKey;
                          otherColumns :=
                            filter (fun col => col ∉ isPrimaryKey)
                              (map_to_list fields).*1 |} in
              ({| experimentalModels := <[t := m]> (experimentalModels db) |}, Ok ())
          end
      end
  end.

Definition getModel (db : DB) (t : gotype) (mustBePointer : bool) : outcome model :=
  if mustBePointer && negb (is_ptr t) then Err EPointerRequired
  else
    let t := deref t in
    match experimentalModels db !! t with
    | Some model => Ok model
    | None => Err ENoModel
    end.

(** ** Batch operation builder *)

(** The columns an operation works on: the explicit list, or all the
    non-primary-key columns when it is empty. *)
Definition effective_columns (m : model) (columns : list string) : list string :=
  if bool_decide (length columns = 0%nat) then otherColumns m else columns.

(** The post-processing step of a [Get] call of [GetStruct]. *)
Definition get_post (f : field) (reply : response) (v : object) : outcome object :=
  match reply with
  | GetResponse value =>
      let! fv := FieldByIndex v (Index f) in
      let! fv' := unmarshalTableValue value fv in
      Ok (update_field v (Index f) fv')
  | _ => Panic
  end.

(** The loop of [GetStruct] over the columns: the calls are collected in a
    local list, which a missing field abandons. *)
Fixpoint GetStruct_calls (m : model) (primaryKey : bytes) (columns : list string)
    (calls : list Call) : outcome (list Call) :=
  match columns with
  | [] => Ok calls
  | col :: columns' =>
      match fields m !! col with
      | None => Err (EUnableToFindField (name m) col)
      | Some f =>
          let key := encodeColumnKey m primaryKey col in
          let c := Get key in
          let c := {| Args := Args c; Post := Some (get_post f) |} in
          GetStruct_calls m primaryKey columns' (calls ++ [c])
      end
  end.

(** GetStruct retrieves the specified columns in the structured table
    identified by [obj]. *)
Definition GetStruct (b : Batch) (obj : object) (columns : list string) : outcome Batch :=
  let v := obj in
  let! t := Type_ v in
  match getModel (bDB b) t true with
  | Panic => Panic
  | Err err => Ok (initResult b 0 0 (Some err))
  | Ok m =>
      let v := Indirect v in
      match encodePrimaryKey m v with
      | Panic => Panic
      | Err err => Ok (initResult b 0 0 (Some err))
      | Ok primaryKey =>
          let columns := effective_columns m columns in
          match GetStruct_calls m primaryKey columns [] with
          | Panic => Panic
          | Err err => Ok (initResult b 0 0 (Some err))
          | Ok calls =>
              let b := append_calls b calls in
              Ok (initResult b (length calls) (length calls) None)
          end
      end
  end.

(** The loop of [PutStruct] over the columns.  The checksum that
    [InitChecksum] stores in the value is not part of [proto_Value] here. *)
Fixpoint PutStruct_calls (m : model) (primaryKey : bytes) (v : object)
    (columns : list string) (calls : list Call) : outcome (list Call) :=
  match columns with
  | [] => Ok calls
  | col :: columns' =>
      match fields m !! col with
      | None => Err (EUnableToFindField (name m) col)
      | Some f =>
          let key := encodeColumnKey m primaryKey col in
          let! value := FieldByIndex v (Index f) in
          let! v' := marshalTableValue value in
          let c := {| Args := PutRequest key v'; Post := None |} in
          PutStruct_calls m primaryKey v columns' (calls ++ [c])
      end
  end.

(** PutStruct sets the specified columns in the structured table identified
    by [obj]. *)
Definition PutStruct (b : Batch) (obj : object) (columns : list string) : outcome Batch :=
  let v := Indirect obj in
  let! t := Type_ v in
  match getModel (bDB b) t false with
  | Panic => Panic
  | Err err => Ok (initResult b 0 0 (Some err))
  | Ok m =>
      match encodePrimaryKey m v with
      | Panic => Panic
      | Err err => Ok (initResult b 0 0 (Some err))
      | Ok primaryKey =>
          let columns := effective_columns m columns in
          match PutStruct_calls m primaryKey v columns [] with
          | Panic => Panic
          | Err err => Ok (initResult b 0 0 (Some err))
          | Ok calls =>
              let b := append_calls b calls in
              Ok (initResult b (length calls) (length calls) None)
          end
      end
  end.

(** The post-processing step of the [Increment] call of [IncStruct]. *)
Definition inc_post (f : field) (reply : response) (v : object) : outcome object :=
  match reply with
  | IncrementResponse NewValue =>
      let pv := {| Bytes := None; Integer := Some NewValue |} in
      let! fv := FieldByIndex v (Index f) in
      let! fv' := unmarshalTableValue (Some pv) fv in
      Ok (update_field v (Index f) fv')
  | _ => Panic
  end.

(** IncStruct increments the specified column in the structured table
    identified by [obj]. *)
Definition IncStruct (b : Batch) (obj : object) (value : Z) (column : string)
    : outcome Batch :=
  let v := obj in
  let! t := Type_ v in
  match getModel (bDB b) t true with
  | Panic => Panic
  | Err err => Ok (initResult b 0 0 (Some err))
  | Ok m =>
      let v := Indirect v in
      match encodePrimaryKey m v with
      | Panic => Panic
      | Err err => Ok (initResult b 0 0 (Some err))
      | Ok primaryKey =>
          match fields m !! column with
          | None => Ok (initResult b 0 0 (Some (EUnableToFindField (name m) column)))
          | Some f =>
              let key := encodeColumnKey m primaryKey column in
              let c := Increment key value in
              let c := {| Args := Args c; Post := Some (inc_post f) |} in
              let b := append_calls b [c] in
              Ok (initResult b 1 1 None)
          end
      end
  end.

(** The loop of [DelStruct] over the columns. *)
Fixpoint DelStruct_calls (m : model) (primaryKey : bytes) (columns : list string)
    (calls : list Call) : outcome (list Call) :=
  match columns with
  | [] => Ok calls
  | col :: columns' =>
      match fields m !! col with
      | None => Err (EUnableToFindField (name m) col)
      | Some _ =>
          let key := encodeColumnKey m primaryKey col in
          DelStruct_calls m primaryKey columns' (calls ++ [Delete key])
      end
  end.

(** DelStruct deletes the specified columns from the structured table
    identified by [obj]. *)
Definition DelStruct (b : Batch) (obj : object) (columns : list string) : outcome Batch :=
  let v := Indirect obj in
  let! t := Type_ v in
  match getModel (bDB b) t false with
  | Panic => Panic
  | Err err => Ok (initResult b 0 0 (Some err))
  | Ok m =>
      match encodePrimaryKey m v with
      | Panic => Panic
      | Err err => Ok (initResult b 0 0 (Some err))
      | Ok primaryKey =>
          let columns := effective_columns m columns in
          match DelStruct_calls m primaryKey columns [] with
          | Panic => Panic
          | Err err => Ok (initResult b 0 0 (Some err))
          | Ok calls =>
              let b := append_calls b calls in
              Ok (initResult b (length calls) (length calls) None)
          end
      end
  end.

(** ** Scan reconstruction *)

(** The filter of a scan: absent when no column is named. *)
Definition make_scanCols (columns : list string) : option (gmap string bool) :=
  if bool_decide (0 < length columns)%nat
  then Some (foldl (fun sc col => <[col:=true]> sc) ∅ columns)
  else None.

(** [scanCols != nil && !scanCols[colStr]]. *)
Definition filtered_out (scanCols : option (gmap string bool)) (colStr : string) : bool :=
  match scanCols with
  | None => false
  | Some sc => negb (default false (sc !! colStr))
  end.

(** The variables of the loop of the post-processing step. *)
Record scan_state := {
  sc_primaryKey : option bytes;
  sc_result : object;
  sc_sliceV : list object;
}.

(** The element appended for the current record: the pointer to it, or a
    copy of it. *)
Definition scan_element (ptrResults : bool) (result : object) : object :=
  if ptrResults then OPtr result else result.

(** One iteration of the loop over [reply.Rows]. *)
Definition scan_row (m : model) (modelT : gotype) (ptrResults : bool)
    (scanCols : option (gmap string bool)) (st : scan_state) (row : KeyValue)
    : outcome scan_state :=
  let crossed :=
    match sc_primaryKey st with
    | Some primaryKey => negb (HasPrefix (Key row) primaryKey)
    | None => false
    end in
  let! st1 :=
    if crossed then
      let sliceV := sc_sliceV st ++ [scan_element ptrResults (sc_result st)] in
      let result := zero_object modelT in
      let (result, r) := decodePrimaryKey m (slice_bytes (sc_primaryKey st)) result in
      let! _ := r in
      Ok {| sc_primaryKey := sc_primaryKey st; sc_result := result; sc_sliceV := sliceV |}
    else Ok st in
  let (result, r) := decodePrimaryKey m (Key row) (sc_result st1) in
  let! col := r in
  let primaryKey := take (length (Key row) - length col) (Key row) in
  let st2 := {| sc_primaryKey := Some primaryKey; sc_result := result;
                sc_sliceV := sc_sliceV st1 |} in
  let colStr := String.string_of_list_byte col in
  if filtered_out scanCols colStr then Ok st2
  else
    match fields m !! colStr with
    | None => Err (EUnableToFindField (name m) colStr)
    | Some f =>
        let! fv := FieldByIndex result (Index f) in
        let! fv' := unmarshalTableValue (Some (Value row)) fv in
        Ok {| sc_primaryKey := Some primaryKey;
              sc_result := update_field result (Index f) fv';
              sc_sliceV := sc_sliceV st1 |}
    end.

(** The loop over [reply.Rows]; the first error ends it. *)
Fixpoint scan_rows (m : model) (modelT : gotype) (ptrResults : bool)
    (scanCols : option (gmap string bool)) (st : scan_state) (rows : list KeyValue)
    : outcome scan_state :=
  match rows with
  | [] => Ok st
  | row :: rows' =>
      let! st' := scan_row m modelT ptrResults scanCols st row in
      scan_rows m modelT ptrResults scanCols st' rows'
  end.

(** The body of the post-processing step of the [Scan] call of [ScanStruct],
    on the slice [sliceV] of element type [elem] that the step reads through
    [dest] when it runs; the step stores the extended slice through
    [dest]. *)
Definition scan_post (m : model) (modelT : gotype) (ptrResults : bool)
    (columns : list string) (elem : gotype) (sliceV : list object)
    (reply : response) (dest : object) : outcome object :=
  match reply with
  | ScanResponse Rows =>
      if bool_decide (length Rows = 0%nat) then Ok dest
      else
        let scanCols := make_scanCols columns in
        let st := {| sc_primaryKey := None; sc_result := zero_object modelT;
                     sc_sliceV := sliceV |} in
        let! st := scan_rows m modelT ptrResults scanCols st Rows in
        let sliceV := sc_sliceV st ++ [scan_element ptrResults (sc_result st)] in
        Ok (OSlice elem sliceV)
  | _ => Panic
  end.

(** The post-processing step of the [Scan] call of [ScanStruct].  The
    closure holds [sliceV], the addressable element of the pointer [dest]:
    what it appends to is the destination slice as it is when the step runs,
    not as [ScanStruct] found it.  The type of the destination cannot
    change: it is the slice that [ScanStruct] checked.  An empty reply
    returns before the slice is looked at. *)
Definition scan_step (m : model) (modelT : gotype) (ptrResults : bool)
    (columns : list string) (reply : response) (dest : object) : outcome object :=
  match dest with
  | OSlice elem sliceV => scan_post m modelT ptrResults columns elem sliceV reply dest
  | _ =>
      match reply with
      | ScanResponse [] => Ok dest
      | _ => Panic
      end
  end.

(** ScanStruct scans the specified columns from the structured table
    identified by the destination slice. *)
Definition ScanStruct (b : Batch) (dest start end_ : object) (maxRows : Z)
    (columns : list string) : outcome Batch :=
  let sliceV := dest in
  if negb (is_ptr (TypeOf sliceV))
  then Ok (initResult b 0 0 (Some EDestNotSlicePointer))
  else
    let sliceV := Indirect sliceV in
    match sliceV with
    | OSlice elem items =>
        let modelT := elem in
        let ptrResults := is_ptr modelT in
        let modelT := if ptrResults then deref modelT else modelT in
        match getModel (bDB b) modelT false with
        | Panic => Panic
        | Err err => Ok (initResult b 0 0 (Some err))
        | Ok m =>
            let startV := Indirect start in
            let! startT := Type_ startV in
            if negb (bool_decide (modelT = startT))
            then Ok (initResult b 0 0 (Some EIncompatibleStart))
            else
              let endV := Indirect end_ in
              let! endT := Type_ endV in
              if negb (bool_decide (modelT = endT))
              then Ok (initResult b 0 0 (Some EIncompatibleEnd))
              else
                match encodePrimaryKey m startV with
                | Panic => Panic
                | Err err => Ok (initResult b 0 0 (Some err))
                | Ok startKey =>
                    match encodePrimaryKey m endV with
                    | Panic => Panic
                    | Err err => Ok (initResult b 0 0 (Some err))
                    | Ok endKey =>
                        let c := Scan startKey endKey maxRows in
                        let c := {| Args := Args c;
                                    Post := Some (scan_step m modelT ptrResults
                                                    columns) |} in
                        let b := append_calls b [c] in
                        Ok (initResult b 1 0 None)
                    end
                end
        end
    | _ => Ok (initResult b 0 0 (Some EDestNotSlicePointer))
    end.

End Table.

(** ** A model of the encoding package *)

Module SpecEncoding.

(** Big-endian bytes of the low [k] bytes of [n], and the number they spell. *)
Fixpoint be_bytes (k : nat) (n : Z) : bytes :=
  match k with
  | O => []
  | S k' => be_bytes k' (n / 256) ++ [byte_of_Z n]
  end.

Definition be_value (l : bytes) : Z := foldl (fun acc b => acc * 256 + byte_val b) 0 l.

(** The number of bytes a non-negative number needs, at most [fuel]. *)
Fixpoint byte_len (fuel : nat) (v : Z) : nat :=
  match fuel with
  | O => O
  | S fuel' => if v <=? 0 then O else S (byte_len fuel' (v / 256))
  end.

(** Modelled from the spec: [EncodeUvarint] of util/encoding, "a
    variable-length, order-preserving integer encoding": a length byte, then
    that many bytes, most significant first. *)
Definition EncodeUvarint (b : bytes) (v : Z) : bytes :=
  let n := byte_len 8 v in
  b ++ byte_of_Z (8 + Z.of_nat n) :: be_bytes n v.

(** Modelled from the spec: [EncodeVarint] of util/encoding, with "negative
    values sorting before non-negative": a negative number has a length byte
    below that of zero, the smaller the longer the number is. *)
Definition EncodeVarint (b : bytes) (v : Z) : bytes :=
  if v <? 0 then
    let n := byte_len 8 (- v) in
    b ++ byte_of_Z (8 - Z.of_nat n) :: be_bytes n (v mod 256 ^ Z.of_nat n)
  else EncodeUvarint b v.

(** Modelled from the spec: [DecodeUvarint] of util/encoding, the inverse of
    [EncodeUvarint] on the front of a buffer. *)
Definition DecodeUvarint (b : bytes) : option (bytes * Z) :=
  match b with
  | [] => None
  | tag :: rest =>
      let n := byte_val tag - 8 in
      if (0 <=? n) && (n <=? 8) && (n <=? Z.of_nat (length rest))
      then Some (drop (Z.to_nat n) rest, be_value (take (Z.to_nat n) rest))
      else None
  end.

(** Modelled from the spec: [DecodeVarint] of util/encoding. *)
Definition DecodeVarint (b : bytes) : option (bytes * Z) :=
  match b with
  | [] => None
  | tag :: rest =>
      if byte_val tag <? 8 then
        let n := 8 - byte_val tag in
        if n <=? Z.of_nat (length rest)
        then Some (drop (Z.to_nat n) rest, be_value (take (Z.to_nat n) rest) - 256 ^ n)
        else None
      else DecodeUvarint b
  end.

(** The escaped form of a byte sequence: a zero byte is followed by [0xff]. *)
Fixpoint escape (t : bytes) : bytes :=
  match t with
  | [] => []
  | c :: t' => if Byte.eqb c x00 then x00 :: xff :: escape t' else c :: escape t'
  end.

(** Modelled from the spec: [EncodeBytes] of util/encoding, "a length/escape-
    delimited encoding": the escaped bytes, closed by the two bytes [0x00 0x01]. *)
Definition EncodeBytes (b : bytes) (t : bytes) : bytes :=
  b ++ escape t ++ [x00; x01].

(** Modelled from the spec: [DecodeBytes] of util/encoding, which reads up to
    the terminator and undoes the escapes. *)
Fixpoint DecodeBytes (b : bytes) : option (bytes * bytes) :=
  match b with
  | [] => None
  | c :: b' =>
      if Byte.eqb c x00 then
        match b' with
        | [] => None
        | e :: rest =>
            if Byte.eqb e x01 then Some (rest, [])
            else if Byte.eqb e xff then
              match DecodeBytes rest with
              | Some (r, t) => Some (r, x00 :: t)
              | None => None
              end
            else None
        end
      else
        match DecodeBytes b' with
        | Some (r, t) => Some (r, c :: t)
        | None => None
        end
  end.

(** Modelled from the spec: [EncodeNumericFloat] of util/encoding, "an
    order-preserving numeric transform distinct from raw bit-pattern storage":
    the pattern of a negative float is complemented, the sign bit of the
    others is set, and the eight bytes are written most significant first. *)
Definition EncodeNumericFloat (b : bytes) (f : Z) : bytes :=
  b ++ be_bytes 8 (if float_sign f then 2 ^ 64 - 1 - f else f + 2 ^ 63).

(** Modelled from the spec: [DecodeNumericFloat] of util/encoding. *)
Definition DecodeNumericFloat (b : bytes) : option (bytes * Z) :=
  if (8 <=? length b)%nat then
    let u := be_value (take 8 b) in
    Some (drop 8 b, if 2 ^ 63 <=? u then u - 2 ^ 63 else 2 ^ 64 - 1 - u)
  else None.

Definition encoding : Encoding :=
  Build_Encoding EncodeBytes DecodeBytes EncodeVarint DecodeVarint
    EncodeUvarint DecodeUvarint EncodeNumericFloat DecodeNumericFloat.

End SpecEncoding.

(** ** What the specification promises of the encoding package (§4.1, §8)

    Every encoder appends to its buffer; a decoder reads back what the
    encoder wrote from the front of a buffer and returns the rest
    (the encodings are self-delimiting); the order of the values is the
    lexicographic order of their encodings. *)
Class EncodingLaws `{Encoding} : Prop := {
  EncodeBytes_app b t : EncodeBytes b t = b ++ EncodeBytes [] t;
  DecodeBytes_Encode t rest : DecodeBytes (EncodeBytes [] t ++ rest) = Some (rest, t);
  EncodeBytes_lt t1 t2 :
    bytes_lt t1 t2 -> bytes_lt (EncodeBytes [] t1) (EncodeBytes [] t2);
  EncodeVarint_app b v : EncodeVarint b v = b ++ EncodeVarint [] v;
  DecodeVarint_Encode v rest :
    is_int64 v -> DecodeVarint (EncodeVarint [] v ++ rest) = Some (rest, v);
  EncodeVarint_lt v1 v2 :
    is_int64 v1 -> is_int64 v2 -> v1 < v2 ->
    bytes_lt (EncodeVarint [] v1) (EncodeVarint [] v2);
  EncodeUvarint_app b v : EncodeUvarint b v = b ++ EncodeUvarint [] v;
  DecodeUvarint_Encode v rest :
    is_uint64 v -> DecodeUvarint (EncodeUvarint [] v ++ rest) = Some (rest, v);
  EncodeUvarint_lt v1 v2 :
    is_uint64 v1 -> is_uint64 v2 -> v1 < v2 ->
    bytes_lt (EncodeUvarint [] v1) (EncodeUvarint [] v2);
  EncodeNumericFloat_app b f : EncodeNumericFloat b f = b ++ EncodeNumericFloat [] f;
  DecodeNumericFloat_Encode f rest :
    is_uint64 f -> DecodeNumericFloat (EncodeNumericFloat [] f ++ rest) = Some (rest, f);
  EncodeNumericFloat_lt f1 f2 :
    is_uint64 f1 -> is_uint64 f2 -> float_lt f1 f2 ->
    bytes_lt (EncodeNumericFloat [] f1) (EncodeNumericFloat [] f2);
}.

(** ** The vocabulary of the properties *)

Section Vocabulary.
Context `{Encoding} `{Float32}.

(** The operation failed its validation: an error is recorded and the call
    list is the one it was. *)
Definition refused (b b' : Batch) : Prop :=
  calls b' = calls b /\
  exists e, Results b' = Results b ++ [{| res_calls := 0; res_rows := 0; res_Err := Some e |}].

(** The operation appended [n] calls and recorded no error. *)
Definition issued (b b' : Batch) (n : nat) : Prop :=
  exists new rows,
    calls b' = calls b ++ new /\ length new = n /\
    Results b' = Results b ++ [{| res_calls := n; res_rows := rows; res_Err := None |}].

(** What one structured operation may do to a batch, when [n] calls are
    asked of it; a panic of the operation leaves no batch to speak of. *)
Definition all_or_nothing (b : Batch) (r : outcome Batch) (n : option nat) : Prop :=
  match r with
  | Ok b' => refused b b' \/ (exists k, n = Some k /\ issued b b' k)
  | Err _ => False
  | Panic => True
  end.

(** The model an operation works with: the one bound to the type of the
    object, with one pointer level dropped. *)
Definition model_of (db : DB) (obj : object) : option model :=
  experimentalModels db !! deref (TypeOf (Indirect obj)).

(** The number of calls asked of a column-wise operation. *)
Definition calls_asked (db : DB) (obj : object) (columns : list string) : option nat :=
  (fun m => length (effective_columns m columns)) <$> model_of db obj.

(** A registry as [BindModel] leaves it when the introspection is sound: the
    bound types are struct types and every field descriptor points into the
    struct. *)
Definition wf_registry (db : DB) : Prop :=
  forall t m,
    experimentalModels db !! t = Some m ->
    exists st, t = GStruct st /\
      forall col f, fields m !! col = Some f -> (Index f < length (st_fields st))%nat.

(** A record an operation can work on, once [reflect.Indirect] is applied:
    not a pointer and not the invalid value; a struct has the fields of its
    type, and no marshaler of a field panics. *)
Definition record_object (v : object) : Prop :=
  match v with
  | OStruct st r =>
      length r = length (st_fields st) /\
      Forall (fun fv => marshalTableValue fv <> Panic) r
  | OScalar _ | OSlice _ _ => True
  | OPtr _ | ONilPtr _ | OInvalid => False
  end.

(** The validation steps of the operations, in the words of the
    specification.  The primary key of the record encodes; the columns
    asked for are columns of the model; the fields of the columns to write
    marshal. *)
Definition key_encodes (m : model) (v : object) : Prop :=
  exists pk, encodePrimaryKey m v = Ok pk.

Definition columns_known (m : model) (cols : list string) : Prop :=
  Forall (fun col => is_Some (fields m !! col)) cols.

Definition columns_marshal (m : model) (v : object) (cols : list string) : Prop :=
  Forall (fun col => forall f, fields m !! col = Some f ->
                     exists fv pv, FieldByIndex v (Index f) = Ok fv /\
                                   marshalTableValue fv = Ok pv) cols.

(** Every validation step of an operation passes, [m] being the model the
    type is bound to: a pointer is handed where one is required, the type
    is bound, the key encodes, the columns are known and, to write them,
    marshal; for a scan the destination is a pointer to a slice whose
    element type is bound and is the type of both bounds. *)
Definition GetStruct_valid (db : DB) (obj : object) (columns : list string)
    (m : model) : Prop :=
  is_ptr (TypeOf obj) = true /\
  experimentalModels db !! deref (TypeOf obj) = Some m /\
  key_encodes m (Indirect obj) /\
  columns_known m (effective_columns m columns).

Definition PutStruct_valid (db : DB) (obj : object) (columns : list string)
    (m : model) : Prop :=
  experimentalModels db !! deref (TypeOf (Indirect obj)) = Some m /\
  key_encodes m (Indirect obj) /\
  columns_known m (effective_columns m columns) /\
  columns_marshal m (Indirect obj) (effective_columns m columns).

Definition IncStruct_valid (db : DB) (obj : object) (column : string)
    (m : model) : Prop :=
  is_ptr (TypeOf obj) = true /\
  experimentalModels db !! deref (TypeOf obj) = Some m /\
  key_encodes m (Indirect obj) /\
  is_Some (fields m !! column).

Definition DelStruct_valid (db : DB) (obj : object) (columns : list string)
    (m : model) : Prop :=
  experimentalModels db !! deref (TypeOf (Indirect obj)) = Some m /\
  key_encodes m (Indirect obj) /\
  columns_known m (effective_columns m columns).

Definition ScanStruct_valid (db : DB) (dest start end_ : object) (m : model) : Prop :=
  is_ptr (TypeOf dest) = true /\
  exists elem items,
    Indirect dest = OSlice elem items /\
    experimentalModels db !! deref (deref elem) = Some m /\
    TypeOf (Indirect start) = deref elem /\
    TypeOf (Indirect end_) = deref elem /\
    key_encodes m (Indirect start) /\
    key_encodes m (Indirect end_).

(** What [decodeTableKey] leaves in a field for the value that was encoded:
    the value itself, a byte slice being nil when it is empty. *)
Definition decoded (v : value) : value :=
  match v with
  | VBytes t => VBytes (go_append None (slice_bytes t))
  | _ => v
  end.

(** A record of a struct type: one well-formed value of the right type per
    field. *)
Definition has_type (st : struct_type) (r : list value) : Prop :=
  type_of <$> r = st_fields st /\ Forall wf_value r.

(** The positions of the fields the columns name. *)
Definition col_indices (m : model) (cols : list string) : list nat :=
  omap (fun col => Index <$> fields m !! col) cols.

(** [r0] with the listed fields taken from [r], as decoding leaves them. *)
Definition copy_fields (idx : list nat) (r r0 : list value) : list value :=
  foldl (fun acc i =>
           match r !! i with
           | Some fv => <[i:=decoded fv]> acc
           | None => acc
           end) r0 idx.

(** The record that holds a primary key and nothing else. *)
Definition pk_only (m : model) (st : struct_type) (r : list value) : list value :=
  copy_fields (col_indices m (primaryKey m)) r (zero <$> st_fields st).

(** The key of a row: the encoded primary key [pk] of some record of the
    struct type, followed by the raw column name [col]. *)
Definition row_of_key (m : model) (st : struct_type) (row : KeyValue)
    (pk col : bytes) : Prop :=
  exists r, has_type st r /\ encodePrimaryKey m (OStruct st r) = Ok pk /\
            Key row = pk ++ col.

(** The rows of a reply and the primary keys and column names their keys
    are made of. *)
Definition rows_of_keys (m : model) (st : struct_type) (rows : list KeyValue)
    (src : list (bytes * bytes)) : Prop :=
  Forall2 (fun row s => row_of_key m st row s.1 s.2) rows src.

(** Rows sorted ascending by key, as the range read returns them. *)
Definition keys_ascending (rows : list KeyValue) : Prop :=
  Sorted (fun a b => bytes_le (Key a) (Key b)) rows.

(** The keys of a list with the repetitions of a key next to itself
    dropped: [group cur pks] starts with the run of [cur]. *)
Fixpoint group (cur : bytes) (pks : list bytes) : list bytes :=
  match pks with
  | [] => [cur]
  | pk :: pks' => if bool_decide (cur = pk) then group cur pks' else cur :: group pk pks'
  end.

Definition dedup_adjacent (pks : list bytes) : list bytes :=
  match pks with
  | [] => []
  | pk :: pks' => group pk pks'
  end.


(** The assignment of a row's value to the field its column names, unless
    the filter leaves the column out. *)
Definition assign_column (m : model) (scanCols : option (gmap string bool))
    (row : KeyValue) (col : bytes) (rec : list value) : outcome (list value) :=
  let colStr := String.string_of_list_byte col in
  if filtered_out scanCols colStr then Ok rec
  else
    match fields m !! colStr with
    | None => Err (EUnableToFindField (name m) colStr)
    | Some f =>
        let! fv := of_option (rec !! Index f) in
        let! fv' := unmarshalTableValue (Some (Value row)) fv in
        Ok (<[Index f:=fv']> rec)
    end.

(** The values a primary key gives to the primary-key fields: the record
    the key decodes into, from the zero record. *)
Definition key_record (m : model) (st : struct_type) (q : bytes) : list value :=
  match (decodePrimaryKey m q (OStruct st (zero <$> st_fields st))).1 with
  | OStruct _ r => r
  | _ => zero <$> st_fields st
  end.

(** The rows of a reply, each with the primary key and the column name its
    key is made of. *)
Definition keyed (src : list (bytes * bytes)) (rows : list KeyValue)
    : list (bytes * (bytes * KeyValue)) :=
  zip_with (fun s row => (s.1, (s.2, row))) src rows.

(** The runs of consecutive rows with one primary key, each with its key:
    [group_rows_from cur acc l] starts with the run of [cur], of which [acc]
    was seen. *)
Fixpoint group_rows_from (cur : bytes) (acc : list (bytes * KeyValue))
    (l : list (bytes * (bytes * KeyValue))) : list (bytes * list (bytes * KeyValue)) :=
  match l with
  | [] => [(cur, acc)]
  | (pk, cr) :: l' =>
      if bool_decide (cur = pk) then group_rows_from cur (acc ++ [cr]) l'
      else (cur, acc) :: group_rows_from pk [cr] l'
  end.

Definition group_rows (l : list (bytes * (bytes * KeyValue)))
    : list (bytes * list (bytes * KeyValue)) :=
  match l with
  | [] => []
  | (pk, cr) :: l' => group_rows_from pk [cr] l'
  end.

(** The record of the primary key [q], rebuilt from the rows of its run:
    from the zero record, row after row, the primary-key fields receive the
    values of the key and the value of the row is assigned to its column. *)
Definition rebuild (m : model) (scanCols : option (gmap string bool))
    (st : struct_type) (q : bytes) (run : list (bytes * KeyValue))
    : outcome (list value) :=
  foldl (fun acc cr =>
           let! rec := acc in
           assign_column m scanCols cr.2 cr.1
             (copy_fields (col_indices m (primaryKey m)) (key_record m st q) rec))
        (Ok (zero <$> st_fields st)) run.

End Vocabulary.

(** ** Column keys in memory

    [encodeColumnKey] once more, on slices that share backing arrays: a
    slice is a window on an array of the heap, and [append] writes in place
    when the capacity allows and moves to a new array otherwise. *)

Module Slices.
Local Open Scope nat_scope.

Record slice := { s_arr : option nat; s_off : nat; s_len : nat; s_cap : nat }.

Definition nil_slice : slice := {| s_arr := None; s_off := 0; s_len := 0; s_cap := 0 |}.

(** The bytes a slice shows. *)
Definition slice_read (h : gmap nat bytes) (s : slice) : bytes :=
  match s_arr s with
  | None => []
  | Some a => take (s_len s) (drop (s_off s) (default [] (h !! a)))
  end.

(** The array [l] with [xs] written from position [pos] on. *)
Definition write_at (l : bytes) (pos : nat) (xs : bytes) : bytes :=
  take pos l ++ xs ++ drop (pos + length xs) l.

(** A slice of the heap: its window lies within its array. *)
Definition slice_valid (h : gmap nat bytes) (s : slice) : Prop :=
  match s_arr s with
  | None => s_len s = 0 /\ s_cap s = 0
  | Some a =>
      exists l, h !! a = Some l /\ s_off s + s_cap s <= length l /\ s_len s <= s_cap s
  end.

Section Append.
(** The capacity the runtime gives a grown slice, from the old capacity and
    the length needed; at least the length needed is taken. *)
Context (growcap : nat -> nat -> nat).

(** [append(s, xs...)]. *)
Definition append (h : gmap nat bytes) (s : slice) (xs : bytes)
    : gmap nat bytes * slice :=
  let n := s_len s + length xs in
  if bool_decide (n <= s_cap s) then
    match s_arr s with
    | Some a =>
        (alter (fun l => write_at l (s_off s + s_len s) xs) a h,
         {| s_arr := Some a; s_off := s_off s; s_len := n; s_cap := s_cap s |})
    | None => (h, s)
    end
  else
    let a := fresh (dom h) in
    let c := max n (growcap (s_cap s) n) in
    (<[a := slice_read h s ++ xs ++ replicate (c - n) x00]> h,
     {| s_arr := Some a; s_off := 0; s_len := n; s_cap := c |}).

(** encodeColumnKey encodes the column and appends it to [primaryKey]. *)
Definition encodeColumnKey (h : gmap nat bytes) (primaryKey : slice) (column : string)
    : gmap nat bytes * slice :=
  let key := nil_slice in
  let (h, key) := append h key (slice_read h primaryKey) in
  append h key (String.list_byte_of_string column).

(** The column keys of one primary key, built one after the other as the
    loops of the structured operations do. *)
Fixpoint encodeColumnKeys (h : gmap nat bytes) (primaryKey : slice)
    (columns : list string) : gmap nat bytes * list slice :=
  match columns with
  | [] => (h, [])
  | col :: columns' =>
      let (h, key) := encodeColumnKey h primaryKey col in
      let (h, keys) := encodeColumnKeys h primaryKey columns' in
      (h, key :: keys)
  end.

(** What a call leaves of the heap it found: every array that was there is
    there with the same bytes. *)
Definition preserves (h h' : gmap nat bytes) : Prop :=
  forall a, a ∈ dom h -> h' !! a = h !! a.

(** The array of the slice, if it has one, was not there before. *)
Definition fresh_in (h : gmap nat bytes) (s : slice) : Prop :=
  forall a, s_arr s = Some a -> a ∉ dom h.

End Append.
End Slices.

(** ** The key-value model of the specification's example (§8)

    [type KV struct { K string; V string }] bound to the table "kv" with the
    primary key [K]. *)

Module KV.

(** A runtime in which [float32_round] changes nothing; the model has no
    float field. *)
Definition no_narrowing : Float32 := {| float32_round := fun f => f |}.

Definition kv_st : struct_type := {| st_name := "KV"; st_fields := [TString; TString] |}.

Definition kv_fields : gmap string field :=
  <["K" := {| Index := 0 |}]> (<["V" := {| Index := 1 |}]> ∅).

Definition kv_model : model :=
  {| name := "kv"; fields := kv_fields; primaryKey := ["K"]; otherColumns := ["V"] |}.

Definition kv (k v : string) : list value := [VString k; VString v].

(** The introspection of the example: every type has the fields of [KV]. *)
Definition kv_getDBFields (t : gotype) : outcome (gmap string field) := Ok kv_fields.

Definition empty_db : DB := {| experimentalModels := ∅ |}.

(** The registry after [KV] is bound to "kv". *)
Definition kv_db : DB :=
  (BindModel kv_getDBFields empty_db "kv" (OStruct kv_st [VString ""; VString ""]) ["K"]).1.

(** A second record type, with the same fields. *)
Definition kv2_st : struct_type := {| st_name := "KV2"; st_fields := [TString; TString] |}.

(** The primary key of the record with key [k], and the key under which its
    column [col] is stored. *)
Definition kv_pk (k : string) : bytes :=
  SpecEncoding.EncodeBytes
    (SpecEncoding.EncodeBytes [] (String.list_byte_of_string "kv"))
    (String.list_byte_of_string k).

Definition kv_key (k col : string) : bytes := kv_pk k ++ String.list_byte_of_string col.

Definition kv_row (k col v : string) : KeyValue :=
  {| Key := kv_key k col;
     Value := {| Bytes := Some (String.list_byte_of_string v); Integer := None |} |}.

(** The reply of scanning ["a".."z"] after writing [{a, b}] and [{c, d}]. *)
Definition kv_rows : list KeyValue := [kv_row "a" "V" "b"; kv_row "c" "V" "d"].

Definition kv_src : list (bytes * bytes) :=
  [(kv_pk "a", String.list_byte_of_string "V");
   (kv_pk "c", String.list_byte_of_string "V")].

(** A reply whose only row holds an integer where the field is a string. *)
Definition kv_rows_mismatch : list KeyValue :=
  [{| Key := kv_key "a" "V"; Value := {| Bytes := None; Integer := Some 7 |} |}].

Definition kv_dest : object := OSlice (GStruct kv_st) [].

Definition kv_scanned : object :=
  OSlice (GStruct kv_st) [OStruct kv_st (kv "a" "b"); OStruct kv_st (kv "c" "d")].

(** A heap with the primary key of [{a}] in its only array, and the slice on
    it. *)
Definition kv_heap : gmap nat bytes := <[0%nat := kv_pk "a"]> ∅.

Definition kv_pk_slice : Slices.slice :=
  {| Slices.s_arr := Some 0%nat; Slices.s_off := 0; Slices.s_len := 7; Slices.s_cap := 7 |}.

(** A runtime that doubles the length needed. *)
Definition double_cap (old n : nat) : nat := (2 * n)%nat.

(** An empty batch on the registry of the example. *)
Definition kv_batch : Batch := {| bDB := kv_db; calls := []; Results := [] |}.

End KV.

(** ** Vocabulary of the further properties *)

(** The field kinds whose values travel in the [Integer] member of a
    [proto.Value], and those that travel in [Bytes]. *)
Definition integer_kind (t : rtype) : bool :=
  match t with
  | TBool | TInt _ | TUint _ | TFloat _ => true
  | _ => false
  end.

Definition bytes_kind (t : rtype) : bool :=
  match t with
  | TString | TNamedString _ | TBytes => true
  | _ => false
  end.

(** ** Further examples

    Variations on the model of the example, and [type Account struct { ID
    int64; Hits int8; Note string }] bound to the table "accounts" with the
    primary key [ID]. *)

Module Examples.

(** The model of the example under another table name. *)
Definition users_model : model :=
  {| name := "users"; fields := KV.kv_fields; primaryKey := ["K"]; otherColumns := ["V"] |}.

(** The model of the example with a primary-key column that is no field. *)
Definition kv_nope_model : model :=
  {| name := "kv"; fields := KV.kv_fields; primaryKey := ["K"; "nope"];
     otherColumns := ["V"] |}.

(** The registry after [KV] is bound with both fields in the primary key,
    and the model it holds. *)
Definition kv_all_db : DB :=
  (BindModel KV.kv_getDBFields KV.empty_db "kv"
     (OStruct KV.kv_st [VString ""; VString ""]) ["K"; "V"]).1.

Definition kv_all_model : model :=
  {| name := "kv"; fields := KV.kv_fields; primaryKey := ["K"; "V"]; otherColumns := [] |}.

(** The destination of a scan into a slice of pointers, and what the scan
    of the example leaves in it. *)
Definition kv_dest_ptr : object := OSlice (GPtr (GStruct KV.kv_st)) [].

Definition kv_scanned_ptr : object :=
  OSlice (GPtr (GStruct KV.kv_st))
    [OPtr (OStruct KV.kv_st (KV.kv "a" "b")); OPtr (OStruct KV.kv_st (KV.kv "c" "d"))].

Definition acct_st : struct_type :=
  {| st_name := "Account"; st_fields := [TInt KInt64; TInt KInt8; TString] |}.

Definition acct_fields : gmap string field :=
  <["ID" := {| Index := 0 |}]>
    (<["Hits" := {| Index := 1 |}]> (<["Note" := {| Index := 2 |}]> ∅)).

Definition acct_model : model :=
  {| name := "accounts"; fields := acct_fields; primaryKey := ["ID"];
     otherColumns := ["Hits"; "Note"] |}.

Definition acct (id hits : Z) (note : string) : list value :=
  [VInt KInt64 id; VInt KInt8 hits; VString note].

Definition acct_pk (id : Z) : bytes :=
  SpecEncoding.EncodeVarint
    (SpecEncoding.EncodeBytes [] (String.list_byte_of_string "accounts")) id.

(** An empty batch on a registry that holds the model of [Account]. *)
Definition acct_batch : Batch :=
  {| bDB := {| experimentalModels := <[GStruct acct_st := acct_model]> ∅ |};
     calls := []; Results := [] |}.

(** [type Blob struct { K string; M map[string]int }] with both fields in
    the primary key. *)
Definition blob_st : struct_type :=
  {| st_name := "Blob"; st_fields := [TString; TOther "map[string]int"] |}.

Definition blob_fields : gmap string field :=
  <["K" := {| Index := 0 |}]> (<["M" := {| Index := 1 |}]> ∅).

Definition blob_model : model :=
  {| name := "blobs"; fields := blob_fields; primaryKey := ["K"; "M"]; otherColumns := [] |}.

Definition blob : object := OStruct blob_st [VString "a"; VOther "map[string]int"].

Definition blob_batch : Batch :=
  {| bDB := {| experimentalModels := <[GStruct blob_st := blob_model]> ∅ |};
     calls := []; Results := [] |}.

End Examples.


(** * Properties *)

(** ** Bytes *)

Lemma byte_val_range b : 0 <= byte_val b < 256.
Proof.
  unfold byte_val. pose proof (Byte.to_N_bounded b). lia.
Qed.

Lemma byte_of_Z_val b : byte_of_Z (byte_val b) = b.
Proof.
  unfold byte_of_Z, byte_val.
  rewrite Z.mod_small by (pose proof (Byte.to_N_bounded b); lia).
  rewrite N2Z.id, Byte.of_to_N. reflexivity.
Qed.

Lemma byte_val_of_Z z : byte_val (byte_of_Z z) = z mod 256.
Proof.
  unfold byte_of_Z, byte_val.
  pose proof (Z.mod_pos_bound z 256 ltac:(lia)) as Hr.
  destruct (Byte.of_N (Z.to_N (z mod 256))) as [b|] eqn:E.
  - apply Byte.to_of_N in E. rewrite E. lia.
  - pose proof (Byte.to_of_N_option_map (Z.to_N (z mod 256))) as Hm.
    rewrite E in Hm. simpl in Hm.
    destruct (N.leb_spec (Z.to_N (z mod 256)) 255); [discriminate | lia].
Qed.

Lemma byte_val_inj b1 b2 : byte_val b1 = byte_val b2 -> b1 = b2.
Proof.
  intros E. rewrite <- (byte_of_Z_val b1), <- (byte_of_Z_val b2), E. reflexivity.
Qed.

Lemma bytes_ltb_irrefl a : bytes_ltb a a = false.
Proof.
  induction a as [|x a IH]; simpl; [reflexivity|].
  rewrite Z.ltb_irrefl, Z.eqb_refl, IH. reflexivity.
Qed.

Lemma bytes_ltb_cons x a y b :
  bytes_ltb (x :: a) (y :: b) = true <->
  byte_val x < byte_val y \/ (x = y /\ bytes_ltb a b = true).
Proof.
  simpl. rewrite orb_true_iff, andb_true_iff, Z.ltb_lt, Z.eqb_eq.
  split; intros [?|[E ?]]; auto; right; split; auto.
  - by apply byte_val_inj.
  - by subst.
Qed.

Lemma bytes_ltb_trans a b c :
  bytes_ltb a b = true -> bytes_ltb b c = true -> bytes_ltb a c = true.
Proof.
  revert b c. induction a as [|x a IH]; intros [|y b] [|z c]; try done.
  rewrite !bytes_ltb_cons. intros [?|[-> ?]] [?|[-> ?]]; eauto; left; lia.
Qed.

Lemma bytes_ltb_app_l p a b : bytes_ltb (p ++ a) (p ++ b) = bytes_ltb a b.
Proof.
  induction p as [|x p IH]; simpl; [reflexivity|].
  rewrite Z.ltb_irrefl, Z.eqb_refl, IH. reflexivity.
Qed.

Lemma bytes_ltb_total a b : bytes_ltb a b = false -> bytes_ltb b a = false -> a = b.
Proof.
  revert b. induction a as [|x a IH]; intros [|y b]; try done.
  simpl. rewrite !orb_false_iff, !andb_false_iff, !Z.ltb_ge, !Z.eqb_neq.
  intros [? Ha] [? Hb].
  assert (byte_val x = byte_val y) as E by lia.
  apply byte_val_inj in E. subst. f_equal. apply IH.
  - by destruct Ha.
  - by destruct Hb.
Qed.

Lemma HasPrefix_app s p : HasPrefix (p ++ s) p = true.
Proof.
  induction p as [|x p IH]; simpl; [reflexivity|].
  rewrite bool_decide_eq_true_2 by done. exact IH.
Qed.

Lemma HasPrefix_spec s p : HasPrefix s p = true <-> exists t, s = p ++ t.
Proof.
  revert s. induction p as [|y p IH]; intros s; simpl.
  - split; eauto.
  - destruct s as [|x s].
    + split; [done | intros [t ?]; done].
    + rewrite andb_true_iff, bool_decide_eq_true, IH. split.
      * intros [-> [t ->]]. eauto.
      * intros [t E]. injection E as -> ->. eauto.
Qed.

Lemma bytes_ltb_app a b x y :
  bytes_ltb a b = true -> (forall t, b <> a ++ t) ->
  bytes_ltb (a ++ x) (b ++ y) = true.
Proof.
  revert b. induction a as [|c a IH]; intros [|d b] Hlt Hpre; try done.
  - by destruct (Hpre (d :: b)).
  - rewrite <- !app_comm_cons. apply bytes_ltb_cons.
    apply bytes_ltb_cons in Hlt as [?|[-> Hlt]]; [by left|right].
    split; [done|]. apply IH; [done|]. intros t ->. by destruct (Hpre t).
Qed.

Lemma bytes_le_cases a b : bytes_le a b <-> a = b \/ bytes_lt a b.
Proof.
  unfold bytes_le, bytes_lt. split.
  - intros Hba. destruct (bytes_ltb a b) eqn:Hab; [by right|left].
    by apply bytes_ltb_total.
  - intros [->|Hab]; [apply bytes_ltb_irrefl|].
    destruct (bytes_ltb b a) eqn:Hba; [|done].
    pose proof (bytes_ltb_trans _ _ _ Hab Hba) as Haa.
    by rewrite bytes_ltb_irrefl in Haa.
Qed.

Lemma bytes_le_trans a b c : bytes_le a b -> bytes_le b c -> bytes_le a c.
Proof.
  rewrite !bytes_le_cases. intros [->|Hab] [->|Hbc]; auto.
  right. by eapply bytes_ltb_trans.
Qed.

(** ** Machine integers *)

Lemma uint64_of_int64_of_uint64 u : is_uint64 u -> uint64_of_int64 (int64_of_uint64 u) = u.
Proof.
  unfold is_uint64, uint64_of_int64, int64_of_uint64, wrap_unsigned, wrap_signed.
  intros Hu. change (64 - 1) with 63.
  rewrite Zminus_mod_idemp_l.
  replace (u + 2 ^ 63 - 2 ^ 63) with u by lia.
  apply Z.mod_small. lia.
Qed.

Lemma int64_of_uint64_of_int64 i : is_int64 i -> int64_of_uint64 (uint64_of_int64 i) = i.
Proof.
  unfold is_int64, uint64_of_int64, int64_of_uint64, wrap_unsigned, wrap_signed.
  intros Hi. change (64 - 1) with 63.
  rewrite Zplus_mod_idemp_l.
  rewrite Z.mod_small; lia.
Qed.

Lemma wrap_signed_small w i :
  0 < w -> - 2 ^ (w - 1) <= i < 2 ^ (w - 1) -> wrap_signed w i = i.
Proof.
  intros Hw Hi. unfold wrap_signed.
  assert (2 ^ w = 2 * 2 ^ (w - 1)) as E.
  { rewrite <- Z.pow_succ_r by lia. f_equal. lia. }
  rewrite Z.mod_small; lia.
Qed.

Lemma wrap_unsigned_small w u : 0 <= u < 2 ^ w -> wrap_unsigned w u = u.
Proof. intros Hu. unfold wrap_unsigned. apply Z.mod_small. lia. Qed.

Lemma int_bits_range k : 0 < int_bits k <= 64.
Proof. destruct k; unfold int_bits, intSize; lia. Qed.

Lemma uint_bits_range k : 0 < uint_bits k <= 64.
Proof. destruct k; unfold uint_bits, intSize; lia. Qed.

Section TableProperties.
Context `{Encoding} `{Float32}.

Lemma wf_int_is_int64 k i : wf_value (VInt k i) -> is_int64 i.
Proof.
  simpl. unfold is_int64. pose proof (int_bits_range k) as Hk. intros Hi.
  assert (2 ^ (int_bits k - 1) <= 2 ^ 63) by (apply Z.pow_le_mono_r; lia).
  lia.
Qed.

Lemma wf_uint_is_uint64 k u : wf_value (VUint k u) -> is_uint64 u.
Proof.
  simpl. unfold is_uint64. pose proof (uint_bits_range k) as Hk. intros Hu.
  assert (2 ^ uint_bits k <= 2 ^ 64) by (apply Z.pow_le_mono_r; lia).
  lia.
Qed.

Lemma wf_float_is_uint64 k f : wf_value (VFloat k f) -> is_uint64 f.
Proof. unfold is_uint64. destruct k; simpl; tauto. Qed.

Lemma SetInt_wf k i : wf_value (VInt k i) -> SetInt k i = VInt k i.
Proof.
  intros Hi. unfold SetInt. f_equal. apply wrap_signed_small; [|exact Hi].
  apply int_bits_range.
Qed.

Lemma SetUint_wf k u : wf_value (VUint k u) -> SetUint k u = VUint k u.
Proof. intros Hu. unfold SetUint. f_equal. by apply wrap_unsigned_small. Qed.

Lemma SetFloat_wf k f : wf_value (VFloat k f) -> SetFloat k f = VFloat k f.
Proof. destruct k; simpl; [intros [_ ->]|]; reflexivity. Qed.

(** ** The value marshaler *)

(** C8. An absent source value ([src == nil]) sets every destination field
    to the zero value of its type and is no error; hence the post-processing
    step of a [Get] call whose reply carries no value (the column was
    deleted) leaves the zero value in the field and returns no error. *)
Theorem unmarshal_nil_is_zero :
  (forall dest, unmarshalTableValue None dest = Ok (zero (type_of dest))) /\
  (forall f v,
     get_post f (GetResponse None) v =
     let! fv := FieldByIndex v (Index f) in
     Ok (update_field v (Index f) (zero (type_of fv)))).
Proof.
  split.
  - intros dest. reflexivity.
  - intros f v. unfold get_post.
    destruct (FieldByIndex v (Index f)) as [fv| |]; reflexivity.
Qed.

(** C9. A float field marshals to the integer variant holding the bit
    pattern of the [float64] read as an [int64]; unmarshaling that value
    into a float field of the same kind gives the float back; the key
    encoding of the same field is [EncodeNumericFloat] of the float. *)
Theorem float_value_is_bit_pattern k f :
  wf_value (VFloat k f) ->
  marshalTableValue (VFloat k f) =
    Ok {| Bytes := None; Integer := Some (int64_of_uint64 (Float64bits f)) |} /\
  (forall pv f0,
     marshalTableValue (VFloat k f) = Ok pv ->
     unmarshalTableValue (Some pv) (VFloat k f0) = Ok (VFloat k f)) /\
  (forall b, encodeTableKey b (VFloat k f) = Ok (EncodeNumericFloat b f)).
Proof.
  intros Hwf. split; [reflexivity|]. split; [|reflexivity].
  intros pv f0 [= <-]. simpl. unfold GetInteger, Float64frombits, Float64bits. simpl.
  rewrite uint64_of_int64_of_uint64 by (by eapply wf_float_is_uint64).
  f_equal. by apply SetFloat_wf.
Qed.

(** ** The schema binding registry *)

Lemma Type__valid v : v <> OInvalid -> Type_ v = Ok (TypeOf v).
Proof. by destruct v. Qed.

Section Registry.
Context (getDBFields : gotype -> outcome (gmap string field)).

Lemma encodePrimaryKey_loop_app m pre post key v :
  encodePrimaryKey_loop m (pre ++ post) key v =
  let! key' := encodePrimaryKey_loop m pre key v in
  encodePrimaryKey_loop m post key' v.
Proof.
  revert key. induction pre as [|col pre IH]; intros key; simpl; [reflexivity|].
  destruct (fields m !! col) as [f|]; [|reflexivity].
  destruct (FieldByIndex v (Index f)) as [fv| |]; simpl; try reflexivity.
  destruct (encodeTableKey key fv) as [key'| |]; simpl; try reflexivity.
  apply IH.
Qed.

(** C5, as the code has it. [BindModel] does not look the primary-key
    columns up in the field map: binding a type that is not yet bound and
    whose fields can be computed succeeds for every list of primary-key
    columns and registers the list as given.  A primary-key column that is
    not a field is reported later, by [encodePrimaryKey], as an "unable to
    find field" error of the operation that builds a key. *)
Theorem BindModel_primary_key_unchecked db name0 obj pk fields0 :
  obj <> OInvalid ->
  experimentalModels db !! deref (TypeOf obj) = None ->
  getDBFields (deref (TypeOf obj)) = Ok fields0 ->
  exists m,
    BindModel getDBFields db name0 obj pk =
      ({| experimentalModels := <[deref (TypeOf obj) := m]> (experimentalModels db) |},
       Ok ()) /\
    name m = name0 /\ fields m = fields0 /\ primaryKey m = pk /\
    forall v pre col post key,
      pk = pre ++ col :: post ->
      fields0 !! col = None ->
      encodePrimaryKey_loop m pre
        (EncodeBytes [] (String.list_byte_of_string name0)) v = Ok key ->
      encodePrimaryKey m v = Err (EUnableToFindField name0 col).
Proof.
  intros Hobj Hfree Hf. unfold BindModel.
  rewrite (Type__valid obj Hobj), Hfree, Hf.
  eexists. split; [reflexivity|]. simpl. repeat split.
  intros v pre col post key -> Hcol Hpre.
  unfold encodePrimaryKey. simpl.
  rewrite encodePrimaryKey_loop_app, Hpre. simpl. rewrite Hcol. reflexivity.
Qed.

(** C6, as the code has it. Binding a record type that is already bound
    returns the "already defined" error; whenever [BindModel] does not
    succeed the registry is the one it was given; and the table name is not
    looked up: a type that is not yet bound is bound to any name, also one
    another type is bound to. *)
Theorem BindModel_type_uniqueness db name0 obj pk :
  obj <> OInvalid ->
  (forall m0,
     experimentalModels db !! deref (TypeOf obj) = Some m0 ->
     BindModel getDBFields db name0 obj pk = (db, Err (EAlreadyDefined name0))) /\
  ((BindModel getDBFields db name0 obj pk).2 <> Ok () ->
   (BindModel getDBFields db name0 obj pk).1 = db) /\
  (forall fields0,
     experimentalModels db !! deref (TypeOf obj) = None ->
     getDBFields (deref (TypeOf obj)) = Ok fields0 ->
     (BindModel getDBFields db name0 obj pk).2 = Ok () /\
     name <$> experimentalModels (BindModel getDBFields db name0 obj pk).1
                !! deref (TypeOf obj) = Some name0).
Proof.
  intros Hobj. unfold BindModel. rewrite (Type__valid obj Hobj). split; [|split].
  - intros m0 ->. reflexivity.
  - destruct (experimentalModels db !! deref (TypeOf obj)); [reflexivity|].
    destruct (getDBFields (deref (TypeOf obj))); simpl; [|reflexivity..].
    intros Hne. by destruct Hne.
  - intros fields0 Hfree Hf. rewrite Hfree, Hf. simpl.
    by rewrite lookup_insert_eq.
Qed.

End Registry.

(** ** The batch operation builder *)

Lemma GetStruct_calls_length m pk cols acc calls0 :
  GetStruct_calls m pk cols acc = Ok calls0 ->
  exists new, calls0 = acc ++ new /\ length new = length cols.
Proof.
  revert acc. induction cols as [|col cols IH]; intros acc; simpl.
  - intros [= <-]. exists []. by rewrite app_nil_r.
  - destruct (fields m !! col) as [f|]; [|done].
    intros (new & -> & Hlen)%IH. eexists (_ :: new).
    rewrite <- app_assoc. split; [reflexivity|]. simpl. by rewrite Hlen.
Qed.

Lemma PutStruct_calls_length m pk v cols acc calls0 :
  PutStruct_calls m pk v cols acc = Ok calls0 ->
  exists new, calls0 = acc ++ new /\ length new = length cols.
Proof.
  revert acc. induction cols as [|col cols IH]; intros acc; simpl.
  - intros [= <-]. exists []. by rewrite app_nil_r.
  - destruct (fields m !! col) as [f|]; [|done].
    destruct (FieldByIndex v (Index f)) as [fv| |]; simpl; [|done..].
    destruct (marshalTableValue fv) as [pv| |]; simpl; [|done..].
    intros (new & -> & Hlen)%IH. eexists (_ :: new).
    rewrite <- app_assoc. split; [reflexivity|]. simpl. by rewrite Hlen.
Qed.

Lemma DelStruct_calls_length m pk cols acc calls0 :
  DelStruct_calls m pk cols acc = Ok calls0 ->
  exists new, calls0 = acc ++ new /\ length new = length cols.
Proof.
  revert acc. induction cols as [|col cols IH]; intros acc; simpl.
  - intros [= <-]. exists []. by rewrite app_nil_r.
  - destruct (fields m !! col) as [f|]; [|done].
    intros (new & -> & Hlen)%IH. eexists (_ :: new).
    rewrite <- app_assoc. split; [reflexivity|]. simpl. by rewrite Hlen.
Qed.

Lemma refused_initResult b e : refused b (initResult b 0 0 (Some e)).
Proof. split; [reflexivity|]. by exists e. Qed.

Lemma issued_initResult b new rows :
  issued b (initResult (append_calls b new) (length new) rows None) (length new).
Proof. by exists new, rows. Qed.

Lemma Type__cases v : Type_ v = Ok (TypeOf v) \/ Type_ v = Panic.
Proof. destruct v; auto. Qed.

Lemma getModel_Ok db t p m :
  getModel db t p = Ok m -> experimentalModels db !! deref t = Some m.
Proof.
  unfold getModel. destruct (p && negb (is_ptr t)); [done|].
  destruct (experimentalModels db !! deref t); [|done]. by intros [= ->].
Qed.

Lemma encodeTableKey_no_panic key fv : encodeTableKey key fv <> Panic.
Proof. by destruct fv as [[]| | | | | | | | | |]. Qed.

Lemma encodePrimaryKey_loop_no_panic m cols key st r :
  (forall col f, fields m !! col = Some f -> (Index f < length r)%nat) ->
  encodePrimaryKey_loop m cols key (OStruct st r) <> Panic.
Proof.
  intros Hidx. revert key. induction cols as [|col cols IH]; intros key; simpl; [done|].
  destruct (fields m !! col) as [f|] eqn:Hf; [|done].
  destruct (lookup_lt_is_Some_2 r (Index f) (Hidx col f Hf)) as [fv ->]. simpl.
  pose proof (encodeTableKey_no_panic key fv).
  destruct (encodeTableKey key fv); simpl; [apply IH|done..].
Qed.

Lemma GetStruct_calls_no_panic m pk cols acc : GetStruct_calls m pk cols acc <> Panic.
Proof.
  revert acc. induction cols as [|col cols IH]; intros acc; simpl; [done|].
  destruct (fields m !! col); [apply IH|done].
Qed.

Lemma DelStruct_calls_no_panic m pk cols acc : DelStruct_calls m pk cols acc <> Panic.
Proof.
  revert acc. induction cols as [|col cols IH]; intros acc; simpl; [done|].
  destruct (fields m !! col); [apply IH|done].
Qed.

Lemma PutStruct_calls_no_panic m pk st r cols acc :
  (forall col f, fields m !! col = Some f -> (Index f < length r)%nat) ->
  Forall (fun fv => marshalTableValue fv <> Panic) r ->
  PutStruct_calls m pk (OStruct st r) cols acc <> Panic.
Proof.
  intros Hidx Hm. revert acc. induction cols as [|col cols IH]; intros acc; simpl; [done|].
  destruct (fields m !! col) as [f|] eqn:Hf; [|done].
  destruct (lookup_lt_is_Some_2 r (Index f) (Hidx col f Hf)) as [fv Hfv].
  rewrite Hfv. simpl.
  pose proof (Forall_lookup_1 _ _ _ _ Hm Hfv) as Hnp. simpl in Hnp.
  destruct (marshalTableValue fv); simpl; [apply IH|done..].
Qed.

(** The record behind a bound type. *)
Lemma bound_record db m v :
  wf_registry db -> record_object v ->
  experimentalModels db !! deref (TypeOf v) = Some m ->
  exists st r, v = OStruct st r /\
    (forall col f, fields m !! col = Some f -> (Index f < length r)%nat) /\
    Forall (fun fv => marshalTableValue fv <> Panic) r.
Proof.
  intros Hdb Hv Hm. destruct (Hdb _ _ Hm) as (st & Ht & Hidx).
  destruct v as [st' r| | | | |]; simpl in *; try done.
  injection Ht as ->. destruct Hv as [Hlen Hmar].
  exists st, r. split; [done|]. split; [|done].
  intros col f Hf. rewrite Hlen. by eapply Hidx.
Qed.

Lemma record_object_valid v : record_object v -> v <> OInvalid.
Proof. by destruct v. Qed.

Lemma deref_pointer obj :
  is_ptr (TypeOf obj) = true -> record_object (Indirect obj) ->
  deref (TypeOf obj) = deref (TypeOf (Indirect obj)).
Proof.
  destruct obj as [| o| | | |]; simpl; try done. intros _ Ho. by destruct o.
Qed.

Lemma getModel_pointer db t m : getModel db t true = Ok m -> is_ptr t = true.
Proof. unfold getModel. by destruct (is_ptr t). Qed.

Lemma encodePrimaryKey_no_panic db m v :
  wf_registry db -> record_object v ->
  experimentalModels db !! deref (TypeOf v) = Some m ->
  encodePrimaryKey m v <> Panic.
Proof.
  intros Hdb Hv Hm. destruct (bound_record db m v Hdb Hv Hm) as (st & r & -> & Hidx & _).
  by apply encodePrimaryKey_loop_no_panic.
Qed.

(** Each of the five structured operations either records an error and
    leaves the call list of the batch as it was, or appends all of its calls
    and records no error; on a sound registry and on records (or pointers to
    records) the operations do not panic. *)
Lemma operations_refuse_or_issue b :
  (forall obj columns,
     all_or_nothing b (GetStruct b obj columns)
       ((fun m => length (effective_columns m columns)) <$>
          experimentalModels (bDB b) !! deref (TypeOf obj)) /\
     (wf_registry (bDB b) -> obj <> OInvalid -> record_object (Indirect obj) ->
      GetStruct b obj columns <> Panic)) /\
  (forall obj columns,
     all_or_nothing b (PutStruct b obj columns) (calls_asked (bDB b) obj columns) /\
     (wf_registry (bDB b) -> record_object (Indirect obj) ->
      PutStruct b obj columns <> Panic)) /\
  (forall obj value column,
     all_or_nothing b (IncStruct b obj value column) (Some 1%nat) /\
     (wf_registry (bDB b) -> obj <> OInvalid -> record_object (Indirect obj) ->
      IncStruct b obj value column <> Panic)) /\
  (forall dest start end_ maxRows columns,
     all_or_nothing b (ScanStruct b dest start end_ maxRows columns) (Some 1%nat) /\
     (wf_registry (bDB b) ->
      record_object (Indirect start) -> record_object (Indirect end_) ->
      ScanStruct b dest start end_ maxRows columns <> Panic)) /\
  (forall obj columns,
     all_or_nothing b (DelStruct b obj columns) (calls_asked (bDB b) obj columns) /\
     (wf_registry (bDB b) -> record_object (Indirect obj) ->
      DelStruct b obj columns <> Panic)).
Proof.
  split; [|split; [|split; [|split]]].
  - intros obj columns. split.
    + unfold GetStruct.
      destruct (Type__cases obj) as [-> | ->]; simpl; [|done].
      destruct (getModel _ _ _) as [m| |] eqn:Hm; simpl;
        [|left; apply refused_initResult|done].
      apply getModel_Ok in Hm. rewrite Hm. simpl.
      destruct (encodePrimaryKey _ _) as [pk| |]; simpl;
        [|left; apply refused_initResult|done].
      destruct (GetStruct_calls _ _ _ _) as [cs| |] eqn:Hc; simpl;
        [|left; apply refused_initResult|done].
      apply GetStruct_calls_length in Hc as (new & -> & <-). simpl.
      right. eexists. split; [reflexivity|]. apply issued_initResult.
    + intros Hdb Hobj Hv. unfold GetStruct. rewrite (Type__valid obj Hobj). simpl.
      destruct (getModel _ _ _) as [m| |] eqn:Hm; [|done|].
      * pose proof (getModel_pointer _ _ _ Hm) as Hptr.
        apply getModel_Ok in Hm. rewrite (deref_pointer obj Hptr Hv) in Hm.
        pose proof (encodePrimaryKey_no_panic _ m _ Hdb Hv Hm).
        destruct (encodePrimaryKey _ _) as [pk| |]; [|done..].
        pose proof (GetStruct_calls_no_panic m pk (effective_columns m columns) []).
        by destruct (GetStruct_calls _ _ _ _).
      * unfold getModel in Hm. by repeat case_match.
  - intros obj columns. split.
    + unfold PutStruct, calls_asked, model_of.
      destruct (Type__cases (Indirect obj)) as [-> | ->]; simpl; [|done].
      destruct (getModel _ _ _) as [m| |] eqn:Hm; simpl;
        [|left; apply refused_initResult|done].
      apply getModel_Ok in Hm. rewrite Hm. simpl.
      destruct (encodePrimaryKey _ _) as [pk| |]; simpl;
        [|left; apply refused_initResult|done].
      destruct (PutStruct_calls _ _ _ _ _) as [cs| |] eqn:Hc; simpl;
        [|left; apply refused_initResult|done].
      apply PutStruct_calls_length in Hc as (new & -> & <-). simpl.
      right. eexists. split; [reflexivity|]. apply issued_initResult.
    + intros Hdb Hv. unfold PutStruct.
      rewrite (Type__valid _ (record_object_valid _ Hv)). simpl.
      destruct (getModel _ _ _) as [m| |] eqn:Hm; [|done|].
      * apply getModel_Ok in Hm.
        pose proof (encodePrimaryKey_no_panic _ m _ Hdb Hv Hm).
        destruct (encodePrimaryKey _ _) as [pk| |]; [|done..].
        destruct (bound_record _ m _ Hdb Hv Hm) as (st & r & -> & Hidx & Hmar).
        pose proof (PutStruct_calls_no_panic m pk st r (effective_columns m columns) []
                      Hidx Hmar).
        by destruct (PutStruct_calls _ _ _ _ _).
      * unfold getModel in Hm. by repeat case_match.
  - intros obj value column. split.
    + unfold IncStruct.
      destruct (Type__cases obj) as [-> | ->]; simpl; [|done].
      destruct (getModel _ _ _) as [m| |]; simpl;
        [|left; apply refused_initResult|done].
      destruct (encodePrimaryKey _ _) as [pk| |]; simpl;
        [|left; apply refused_initResult|done].
      destruct (fields m !! column) as [f|]; simpl;
        [|left; apply refused_initResult].
      right. eexists. split; [reflexivity|].
      apply (issued_initResult b [_] 1).
    + intros Hdb Hobj Hv. unfold IncStruct. rewrite (Type__valid obj Hobj). simpl.
      destruct (getModel _ _ _) as [m| |] eqn:Hm; [|done|].
      * pose proof (getModel_pointer _ _ _ Hm) as Hptr.
        apply getModel_Ok in Hm. rewrite (deref_pointer obj Hptr Hv) in Hm.
        pose proof (encodePrimaryKey_no_panic _ m _ Hdb Hv Hm).
        destruct (encodePrimaryKey _ _) as [pk| |]; [|done..].
        by destruct (fields m !! column).
      * unfold getModel in Hm. by repeat case_match.
  - intros dest start end_ maxRows columns. split.
    + unfold ScanStruct.
      destruct (negb (is_ptr (TypeOf dest))); simpl; [left; apply refused_initResult|].
      destruct (Indirect dest) as [| | |elem items| |]; simpl;
        try (left; apply refused_initResult).
      destruct (getModel _ _ _) as [m| |]; simpl;
        [|left; apply refused_initResult|done].
      destruct (Type__cases (Indirect start)) as [-> | ->]; simpl; [|done].
      destruct (negb (bool_decide (_ = TypeOf (Indirect start)))); simpl;
        [left; apply refused_initResult|].
      destruct (Type__cases (Indirect end_)) as [-> | ->]; simpl; [|done].
      destruct (negb (bool_decide (_ = TypeOf (Indirect end_)))); simpl;
        [left; apply refused_initResult|].
      destruct (encodePrimaryKey _ (Indirect start)) as [startKey| |]; simpl;
        [|left; apply refused_initResult|done].
      destruct (encodePrimaryKey _ (Indirect end_)) as [endKey| |]; simpl;
        [|left; apply refused_initResult|done].
      right. eexists. split; [reflexivity|].
      apply (issued_initResult b [_] 0).
    + intros Hdb Hs He. unfold ScanStruct.
      destruct (negb (is_ptr (TypeOf dest))); [done|].
      destruct (Indirect dest) as [| | |elem items| |]; try done.
      destruct (getModel _ _ _) as [m| |] eqn:Hm; [|done|].
      * apply getModel_Ok in Hm.
        rewrite (Type__valid _ (record_object_valid _ Hs)). simpl.
        case_bool_decide as Hts; simpl; [|done].
        rewrite (Type__valid _ (record_object_valid _ He)). simpl.
        case_bool_decide as Hte; simpl; [|done].
        assert (experimentalModels (bDB b) !! deref (TypeOf (Indirect start)) = Some m)
          as Hms by (by rewrite <- Hts).
        assert (experimentalModels (bDB b) !! deref (TypeOf (Indirect end_)) = Some m)
          as Hme by (by rewrite <- Hte).
        pose proof (encodePrimaryKey_no_panic _ m _ Hdb Hs Hms).
        pose proof (encodePrimaryKey_no_panic _ m _ Hdb He Hme).
        destruct (encodePrimaryKey m (Indirect start)); [|done..].
        by destruct (encodePrimaryKey m (Indirect end_)).
      * unfold getModel in Hm. by repeat case_match.
  - intros obj columns. split.
    + unfold DelStruct, calls_asked, model_of.
      destruct (Type__cases (Indirect obj)) as [-> | ->]; simpl; [|done].
      destruct (getModel _ _ _) as [m| |] eqn:Hm; simpl;
        [|left; apply refused_initResult|done].
      apply getModel_Ok in Hm. rewrite Hm. simpl.
      destruct (encodePrimaryKey _ _) as [pk| |]; simpl;
        [|left; apply refused_initResult|done].
      destruct (DelStruct_calls _ _ _ _) as [cs| |] eqn:Hc; simpl;
        [|left; apply refused_initResult|done].
      apply DelStruct_calls_length in Hc as (new & -> & <-). simpl.
      right. eexists. split; [reflexivity|]. apply issued_initResult.
    + intros Hdb Hv. unfold DelStruct.
      rewrite (Type__valid _ (record_object_valid _ Hv)). simpl.
      destruct (getModel _ _ _) as [m| |] eqn:Hm; [|done|].
      * apply getModel_Ok in Hm.
        pose proof (encodePrimaryKey_no_panic _ m _ Hdb Hv Hm).
        destruct (encodePrimaryKey _ _) as [pk| |]; [|done..].
        pose proof (DelStruct_calls_no_panic m pk (effective_columns m columns) []).
        by destruct (DelStruct_calls _ _ _ _).
      * unfold getModel in Hm. by repeat case_match.
Qed.

Lemma scan_modelT_deref elem : (if is_ptr elem then deref elem else elem) = deref elem.
Proof. by destruct elem. Qed.

Lemma GetStruct_calls_known m pk cols acc :
  columns_known m cols ->
  exists new, GetStruct_calls m pk cols acc = Ok (acc ++ new) /\ length new = length cols.
Proof.
  intros Hk. revert acc. induction Hk as [|col cols [f Hf] _ IH]; intros acc; simpl.
  - exists []. by rewrite app_nil_r.
  - rewrite Hf. edestruct IH as (new & Hnew & Hlen). rewrite Hnew.
    eexists (_ :: new). rewrite <- app_assoc. split; [reflexivity|]. simpl. by rewrite Hlen.
Qed.

Lemma GetStruct_calls_Ok_known m pk cols acc cs :
  GetStruct_calls m pk cols acc = Ok cs -> columns_known m cols.
Proof.
  revert acc. induction cols as [|col cols IH]; intros acc; simpl; [by constructor|].
  destruct (fields m !! col) as [f|] eqn:Hf; [|done].
  intros Hc%IH. by constructor.
Qed.

Lemma DelStruct_calls_known m pk cols acc :
  columns_known m cols ->
  exists new, DelStruct_calls m pk cols acc = Ok (acc ++ new) /\ length new = length cols.
Proof.
  intros Hk. revert acc. induction Hk as [|col cols [f Hf] _ IH]; intros acc; simpl.
  - exists []. by rewrite app_nil_r.
  - rewrite Hf. edestruct IH as (new & Hnew & Hlen). rewrite Hnew.
    eexists (_ :: new). rewrite <- app_assoc. split; [reflexivity|]. simpl. by rewrite Hlen.
Qed.

Lemma DelStruct_calls_Ok_known m pk cols acc cs :
  DelStruct_calls m pk cols acc = Ok cs -> columns_known m cols.
Proof.
  revert acc. induction cols as [|col cols IH]; intros acc; simpl; [by constructor|].
  destruct (fields m !! col) as [f|] eqn:Hf; [|done].
  intros Hc%IH. by constructor.
Qed.

Lemma PutStruct_calls_valid m pk v cols acc :
  columns_known m cols -> columns_marshal m v cols ->
  exists new, PutStruct_calls m pk v cols acc = Ok (acc ++ new) /\
              length new = length cols.
Proof.
  intros Hk. revert acc. induction Hk as [|col cols [f Hf] _ IH]; intros acc Hm; simpl.
  - exists []. by rewrite app_nil_r.
  - apply Forall_cons in Hm as [Hcol Hm]. destruct (Hcol f Hf) as (fv & pv & Hfv & Hpv).
    rewrite Hf, Hfv. simpl. rewrite Hpv. simpl.
    edestruct (fun acc => IH acc Hm) as (new & Hnew & Hlen). rewrite Hnew.
    eexists (_ :: new). rewrite <- app_assoc. split; [reflexivity|]. simpl. by rewrite Hlen.
Qed.

Lemma PutStruct_calls_Ok_valid m pk v cols acc cs :
  PutStruct_calls m pk v cols acc = Ok cs ->
  columns_known m cols /\ columns_marshal m v cols.
Proof.
  revert acc. induction cols as [|col cols IH]; intros acc; simpl;
    [by split; constructor|].
  destruct (fields m !! col) as [f|] eqn:Hf; [|done].
  destruct (FieldByIndex v (Index f)) as [fv| |] eqn:Hfv; simpl; [|done..].
  destruct (marshalTableValue fv) as [pv| |] eqn:Hpv; simpl; [|done..].
  intros [Hk Hm]%IH. split; constructor; try done.
  intros f' ?. simplify_eq. by exists fv, pv.
Qed.

Lemma getModel_cases db t p :
  getModel db t p =
  if p && negb (is_ptr t) then Err EPointerRequired
  else match experimentalModels db !! deref t with
       | Some m => Ok m
       | None => Err ENoModel
       end.
Proof. reflexivity. Qed.

Lemma getModel_no_panic db t p : getModel db t p <> Panic.
Proof. rewrite getModel_cases. by repeat case_match. Qed.

(** C4, as the code has it. On a sound registry and on a record that is
    there (or a pointer to one), each of the five structured operations
    does one of two things.  When every validation step passes it appends
    all of its calls and records no error: one call per column asked for
    ([GetStruct], [PutStruct], [DelStruct]; the columns are the
    non-primary-key columns of the model when none is named), one call
    ([IncStruct], [ScanStruct]).  When a validation step fails it records an
    error and leaves the call list of the batch as it was.  Whatever it is
    handed, an operation that returns has appended all of its calls or
    none. *)
Theorem structured_operations_all_or_nothing b :
  (forall obj columns,
     (forall m, GetStruct_valid (bDB b) obj columns m ->
        exists new,
          GetStruct b obj columns =
            Ok (initResult (append_calls b new) (length new) (length new) None) /\
          length new = length (effective_columns m columns)) /\
     (wf_registry (bDB b) -> obj <> OInvalid -> record_object (Indirect obj) ->
      (forall m, ~ GetStruct_valid (bDB b) obj columns m) ->
      exists e, GetStruct b obj columns = Ok (initResult b 0 0 (Some e))) /\
     all_or_nothing b (GetStruct b obj columns)
       ((fun m => length (effective_columns m columns)) <$>
          experimentalModels (bDB b) !! deref (TypeOf obj))) /\
  (forall obj columns,
     (forall m, Indirect obj <> OInvalid -> PutStruct_valid (bDB b) obj columns m ->
        exists new,
          PutStruct b obj columns =
            Ok (initResult (append_calls b new) (length new) (length new) None) /\
          length new = length (effective_columns m columns)) /\
     (wf_registry (bDB b) -> record_object (Indirect obj) ->
      (forall m, ~ PutStruct_valid (bDB b) obj columns m) ->
      exists e, PutStruct b obj columns = Ok (initResult b 0 0 (Some e))) /\
     all_or_nothing b (PutStruct b obj columns) (calls_asked (bDB b) obj columns)) /\
  (forall obj value column,
     (forall m, IncStruct_valid (bDB b) obj column m ->
        exists c,
          IncStruct b obj value column = Ok (initResult (append_calls b [c]) 1 1 None)) /\
     (wf_registry (bDB b) -> obj <> OInvalid -> record_object (Indirect obj) ->
      (forall m, ~ IncStruct_valid (bDB b) obj column m) ->
      exists e, IncStruct b obj value column = Ok (initResult b 0 0 (Some e))) /\
     all_or_nothing b (IncStruct b obj value column) (Some 1%nat)) /\
  (forall dest start end_ maxRows columns,
     (forall m, Indirect start <> OInvalid -> Indirect end_ <> OInvalid ->
        ScanStruct_valid (bDB b) dest start end_ m ->
        exists c,
          ScanStruct b dest start end_ maxRows columns =
            Ok (initResult (append_calls b [c]) 1 0 None)) /\
     (wf_registry (bDB b) ->
      record_object (Indirect start) -> record_object (Indirect end_) ->
      (forall m, ~ ScanStruct_valid (bDB b) dest start end_ m) ->
      exists e,
        ScanStruct b dest start end_ maxRows columns = Ok (initResult b 0 0 (Some e))) /\
     all_or_nothing b (ScanStruct b dest start end_ maxRows columns) (Some 1%nat)) /\
  (forall obj columns,
     (forall m, Indirect obj <> OInvalid -> DelStruct_valid (bDB b) obj columns m ->
        exists new,
          DelStruct b obj columns =
            Ok (initResult (append_calls b new) (length new) (length new) None) /\
          length new = length (effective_columns m columns)) /\
     (wf_registry (bDB b) -> record_object (Indirect obj) ->
      (forall m, ~ DelStruct_valid (bDB b) obj columns m) ->
      exists e, DelStruct b obj columns = Ok (initResult b 0 0 (Some e))) /\
     all_or_nothing b (DelStruct b obj columns) (calls_asked (bDB b) obj columns)).
Proof.
  destruct (operations_refuse_or_issue b) as (Hget & Hput & Hinc & Hscan & Hdel).
  split; [|split; [|split; [|split]]].
  - intros obj columns. split; [|split; [|apply Hget]].
    + intros m (Hp & Hm & [pk Hpk] & Hk). unfold GetStruct.
      assert (obj <> OInvalid) as Hobj by (by destruct obj).
      rewrite (Type__valid obj Hobj). cbn [obind].
      rewrite getModel_cases, Hp, Hm. cbn [andb negb]. rewrite Hpk.
      destruct (GetStruct_calls_known m pk (effective_columns m columns) [] Hk)
        as (new & -> & Hlen).
      exists new. by rewrite app_nil_l.
    + intros Hdb Hobj Hv Hnv. unfold GetStruct. rewrite (Type__valid obj Hobj). cbn [obind].
      destruct (getModel _ _ _) as [m|e|] eqn:Hm;
        [|by eexists|by destruct (getModel_no_panic _ _ _ Hm)].
      pose proof (getModel_pointer _ _ _ Hm) as Hptr.
      apply getModel_Ok in Hm. pose proof Hm as Hm'.
      rewrite (deref_pointer obj Hptr Hv) in Hm'.
      pose proof (encodePrimaryKey_no_panic _ m _ Hdb Hv Hm') as Hnp.
      destruct (encodePrimaryKey m (Indirect obj)) as [pk|e|] eqn:Hpk; [|by eexists|done].
      pose proof (GetStruct_calls_no_panic m pk (effective_columns m columns) []) as Hcp.
      destruct (GetStruct_calls _ _ _ _) as [cs|e|] eqn:Hc; [|by eexists|done].
      destruct (Hnv m). repeat split; [done|done|by exists pk|].
      by eapply GetStruct_calls_Ok_known.
  - intros obj columns. split; [|split; [|apply Hput]].
    + intros m Hobj (Hm & [pk Hpk] & Hk & Hmar). unfold PutStruct.
      rewrite (Type__valid _ Hobj). cbn [obind].
      rewrite getModel_cases, Hm. cbn [andb]. rewrite Hpk.
      destruct (PutStruct_calls_valid m pk (Indirect obj) (effective_columns m columns) []
                  Hk Hmar) as (new & -> & Hlen).
      exists new. by rewrite app_nil_l.
    + intros Hdb Hv Hnv. unfold PutStruct.
      rewrite (Type__valid _ (record_object_valid _ Hv)). cbn [obind].
      destruct (getModel _ _ _) as [m|e|] eqn:Hm;
        [|by eexists|by destruct (getModel_no_panic _ _ _ Hm)].
      apply getModel_Ok in Hm.
      pose proof (encodePrimaryKey_no_panic _ m _ Hdb Hv Hm) as Hnp.
      destruct (encodePrimaryKey m (Indirect obj)) as [pk|e|] eqn:Hpk; [|by eexists|done].
      destruct (bound_record _ m _ Hdb Hv Hm) as (st & r & Hr & Hidx & Hmar).
      pose proof (PutStruct_calls_no_panic m pk st r (effective_columns m columns) []
                    Hidx Hmar) as Hcp.
      rewrite <- Hr in Hcp.
      destruct (PutStruct_calls _ _ _ _ _) as [cs|e|] eqn:Hc; [|by eexists|done].
      apply PutStruct_calls_Ok_valid in Hc as [Hk Hcm].
      destruct (Hnv m). repeat split; [done|by exists pk|done|done].
  - intros obj value column. split; [|split; [|apply Hinc]].
    + intros m (Hp & Hm & [pk Hpk] & [f Hf]). unfold IncStruct.
      assert (obj <> OInvalid) as Hobj by (by destruct obj).
      rewrite (Type__valid obj Hobj). cbn [obind].
      rewrite getModel_cases, Hp, Hm. cbn [andb negb]. rewrite Hpk, Hf. by eexists.
    + intros Hdb Hobj Hv Hnv. unfold IncStruct. rewrite (Type__valid obj Hobj). cbn [obind].
      destruct (getModel _ _ _) as [m|e|] eqn:Hm;
        [|by eexists|by destruct (getModel_no_panic _ _ _ Hm)].
      pose proof (getModel_pointer _ _ _ Hm) as Hptr.
      apply getModel_Ok in Hm. pose proof Hm as Hm'.
      rewrite (deref_pointer obj Hptr Hv) in Hm'.
      pose proof (encodePrimaryKey_no_panic _ m _ Hdb Hv Hm') as Hnp.
      destruct (encodePrimaryKey m (Indirect obj)) as [pk|e|] eqn:Hpk; [|by eexists|done].
      destruct (fields m !! column) as [f|] eqn:Hf; [|by eexists].
      destruct (Hnv m). repeat split; [done|done|by exists pk|by exists f].
  - intros dest start end_ maxRows columns. split; [|split; [|apply Hscan]].
    + intros m Hs He (Hp & elem & items & Hd & Hm & Hts & Hte & [sk Hsk] & [ek Hek]).
      unfold ScanStruct. rewrite Hp, Hd. cbn [negb]. rewrite scan_modelT_deref.
      rewrite getModel_cases, Hm. cbn [andb].
      rewrite (Type__valid _ Hs), (Type__valid _ He). cbn [obind].
      rewrite Hts, Hte, !bool_decide_eq_true_2 by done. cbn [negb obind].
      rewrite Hsk, Hek. by eexists.
    + intros Hdb Hs He Hnv. unfold ScanStruct.
      destruct (is_ptr (TypeOf dest)) eqn:Hp; cbn [negb]; [|by eexists].
      destruct (Indirect dest) as [| | |elem items| |] eqn:Hd; try by eexists.
      rewrite scan_modelT_deref.
      destruct (getModel _ _ _) as [m|e|] eqn:Hm;
        [|by eexists|by destruct (getModel_no_panic _ _ _ Hm)].
      apply getModel_Ok in Hm.
      rewrite (Type__valid _ (record_object_valid _ Hs)). cbn [obind].
      case_bool_decide as Hts; cbn [negb]; [|by eexists].
      rewrite (Type__valid _ (record_object_valid _ He)). cbn [obind].
      case_bool_decide as Hte; cbn [negb]; [|by eexists].
      assert (experimentalModels (bDB b) !! deref (TypeOf (Indirect start)) = Some m)
        as Hms by (by rewrite <- Hts).
      assert (experimentalModels (bDB b) !! deref (TypeOf (Indirect end_)) = Some m)
        as Hme by (by rewrite <- Hte).
      pose proof (encodePrimaryKey_no_panic _ m _ Hdb Hs Hms) as Hnps.
      pose proof (encodePrimaryKey_no_panic _ m _ Hdb He Hme) as Hnpe.
      destruct (encodePrimaryKey m (Indirect start)) as [sk|e|] eqn:Hsk; [|by eexists|done].
      destruct (encodePrimaryKey m (Indirect end_)) as [ek|e|] eqn:Hek; [|by eexists|done].
      destruct (Hnv m). split; [done|]. exists elem, items.
      repeat split; [done|done|done|done|by exists sk|by exists ek].
  - intros obj columns. split; [|split; [|apply Hdel]].
    + intros m Hobj (Hm & [pk Hpk] & Hk). unfold DelStruct.
      rewrite (Type__valid _ Hobj). cbn [obind].
      rewrite getModel_cases, Hm. cbn [andb]. rewrite Hpk.
      destruct (DelStruct_calls_known m pk (effective_columns m columns) [] Hk)
        as (new & -> & Hlen).
      exists new. by rewrite app_nil_l.
    + intros Hdb Hv Hnv. unfold DelStruct.
      rewrite (Type__valid _ (record_object_valid _ Hv)). cbn [obind].
      destruct (getModel _ _ _) as [m|e|] eqn:Hm;
        [|by eexists|by destruct (getModel_no_panic _ _ _ Hm)].
      apply getModel_Ok in Hm.
      pose proof (encodePrimaryKey_no_panic _ m _ Hdb Hv Hm) as Hnp.
      destruct (encodePrimaryKey m (Indirect obj)) as [pk|e|] eqn:Hpk; [|by eexists|done].
      pose proof (DelStruct_calls_no_panic m pk (effective_columns m columns) []) as Hcp.
      destruct (DelStruct_calls _ _ _ _) as [cs|e|] eqn:Hc; [|by eexists|done].
      destruct (Hnv m). repeat split; [done|by exists pk|].
      by eapply DelStruct_calls_Ok_known.
Qed.

(** ** The key codec *)

Section Codec.
Context `{!EncodingLaws}.

Lemma slice_bytes_go_append t : slice_bytes (go_append None t) = t.
Proof. by destruct t. Qed.

Lemma decoded_same_value v : same_value (decoded v) v.
Proof. destruct v; simpl; try reflexivity. apply slice_bytes_go_append. Qed.

Lemma decoded_type_of v : type_of (decoded v) = type_of v.
Proof. by destruct v. Qed.

Lemma decoded_wf v : wf_value v -> wf_value (decoded v).
Proof. by destruct v. Qed.

Lemma encodeTableKey_app b v :
  encodeTableKey b v = let! k := encodeTableKey [] v in Ok (b ++ k).
Proof.
  destruct v as [[]| | | | | | | | | |]; simpl; try reflexivity; f_equal;
    first [apply EncodeBytes_app | apply EncodeVarint_app
          | apply EncodeUvarint_app | apply EncodeNumericFloat_app].
Qed.

Lemma encodeTableKey_key_kind v :
  key_kind (type_of v) = true -> exists k, encodeTableKey [] v = Ok k.
Proof. destruct v as [[]| | | | | | | | | |]; simpl; try done; eauto. Qed.

Lemma encodeTableKey_decoded b v : encodeTableKey b (decoded v) = encodeTableKey b v.
Proof.
  destruct v; try reflexivity. unfold decoded, encodeTableKey.
  by rewrite slice_bytes_go_append.
Qed.

(** Decoding reads back what encoding wrote and returns what follows it. *)
Lemma decodeTableKey_encodeTableKey v dest k rest :
  wf_value v -> type_of dest = type_of v ->
  encodeTableKey [] v = Ok k ->
  decodeTableKey (k ++ rest) dest = Ok (rest, decoded v).
Proof.
  intros Hwf Ht Hk.
  destruct v as [[]|kd i|kd u|kd f|s|n s|t| | | |]; simpl in Hk; try done;
    injection Hk as <-; destruct dest; simpl in Ht; try done;
    simplify_eq; simpl.
  - rewrite DecodeVarint_Encode by (unfold is_int64; lia). reflexivity.
  - rewrite DecodeVarint_Encode by (unfold is_int64; lia). reflexivity.
  - rewrite DecodeVarint_Encode by (by eapply wf_int_is_int64). simpl.
    by rewrite SetInt_wf.
  - rewrite DecodeUvarint_Encode by (by eapply wf_uint_is_uint64). simpl.
    by rewrite SetUint_wf.
  - rewrite DecodeNumericFloat_Encode by (by eapply wf_float_is_uint64). simpl.
    by rewrite SetFloat_wf.
  - rewrite DecodeBytes_Encode. simpl.
    by rewrite String.string_of_list_byte_of_string.
  - rewrite DecodeBytes_Encode. simpl.
    by rewrite String.string_of_list_byte_of_string.
  - rewrite DecodeBytes_Encode. reflexivity.
Qed.

Lemma encodeTableKey_lt v1 v2 k1 k2 :
  wf_value v1 -> wf_value v2 -> value_lt v1 v2 ->
  encodeTableKey [] v1 = Ok k1 -> encodeTableKey [] v2 = Ok k2 ->
  bytes_lt k1 k2.
Proof.
  intros Hw1 Hw2 Hlt Hk1 Hk2.
  destruct v1 as [b1|kd1 i1|kd1 u1|kd1 f1|s1|n1 s1|t1| | | |];
    destruct v2 as [b2|kd2 i2|kd2 u2|kd2 f2|s2|n2 s2|t2| | | |];
    simpl in Hlt; try done.
  - destruct Hlt as [-> ->]. simpl in *. injection Hk1 as <-. injection Hk2 as <-.
    apply EncodeVarint_lt; unfold is_int64; lia.
  - destruct Hlt as [-> Hlt]. simpl in Hk1, Hk2. injection Hk1 as <-. injection Hk2 as <-.
    apply EncodeVarint_lt; [by eapply wf_int_is_int64..|done].
  - destruct Hlt as [-> Hlt]. simpl in Hk1, Hk2. injection Hk1 as <-. injection Hk2 as <-.
    apply EncodeUvarint_lt; [by eapply wf_uint_is_uint64..|done].
  - destruct Hlt as [-> Hlt]. simpl in Hk1, Hk2. injection Hk1 as <-. injection Hk2 as <-.
    apply EncodeNumericFloat_lt; [by eapply wf_float_is_uint64..|done].
  - simpl in Hk1, Hk2. injection Hk1 as <-. injection Hk2 as <-.
    by apply EncodeBytes_lt.
  - destruct Hlt as [-> Hlt]. simpl in Hk1, Hk2. injection Hk1 as <-. injection Hk2 as <-.
    by apply EncodeBytes_lt.
  - simpl in Hk1, Hk2. injection Hk1 as <-. injection Hk2 as <-.
    by apply EncodeBytes_lt.
Qed.

(** C3. For every value of a supported kind (boolean, signed and unsigned
    integers, floats, strings, byte slices), [decodeTableKey] applied to the
    output of [encodeTableKey] gives the value back and leaves no byte; and
    of two values of one kind the smaller has the lexicographically smaller
    encoding, negative numbers before the others. *)
Theorem key_codec_round_trip_and_order :
  (forall v dest,
     key_kind (type_of v) = true -> wf_value v -> type_of dest = type_of v ->
     exists k v',
       encodeTableKey [] v = Ok k /\
       decodeTableKey k dest = Ok ([], v') /\ same_value v' v) /\
  (forall v1 v2,
     wf_value v1 -> wf_value v2 -> value_lt v1 v2 ->
     exists k1 k2,
       encodeTableKey [] v1 = Ok k1 /\ encodeTableKey [] v2 = Ok k2 /\
       bytes_lt k1 k2).
Proof.
  split.
  - intros v dest Hkind Hwf Ht.
    destruct (encodeTableKey_key_kind v Hkind) as [k Hk].
    exists k, (decoded v). split; [done|]. split; [|apply decoded_same_value].
    rewrite <- (app_nil_r k) at 1. by apply decodeTableKey_encodeTableKey.
  - intros v1 v2 Hw1 Hw2 Hlt.
    assert (key_kind (type_of v1) = true /\ key_kind (type_of v2) = true) as [K1 K2]
      by (destruct v1, v2; simpl in Hlt; done).
    destruct (encodeTableKey_key_kind v1 K1) as [k1 Hk1].
    destruct (encodeTableKey_key_kind v2 K2) as [k2 Hk2].
    exists k1, k2. repeat split; try done. by apply (encodeTableKey_lt v1 v2).
Qed.

(** ** Primary keys: decoding what was encoded *)

Lemma copy_fields_cons j idx r r0 :
  copy_fields (j :: idx) r r0 =
  copy_fields idx r (match r !! j with Some fv => <[j:=decoded fv]> r0 | None => r0 end).
Proof. reflexivity. Qed.

Lemma copy_fields_length idx r r0 : length (copy_fields idx r r0) = length r0.
Proof.
  revert r0. induction idx as [|i idx IH]; intros r0; [reflexivity|].
  rewrite copy_fields_cons, IH. destruct (r !! i); [apply length_insert|done].
Qed.

Lemma copy_fields_lookup idx r r0 i :
  length r0 = length r ->
  copy_fields idx r r0 !! i =
  if bool_decide (i ∈ idx) then decoded <$> r !! i else r0 !! i.
Proof.
  revert r0. induction idx as [|j idx IH]; intros r0 Hlen.
  - rewrite bool_decide_eq_false_2; [done|]. apply not_elem_of_nil.
  - rewrite copy_fields_cons.
    destruct (r !! j) as [fv|] eqn:Hj.
    + rewrite IH by (by rewrite length_insert).
      destruct (decide (i ∈ idx)) as [Hi|Hi].
      * rewrite !bool_decide_eq_true_2; [done| |done]. by right.
      * rewrite (bool_decide_eq_false_2 (i ∈ idx)) by done.
        destruct (decide (i = j)) as [->|Hne].
        -- rewrite bool_decide_eq_true_2 by left.
           rewrite list_lookup_insert_eq, Hj; [done|].
           apply lookup_lt_Some in Hj. lia.
        -- rewrite list_lookup_insert_ne by done.
           rewrite bool_decide_eq_false_2; [done|].
           by intros [?|?]%elem_of_cons.
    + rewrite IH by done.
      destruct (decide (i ∈ idx)) as [Hi|Hi].
      * rewrite !bool_decide_eq_true_2; [done| |done]. by right.
      * rewrite (bool_decide_eq_false_2 (i ∈ idx)) by done.
        destruct (decide (i = j)) as [->|Hne].
        -- rewrite bool_decide_eq_true_2 by left. rewrite Hj. simpl.
           apply lookup_ge_None. apply lookup_ge_None in Hj. lia.
        -- rewrite bool_decide_eq_false_2; [done|].
           by intros [?|?]%elem_of_cons.
Qed.

Lemma copy_fields_copy_fields idx r r' r0 :
  length r0 = length r -> length r' = length r ->
  copy_fields idx r (copy_fields idx r' r0) = copy_fields idx r r0.
Proof.
  intros Hlen Hlen'. apply list_eq. intros i.
  rewrite (copy_fields_lookup idx r (copy_fields idx r' r0))
    by (rewrite copy_fields_length; lia).
  rewrite (copy_fields_lookup idx r r0) by done.
  destruct (bool_decide (i ∈ idx)) eqn:Hi; [done|].
  rewrite copy_fields_lookup by lia. by rewrite Hi.
Qed.

Lemma copy_fields_types idx r r0 :
  type_of <$> r0 = type_of <$> r ->
  type_of <$> copy_fields idx r r0 = type_of <$> r.
Proof.
  intros Ht.
  assert (length r0 = length r) as Hlen.
  { by rewrite <- (length_fmap type_of r0), Ht, length_fmap. }
  apply list_eq. intros i. rewrite !list_lookup_fmap, copy_fields_lookup by done.
  destruct (bool_decide (i ∈ idx)).
  - destruct (r !! i); simpl; [|done]. by rewrite decoded_type_of.
  - by rewrite <- !list_lookup_fmap, Ht.
Qed.

Lemma has_type_length st r : has_type st r -> length r = length (st_fields st).
Proof. intros [<- _]. by rewrite length_fmap. Qed.

(** The loop of [decodePrimaryKey] undoes the loop of [encodePrimaryKey]:
    from a key that continues with [rest] it fills the fields the columns
    name and returns [rest]. *)
Lemma decodePrimaryKey_loop_encode m st cols r r0 key pk rest :
  Forall wf_value r -> type_of <$> r0 = type_of <$> r ->
  encodePrimaryKey_loop m cols key (OStruct st r) = Ok pk ->
  exists suffix,
    pk = key ++ suffix /\
    decodePrimaryKey_loop m cols (suffix ++ rest) (OStruct st r0) =
      (OStruct st (copy_fields (col_indices m cols) r r0), Ok rest).
Proof.
  intros Hwf. revert r0 key.
  induction cols as [|col cols IH]; intros r0 key Ht; simpl.
  - intros [= <-]. exists []. by rewrite app_nil_r.
  - destruct (fields m !! col) as [f|] eqn:Hf; [|done]. simpl.
    destruct (r !! Index f) as [fv|] eqn:Hfv; simpl; [|done].
    rewrite encodeTableKey_app.
    destruct (encodeTableKey [] fv) as [k| |] eqn:Hk; simpl; [|done..].
    intros Hrest.
    assert (exists fv0, r0 !! Index f = Some fv0 /\ type_of fv0 = type_of fv)
      as (fv0 & Hfv0 & Ht0).
    { assert ((type_of <$> r0) !! Index f = Some (type_of fv)) as Hl
        by (by rewrite Ht, list_lookup_fmap, Hfv).
      rewrite list_lookup_fmap in Hl.
      destruct (r0 !! Index f) as [fv0|]; simplify_eq/=. eauto. }
    destruct (IH (<[Index f:=decoded fv]> r0) (key ++ k)) as (suffix & -> & Hdec).
    { apply list_eq. intros i. rewrite list_fmap_insert.
      destruct (decide (i = Index f)) as [->|Hne].
      - rewrite list_lookup_insert_eq
          by (rewrite length_fmap; by apply lookup_lt_Some in Hfv0).
        by rewrite list_lookup_fmap, Hfv, decoded_type_of.
      - by rewrite list_lookup_insert_ne, Ht. }
    { done. }
    exists (k ++ suffix). split; [by rewrite app_assoc|].
    rewrite Hfv0. simpl. rewrite <- app_assoc.
    rewrite (decodeTableKey_encodeTableKey fv fv0 k (suffix ++ rest)); try done.
    by eapply Forall_lookup_1.
Qed.

Lemma encodePrimaryKey_loop_ext m cols key r r' st :
  (forall i, i ∈ col_indices m cols -> r' !! i = decoded <$> r !! i) ->
  encodePrimaryKey_loop m cols key (OStruct st r') =
  encodePrimaryKey_loop m cols key (OStruct st r).
Proof.
  revert key. induction cols as [|col cols IH]; intros key Hi; simpl; [done|].
  destruct (fields m !! col) as [f|] eqn:Hf; [|done]. simpl.
  assert (r' !! Index f = decoded <$> r !! Index f) as ->.
  { apply Hi. unfold col_indices. simpl. rewrite Hf. simpl. left. }
  destruct (r !! Index f) as [fv|]; simpl; [|done].
  rewrite encodeTableKey_decoded.
  destruct (encodeTableKey key fv) as [key'| |]; simpl; [|done..].
  apply IH. intros i Hin. apply Hi. unfold col_indices in *. simpl.
  rewrite Hf. simpl. by right.
Qed.

(** The decoded record encodes to the key it was decoded from. *)
Lemma encodePrimaryKey_copy_fields m st r r0 :
  length r0 = length r ->
  encodePrimaryKey m (OStruct st (copy_fields (col_indices m (primaryKey m)) r r0)) =
  encodePrimaryKey m (OStruct st r).
Proof.
  intros Hlen. unfold encodePrimaryKey. apply encodePrimaryKey_loop_ext.
  intros i Hi. rewrite copy_fields_lookup by done.
  by rewrite bool_decide_eq_true_2.
Qed.

(** [decodePrimaryKey] reads back the key [encodePrimaryKey] built, from any
    key that starts with it, and returns what follows. *)
Lemma decodePrimaryKey_encodePrimaryKey m st r r0 pk rest :
  Forall wf_value r -> type_of <$> r0 = type_of <$> r ->
  encodePrimaryKey m (OStruct st r) = Ok pk ->
  decodePrimaryKey m (pk ++ rest) (OStruct st r0) =
    (OStruct st (copy_fields (col_indices m (primaryKey m)) r r0), Ok rest).
Proof.
  intros Hwf Ht Hpk. unfold encodePrimaryKey in Hpk.
  destruct (decodePrimaryKey_loop_encode m st _ r r0 _ pk rest Hwf Ht Hpk)
    as (suffix & -> & Hdec).
  unfold decodePrimaryKey. rewrite <- app_assoc, DecodeBytes_Encode.
  rewrite String.string_of_list_byte_of_string.
  by rewrite bool_decide_eq_true_2.
Qed.

(** No encoded primary key is the front of a key built on another one. *)
Lemma encodePrimaryKey_prefix_free m st r r' pk pk' c c' :
  has_type st r -> has_type st r' ->
  encodePrimaryKey m (OStruct st r) = Ok pk ->
  encodePrimaryKey m (OStruct st r') = Ok pk' ->
  pk ++ c = pk' ++ c' -> pk = pk' /\ c = c'.
Proof.
  intros [Ht Hwf] [Ht' Hwf'] Hpk Hpk' E.
  pose proof (decodePrimaryKey_encodePrimaryKey m st r r pk c Hwf eq_refl Hpk) as D.
  pose proof (decodePrimaryKey_encodePrimaryKey m st r' r pk' c' Hwf'
                ltac:(congruence) Hpk') as D'.
  rewrite E, D' in D. injection D as _ ->. split; [|done].
  by apply app_inv_tail in E.
Qed.

(** ** Scan reconstruction *)

Lemma encodePrimaryKey_loop_layout m st r cols ks key :
  Forall2 (fun col k => exists f fv,
             fields m !! col = Some f /\ r !! Index f = Some fv /\
             encodeTableKey [] fv = Ok k) cols ks ->
  encodePrimaryKey_loop m cols key (OStruct st r) = Ok (key ++ mjoin ks).
Proof.
  intros Hall. revert key.
  induction Hall as [|col k cols ks (f & fv & Hf & Hfv & Hk) _ IH]; intros key; simpl.
  - by rewrite app_nil_r.
  - rewrite Hf, Hfv. simpl. rewrite encodeTableKey_app, Hk. simpl.
    by rewrite IH, <- app_assoc.
Qed.

(** C7. [decodePrimaryKey] decodes the table name first. When the name the
    key starts with is not the model's, the result is the "unexpected table
    name" error and the object is returned as it was given: no primary-key
    field was decoded into it. When it is the model's name and the key
    elements of the primary-key columns follow it in the bound order, each
    column's field receives the value of its element, the other fields keep
    their values, and the bytes after the last element are returned. *)
Theorem decodePrimaryKey_checks_table_name m :
  (forall key v key' name',
     DecodeBytes key = Some (key', name') ->
     String.string_of_list_byte name' <> name m ->
     decodePrimaryKey m key v = (v, Err (EUnexpectedTableName (name m) name'))) /\
  (forall st r r0 ks rest,
     has_type st r -> type_of <$> r0 = st_fields st ->
     Forall2 (fun col k => exists f fv,
                fields m !! col = Some f /\ r !! Index f = Some fv /\
                encodeTableKey [] fv = Ok k) (primaryKey m) ks ->
     exists r1,
       decodePrimaryKey m
         (EncodeBytes [] (String.list_byte_of_string (name m)) ++ mjoin ks ++ rest)
         (OStruct st r0) = (OStruct st r1, Ok rest) /\
       (forall col f,
          col ∈ primaryKey m -> fields m !! col = Some f ->
          r1 !! Index f = decoded <$> r !! Index f) /\
       (forall i, i ∉ col_indices m (primaryKey m) -> r1 !! i = r0 !! i)).
Proof.
  split.
  - intros key v key' name' Hname Hne. unfold decodePrimaryKey.
    by rewrite Hname, bool_decide_eq_false_2.
  - intros st r r0 ks rest [Ht Hwf] Ht0 Hks.
    assert (length r0 = length r) as Hlen.
    { rewrite <- (length_fmap type_of r0), Ht0, <- Ht. apply length_fmap. }
    exists (copy_fields (col_indices m (primaryKey m)) r r0). split; [|split].
    + rewrite app_assoc. apply decodePrimaryKey_encodePrimaryKey; [done|congruence|].
      unfold encodePrimaryKey. by apply encodePrimaryKey_loop_layout.
    + intros col f Hcol Hf. rewrite copy_fields_lookup by done.
      rewrite bool_decide_eq_true_2; [done|].
      unfold col_indices. apply list_elem_of_omap. exists col. by rewrite Hf.
    + intros i Hi. rewrite copy_fields_lookup by done.
      by rewrite bool_decide_eq_false_2.
Qed.

Lemma type_of_zero t : type_of (zero t) = t.
Proof. by destruct t. Qed.

Lemma type_of_zeros (ts : list rtype) : type_of <$> (zero <$> ts) = ts.
Proof.
  induction ts as [|t ts IH]; [done|]. by rewrite !fmap_cons, IH, type_of_zero.
Qed.

Lemma HasPrefix_encoded m st r r' pk pk' col :
  has_type st r -> has_type st r' ->
  encodePrimaryKey m (OStruct st r) = Ok pk ->
  encodePrimaryKey m (OStruct st r') = Ok pk' ->
  HasPrefix (pk ++ col) pk' = bool_decide (pk' = pk).
Proof.
  intros Hr Hr' Hpk Hpk'. destruct (decide (pk' = pk)) as [->|Hne].
  - by rewrite HasPrefix_app, bool_decide_eq_true_2.
  - rewrite bool_decide_eq_false_2 by done. apply not_true_is_false.
    intros [t Ht]%HasPrefix_spec.
    by destruct (encodePrimaryKey_prefix_free m st r r' pk pk' col t Hr Hr' Hpk Hpk' Ht).
Qed.

(** One iteration of the loop, on a row whose key is built on an encoded
    primary key: when the key leaves the current run, the current record is
    appended and a zero record takes its place; the primary key is decoded
    into the record; the value is assigned. *)
Lemma scan_row_encoded m st ptrResults scanCols cur rec sl row pk col r :
  type_of <$> rec = st_fields st ->
  (forall c, cur = Some c -> exists rc, has_type st rc /\
                                  encodePrimaryKey m (OStruct st rc) = Ok c) ->
  has_type st r -> encodePrimaryKey m (OStruct st r) = Ok pk ->
  Key row = pk ++ col ->
  let crossed := match cur with Some c => negb (bool_decide (c = pk)) | None => false end in
  scan_row m (GStruct st) ptrResults scanCols
    {| sc_primaryKey := cur; sc_result := OStruct st rec; sc_sliceV := sl |} row =
  let! rec2 := assign_column m scanCols row col
                 (copy_fields (col_indices m (primaryKey m)) r
                    (if crossed then zero <$> st_fields st else rec)) in
  Ok {| sc_primaryKey := Some pk; sc_result := OStruct st rec2;
        sc_sliceV := if crossed then sl ++ [scan_element ptrResults (OStruct st rec)]
                     else sl |}.
Proof.
  intros Ht Hcur Hr Hpk Hkey crossed.
  pose proof Hr as [Htr Hwf].
  assert (take (length (pk ++ col) - length col) (pk ++ col) = pk) as Htake.
  { rewrite length_app. replace (length pk + length col - length col)%nat
      with (length pk) by lia. by rewrite take_app_length. }
  unfold scan_row. cbn [sc_primaryKey sc_result sc_sliceV]. rewrite Hkey.
  destruct cur as [c|]; subst crossed.
  - destruct (Hcur c eq_refl) as (rc & Hrc & Hc).
    rewrite (HasPrefix_encoded m st r rc pk c col Hr Hrc Hpk Hc).
    destruct (bool_decide (c = pk)); cbn [negb obind sc_result sc_sliceV].
    + rewrite (decodePrimaryKey_encodePrimaryKey m st r rec pk col Hwf)
        by congruence.
      cbn [obind]. rewrite Htake. unfold assign_column.
      destruct (filtered_out _ _); [done|].
      destruct (fields m !! _) as [f|]; [|done]. cbn [FieldByIndex].
      destruct (of_option _) as [fv| |]; cbn [obind]; [|done..].
      by destruct (unmarshalTableValue _ _).
    + destruct Hrc as [Htrc Hwfrc]. cbn [zero_object slice_bytes default id].
      assert (type_of <$> (zero <$> st_fields st) = type_of <$> rc) as Hz
        by (rewrite type_of_zeros; congruence).
      rewrite <- (app_nil_r c) at 1.
      rewrite (decodePrimaryKey_encodePrimaryKey m st rc _ c [] Hwfrc Hz Hc).
      cbn [obind sc_result sc_sliceV].
      assert (type_of <$> copy_fields (col_indices m (primaryKey m)) rc
                (zero <$> st_fields st) = type_of <$> r) as Hz'
        by (rewrite copy_fields_types; congruence).
      rewrite (decodePrimaryKey_encodePrimaryKey m st r _ pk col Hwf Hz' Hpk).
      cbn [obind]. rewrite Htake.
      rewrite copy_fields_copy_fields.
      2:{ rewrite length_fmap, <- Htr. by rewrite length_fmap. }
      2:{ rewrite <- (length_fmap type_of rc), Htrc, <- Htr. by rewrite length_fmap. }
      unfold assign_column.
      destruct (filtered_out _ _); [done|].
      destruct (fields m !! _) as [f|]; [|done]. cbn [FieldByIndex].
      destruct (of_option _) as [fv| |]; cbn [obind]; [|done..].
      by destruct (unmarshalTableValue _ _).
  - cbn [obind sc_result sc_sliceV].
    rewrite (decodePrimaryKey_encodePrimaryKey m st r rec pk col Hwf)
      by congruence.
    cbn [obind]. rewrite Htake. unfold assign_column.
    destruct (filtered_out _ _); [done|].
    destruct (fields m !! _) as [f|]; [|done]. cbn [FieldByIndex].
    destruct (of_option _) as [fv| |]; cbn [obind]; [|done..].
    by destruct (unmarshalTableValue _ _).
Qed.

Lemma unmarshalTableValue_type src dest v :
  unmarshalTableValue src dest = Ok v -> type_of v = type_of dest.
Proof.
  destruct src as [src|]; simpl.
  - destruct dest as [| | |[]| | | |[]| | |]; simpl;
      repeat case_match; intros [= <-]; reflexivity.
  - intros [= <-]. apply type_of_zero.
Qed.

Lemma assign_column_cases m scanCols row col rec rec2 :
  assign_column m scanCols row col rec = Ok rec2 ->
  type_of <$> rec2 = type_of <$> rec /\
  (rec2 = rec \/ exists i fv, rec2 = <[i:=fv]> rec).
Proof.
  unfold assign_column. destruct (filtered_out _ _); [intros [= <-]; auto|].
  destruct (fields m !! _) as [f|]; [|done].
  destruct (rec !! Index f) as [fv|] eqn:Hfv; cbn [of_option obind]; [|done].
  destruct (unmarshalTableValue _ fv) as [fv'| |] eqn:Hu; cbn [obind]; [|done..].
  intros [= <-]. split; [|eauto].
  rewrite list_fmap_insert. apply list_insert_id.
  rewrite list_lookup_fmap, Hfv. simpl. f_equal.
  symmetry. by eapply unmarshalTableValue_type.
Qed.

Lemma decoded_decoded v : decoded (decoded v) = decoded v.
Proof. destruct v; try done. unfold decoded. by rewrite slice_bytes_go_append. Qed.

Lemma copy_fields_twice idx r z rec :
  length z = length r -> length rec = length r ->
  copy_fields idx (copy_fields idx r z) rec = copy_fields idx r rec.
Proof.
  intros Hz Hrec. apply list_eq. intros i.
  rewrite !copy_fields_lookup by (by rewrite ?copy_fields_length; congruence).
  case_bool_decide; [|done].
  destruct (r !! i) as [fv|]; simpl; [|done]. by rewrite decoded_decoded.
Qed.

Lemma key_record_encoded m st r q :
  has_type st r -> encodePrimaryKey m (OStruct st r) = Ok q ->
  key_record m st q = pk_only m st r.
Proof.
  intros [Ht Hwf] Hq. unfold key_record.
  pose proof (decodePrimaryKey_encodePrimaryKey m st r (zero <$> st_fields st) q []
                Hwf ltac:(by rewrite type_of_zeros) Hq) as Hd.
  rewrite app_nil_r in Hd. by rewrite Hd.
Qed.

Lemma copy_fields_key_record m st r q rec :
  has_type st r -> encodePrimaryKey m (OStruct st r) = Ok q ->
  length rec = length (st_fields st) ->
  copy_fields (col_indices m (primaryKey m)) (key_record m st q) rec =
  copy_fields (col_indices m (primaryKey m)) r rec.
Proof.
  intros Hr Hq Hlen. rewrite (key_record_encoded m st r q Hr Hq). unfold pk_only.
  pose proof (has_type_length st r Hr) as Hlr.
  apply copy_fields_twice; [rewrite length_fmap|]; congruence.
Qed.

Lemma rebuild_snoc m scanCols st q run cr :
  rebuild m scanCols st q (run ++ [cr]) =
  let! rec := rebuild m scanCols st q run in
  assign_column m scanCols cr.2 cr.1
    (copy_fields (col_indices m (primaryKey m)) (key_record m st q) rec).
Proof. unfold rebuild. by rewrite foldl_app. Qed.

(** The loop appends one record per run of rows with the same primary key:
    the record rebuilt from the rows of the run. *)
Lemma scan_rows_rebuild m st ptrResults scanCols rows src cur acc rec sl st' :
  rows_of_keys m st rows src ->
  type_of <$> rec = st_fields st ->
  (exists rc, has_type st rc /\ encodePrimaryKey m (OStruct st rc) = Ok cur) ->
  rebuild m scanCols st cur acc = Ok rec ->
  scan_rows m (GStruct st) ptrResults scanCols
    {| sc_primaryKey := Some cur; sc_result := OStruct st rec; sc_sliceV := sl |}
    rows = Ok st' ->
  exists recs,
    sc_sliceV st' ++ [scan_element ptrResults (sc_result st')] =
      sl ++ (scan_element ptrResults <$> (OStruct st <$> recs)) /\
    Forall2 (fun run rec => rebuild m scanCols st run.1 run.2 = Ok rec)
      (group_rows_from cur acc (keyed src rows)) recs.
Proof.
  intros Hrows. revert cur acc rec sl.
  induction Hrows as [|row [pk col] rows src (r & Hr & Hpk & Hkey) Hrows IH];
    intros cur acc rec sl Ht Hcur Hrec; cbn [scan_rows].
  - intros [= <-]. exists [rec]. split; [done|]. repeat constructor. done.
  - simpl in Hpk, Hkey.
    rewrite (scan_row_encoded m st ptrResults scanCols (Some cur) rec sl row pk col r)
      by (try done; by intros c [= <-]).
    assert (length r = length (st_fields st)) as Hlr by (by apply has_type_length).
    assert (length rec = length (st_fields st)) as Hlrec
      by (by rewrite <- Ht, length_fmap).
    change (keyed ((pk, col) :: src) (row :: rows))
      with ((pk, (col, row)) :: keyed src rows).
    cbn [group_rows_from].
    destruct (decide (cur = pk)) as [->|Hne].
    + rewrite !bool_decide_eq_true_2 by done. cbn [negb].
      destruct (assign_column _ _ _ _ _) as [rec2| |] eqn:Ha; cbn [obind]; [|done..].
      pose proof Ha as [Ht2 _]%assign_column_cases.
      intros Hloop. apply IH with (acc := acc ++ [(col, row)]) in Hloop; [done| | |].
      * rewrite Ht2, copy_fields_types; [by destruct Hr|]. destruct Hr. congruence.
      * eauto.
      * rewrite rebuild_snoc, Hrec. cbn [obind fst snd].
        by rewrite (copy_fields_key_record m st r pk rec).
    + rewrite !bool_decide_eq_false_2 by done. cbn [negb].
      destruct (assign_column _ _ _ _ _) as [rec2| |] eqn:Ha; cbn [obind]; [|done..].
      pose proof Ha as [Ht2 _]%assign_column_cases.
      intros Hloop. apply IH with (acc := [(col, row)]) in Hloop as (recs & Hsl & Hrecs).
      * exists (rec :: recs). split.
        -- rewrite Hsl, <- app_assoc. done.
        -- by constructor.
      * rewrite Ht2, copy_fields_types; [by destruct Hr|].
        rewrite type_of_zeros. by destruct Hr.
      * eauto.
      * unfold rebuild. cbn [foldl obind fst snd].
        by rewrite (copy_fields_key_record m st r pk (zero <$> st_fields st))
          by (try done; by rewrite length_fmap).
Qed.

Lemma group_rows_from_keys cur acc src rows :
  length src = length rows ->
  (group_rows_from cur acc (keyed src rows)).*1 = group cur src.*1.
Proof.
  revert cur acc rows. induction src as [|[pk col] src IH]; intros cur acc [|row rows] Hlen;
    try done.
  change (keyed ((pk, col) :: src) (row :: rows)) with ((pk, (col, row)) :: keyed src rows).
  cbn [group_rows_from fmap list_fmap fst group].
  change (list_fmap _ _ fst src) with (src.*1).
  case_bool_decide.
  - apply IH. by injection Hlen.
  - rewrite fmap_cons. simpl. f_equal. apply IH. by injection Hlen.
Qed.

Lemma group_rows_keys src rows :
  length src = length rows -> (group_rows (keyed src rows)).*1 = dedup_adjacent src.*1.
Proof.
  destruct src as [|[pk col] src], rows as [|row rows]; try done. intros [= Hlen].
  by apply group_rows_from_keys.
Qed.

Lemma group_rows_from_rows cur acc l :
  mjoin (group_rows_from cur acc l).*2 = acc ++ l.*2.
Proof.
  revert cur acc. induction l as [|[pk cr] l IH]; intros cur acc; cbn [group_rows_from].
  - simpl. by rewrite !app_nil_r.
  - case_bool_decide.
    + rewrite IH, fmap_cons, <- app_assoc. done.
    + rewrite fmap_cons. cbn [snd mjoin list_join]. rewrite IH. by rewrite fmap_cons.
Qed.

Lemma group_rows_from_Forall (P : bytes -> bytes * KeyValue -> Prop) cur acc l :
  Forall (P cur) acc -> Forall (fun x => P x.1 x.2) l ->
  Forall (fun run => Forall (P run.1) run.2) (group_rows_from cur acc l).
Proof.
  revert cur acc. induction l as [|[pk cr] l IH]; intros cur acc Hacc Hl;
    cbn [group_rows_from].
  - by constructor.
  - apply Forall_cons in Hl as [Hx Hl]. simpl in Hx. case_bool_decide as Hc.
    + subst. apply IH; [|done]. apply Forall_app. split; [done|]. by constructor.
    + constructor; [done|]. apply IH; [|done]. by constructor.
Qed.


(** *** Runs of a sorted reply *)

Lemma elem_of_group q cur pks : q ∈ group cur pks <-> q = cur \/ q ∈ pks.
Proof.
  revert cur. induction pks as [|pk pks IH]; intros cur; simpl.
  - rewrite list_elem_of_singleton, elem_of_nil. tauto.
  - case_bool_decide as E.
    + subst. rewrite IH, elem_of_cons. tauto.
    + rewrite elem_of_cons, IH, elem_of_cons. tauto.
Qed.

Lemma elem_of_dedup_adjacent q pks : q ∈ dedup_adjacent pks <-> q ∈ pks.
Proof.
  destruct pks as [|pk pks]; simpl; [done|]. rewrite elem_of_group, elem_of_cons. tauto.
Qed.

Lemma group_sorted cur pks :
  StronglySorted bytes_le (cur :: pks) -> StronglySorted bytes_lt (group cur pks).
Proof.
  revert cur. induction pks as [|pk pks IH]; intros cur Hs; simpl.
  - repeat constructor.
  - apply StronglySorted_inv in Hs as [Hs Hcur].
    apply Forall_cons in Hcur as [Hpk Hcur].
    case_bool_decide as E.
    + subst. by apply IH.
    + constructor; [by apply IH|].
      apply bytes_le_cases in Hpk as [?|Hlt]; [done|].
      apply Forall_forall. intros q [->|Hq]%elem_of_group; [done|].
      apply StronglySorted_inv in Hs as [_ Hall].
      rewrite Forall_forall in Hall. specialize (Hall q Hq).
      apply bytes_le_cases in Hall as [<-|Hlt']; [done|].
      by eapply bytes_ltb_trans.
Qed.

Lemma dedup_adjacent_sorted pks :
  StronglySorted bytes_le pks -> StronglySorted bytes_lt (dedup_adjacent pks).
Proof.
  destruct pks as [|pk pks]; simpl; [constructor|apply group_sorted].
Qed.

(** Keys in ascending order have their primary keys in ascending order. *)
Lemma row_of_key_le m st row1 pk1 col1 row2 pk2 col2 :
  row_of_key m st row1 pk1 col1 -> row_of_key m st row2 pk2 col2 ->
  bytes_le (Key row1) (Key row2) -> bytes_le pk1 pk2.
Proof.
  intros (r1 & Hr1 & Hpk1 & ->) (r2 & Hr2 & Hpk2 & ->) Hle.
  destruct (bytes_ltb pk2 pk1) eqn:Hlt; [|done].
  unfold bytes_le in Hle. rewrite bytes_ltb_app in Hle; [done..|].
  intros t Ht.
  destruct (encodePrimaryKey_prefix_free m st r1 r2 pk1 pk2 [] t Hr1 Hr2 Hpk1 Hpk2)
    as [-> _]; [by rewrite app_nil_r|].
  by rewrite bytes_ltb_irrefl in Hlt.
Qed.

Lemma rows_of_keys_sorted m st rows src :
  rows_of_keys m st rows src -> keys_ascending rows ->
  StronglySorted bytes_le src.*1.
Proof.
  intros Hrows Hs.
  apply Sorted_StronglySorted in Hs; [|intros a b c; apply bytes_le_trans].
  induction Hrows as [|row [pk col] rows src Hrow Hrows IH]; simpl; [constructor|].
  apply StronglySorted_inv in Hs as [Hs Hall].
  constructor; [by apply IH|].
  clear IH Hs. induction Hrows as [|row' [pk' col'] rows src Hrow' Hrows IH];
    simpl; [constructor|].
  apply Forall_cons in Hall as [Hle Hall].
  constructor; [|by apply IH].
  by eapply row_of_key_le.
Qed.

(** *** The filter of a scan *)



Lemma rebuild_length m scanCols st q run rec :
  rebuild m scanCols st q run = Ok rec -> length rec = length (st_fields st).
Proof.
  revert rec. induction run as [|cr run IH] using rev_ind; intros rec.
  - intros [= <-]. by rewrite length_fmap.
  - rewrite rebuild_snoc.
    destruct (rebuild m scanCols st q run) as [rec'| |]; cbn [obind]; [|done..].
    intros [Ht _]%assign_column_cases.
    apply (f_equal length) in Ht. rewrite !length_fmap, copy_fields_length in Ht.
    rewrite Ht. by apply IH.
Qed.

(** A record rebuilt from a run whose last row does not assign a
    primary-key field holds the values of the key in its primary-key
    fields. *)
Lemma rebuild_encodes m scanCols st r q run cr rec :
  has_type st r -> encodePrimaryKey m (OStruct st r) = Ok q ->
  rebuild m scanCols st q (run ++ [cr]) = Ok rec ->
  (filtered_out scanCols (String.string_of_list_byte cr.1) = true \/
   forall f, fields m !! String.string_of_list_byte cr.1 = Some f ->
             Index f ∉ col_indices m (primaryKey m)) ->
  encodePrimaryKey m (OStruct st rec) = Ok q.
Proof.
  intros Hr Hq. rewrite rebuild_snoc.
  destruct (rebuild m scanCols st q run) as [rec'| |] eqn:Hrun; cbn [obind]; [|done..].
  apply rebuild_length in Hrun.
  rewrite (copy_fields_key_record m st r q rec' Hr Hq Hrun).
  pose proof (has_type_length st r Hr) as Hlr.
  set (base := copy_fields (col_indices m (primaryKey m)) r rec').
  assert (encodePrimaryKey m (OStruct st base) = Ok q) as Hbase.
  { unfold base. rewrite encodePrimaryKey_copy_fields by congruence. exact Hq. }
  unfold assign_column.
  destruct (filtered_out scanCols _) eqn:Hfilt; [by intros [= <-]|].
  intros Ha [Hf|Hpk]; [done|].
  destruct (fields m !! _) as [f|] eqn:Hfield; [|done].
  destruct (of_option (base !! Index f)) as [fv| |]; cbn [obind] in Ha; [|done..].
  destruct (unmarshalTableValue _ fv) as [fv'| |]; cbn [obind] in Ha; [|done..].
  injection Ha as <-. rewrite <- Hq. unfold encodePrimaryKey.
  apply encodePrimaryKey_loop_ext. intros i Hi.
  rewrite list_lookup_insert_ne by (intros <-; by apply (Hpk f)).
  unfold base. rewrite copy_fields_lookup by congruence.
  by rewrite bool_decide_eq_true_2.
Qed.

(** C1, as the code has it. For a reply whose rows are sorted ascending by
    key, each key an encoded primary key followed by a raw column name: when
    the post-processing step of [ScanStruct] returns no error, the slice it
    stores is the destination slice as the step found it followed by one
    record per run of rows with the same primary key, each record rebuilt
    from the key and the rows of its run.  The runs are the rows of the
    reply in their order, every row in the run of its primary key; the keys
    of the runs ascend strictly, so there is one run for each distinct
    primary key of the reply.  The values a key gives to the primary-key
    fields are those of the records that encode to it, and a record whose
    last row does not assign a primary-key field encodes to the key of its
    run.  When the reply has no rows the destination is left as it is. *)
Theorem scan_post_groups_by_primary_key
    m st ptrResults columns elem sliceV rows src dest' :
  rows_of_keys m st rows src ->
  keys_ascending rows ->
  scan_step m (GStruct st) ptrResults columns (ScanResponse rows) (OSlice elem sliceV)
    = Ok dest' ->
  let runs := group_rows (keyed src rows) in
  let scanCols := make_scanCols columns in
  (rows = [] -> dest' = OSlice elem sliceV) /\
  (rows <> [] ->
   exists recs,
     dest' = OSlice elem (sliceV ++ (scan_element ptrResults <$> (OStruct st <$> recs))) /\
     Forall2 (fun run rec => rebuild m scanCols st run.1 run.2 = Ok rec) runs recs) /\
  mjoin runs.*2 = (keyed src rows).*2 /\
  Forall (fun run => Forall (fun cr => Key cr.2 = run.1 ++ cr.1) run.2) runs /\
  StronglySorted bytes_lt runs.*1 /\
  (forall q, q ∈ runs.*1 <-> q ∈ src.*1) /\
  (forall q, q ∈ runs.*1 ->
     exists r, has_type st r /\ encodePrimaryKey m (OStruct st r) = Ok q /\
               key_record m st q = pk_only m st r) /\
  (forall q run cr rec,
     (q, run ++ [cr]) ∈ runs ->
     rebuild m scanCols st q (run ++ [cr]) = Ok rec ->
     (filtered_out scanCols (String.string_of_list_byte cr.1) = true \/
      forall f, fields m !! String.string_of_list_byte cr.1 = Some f ->
                Index f ∉ col_indices m (primaryKey m)) ->
     encodePrimaryKey m (OStruct st rec) = Ok q).
Proof.
  intros Hrows Hsorted Hpost runs scanCols.
  pose proof (Forall2_length _ _ _ Hrows) as Hlen. symmetry in Hlen.
  assert (runs.*1 = dedup_adjacent src.*1) as Hkeys by (by apply group_rows_keys).
  assert (forall q, q ∈ runs.*1 <-> q ∈ src.*1) as Hmem.
  { intros q. rewrite Hkeys. apply elem_of_dedup_adjacent. }
  assert (forall q, q ∈ runs.*1 ->
            exists r, has_type st r /\ encodePrimaryKey m (OStruct st r) = Ok q) as Hrec.
  { intros q Hq%Hmem. apply list_elem_of_fmap in Hq as ([q' col] & -> & Hq).
    apply list_elem_of_lookup in Hq as [i Hi].
    destruct (Forall2_lookup_r _ _ _ _ _ Hrows Hi) as (row & _ & r & Hr & Hpk & _).
    by exists r. }
  unfold scan_step in Hpost.
  split; [|split; [|split; [|split; [|split; [|split; [|split]]]]]].
  - intros ->. unfold scan_post in Hpost. simpl in Hpost. by injection Hpost.
  - intros Hne. unfold scan_post in Hpost. subst runs.
    destruct Hrows as [|row [pk col] rows src (r & Hr & Hpk & Hkey) Hrows]; [done|].
    rewrite bool_decide_eq_false_2 in Hpost by done.
    cbn [scan_rows zero_object] in Hpost. simpl in Hpk, Hkey.
    rewrite (scan_row_encoded m st ptrResults _ None _ sliceV row pk col r)
      in Hpost by (try done; apply type_of_zeros).
    destruct (assign_column _ _ _ _ _) as [rec2| |] eqn:Ha;
      cbn [obind] in Hpost; [|done..].
    pose proof Ha as [Ht2 _]%assign_column_cases.
    destruct (scan_rows _ _ _ _ _ rows) as [st'| |] eqn:Hloop;
      cbn [obind] in Hpost; [|done..].
    injection Hpost as <-.
    assert (length r = length (st_fields st)) as Hlr by (by apply has_type_length).
    apply (scan_rows_rebuild m st ptrResults _ rows src pk [(col, row)] rec2 sliceV st'
             Hrows) in Hloop as (recs & -> & Hrecs).
    + by exists recs.
    + rewrite Ht2, copy_fields_types; [by destruct Hr|].
      rewrite type_of_zeros. by destruct Hr.
    + eauto.
    + unfold rebuild. cbn [foldl obind fst snd].
      by rewrite (copy_fields_key_record m st r pk (zero <$> st_fields st))
        by (try done; by rewrite length_fmap).
  - subst runs. destruct (keyed src rows) as [|[pk cr] l]; [done|].
    cbn [group_rows]. by rewrite group_rows_from_rows.
  - subst runs.
    assert (Forall (fun x : bytes * (bytes * KeyValue) => Key x.2.2 = x.1 ++ x.2.1)
              (keyed src rows)) as Hall.
    { clear -Hrows. induction Hrows as [|row [pk col] rows src (r & _ & _ & Hkey) _ IH];
        [constructor|]. constructor; [exact Hkey|exact IH]. }
    destruct (keyed src rows) as [|[pk cr] l]; [constructor|].
    apply Forall_cons in Hall as [Hx Hl]. cbn [group_rows].
    apply (group_rows_from_Forall (fun q cr => Key cr.2 = q ++ cr.1)); [|done].
    by constructor.
  - rewrite Hkeys. apply (dedup_adjacent_sorted (src.*1)).
    by apply (rows_of_keys_sorted m st rows src).
  - exact Hmem.
  - intros q Hq. destruct (Hrec q Hq) as (r & Hr & Hpk).
    exists r. split; [done|]. split; [done|]. by apply key_record_encoded.
  - intros q run cr rec Hin Hreb Hlast.
    destruct (Hrec q) as (r & Hr & Hpk).
    { apply list_elem_of_fmap. by exists (q, run ++ [cr]). }
    by apply (rebuild_encodes m scanCols st r q run cr rec).
Qed.


End Codec.

End TableProperties.

(** ** The model of the encoding package keeps the promises *)

Module SpecEncodingLaws.

Lemma encoding_unfold :
  @EncodeBytes SpecEncoding.encoding = SpecEncoding.EncodeBytes /\
  @DecodeBytes SpecEncoding.encoding = SpecEncoding.DecodeBytes /\
  @EncodeVarint SpecEncoding.encoding = SpecEncoding.EncodeVarint /\
  @DecodeVarint SpecEncoding.encoding = SpecEncoding.DecodeVarint /\
  @EncodeUvarint SpecEncoding.encoding = SpecEncoding.EncodeUvarint /\
  @DecodeUvarint SpecEncoding.encoding = SpecEncoding.DecodeUvarint /\
  @EncodeNumericFloat SpecEncoding.encoding = SpecEncoding.EncodeNumericFloat /\
  @DecodeNumericFloat SpecEncoding.encoding = SpecEncoding.DecodeNumericFloat.
Proof. repeat split. Qed.

Import SpecEncoding.

Lemma eqb_x00 c : Byte.eqb c x00 = bool_decide (byte_val c = 0).
Proof.
  destruct (Byte.eqb c x00) eqn:E.
  - apply Byte.byte_dec_bl in E. subst. reflexivity.
  - symmetry. apply bool_decide_eq_false_2. intros Hc.
    assert (c = x00) as -> by (by apply byte_val_inj).
    discriminate.
Qed.

Lemma DecodeBytes_escape t rest :
  DecodeBytes (escape t ++ [x00; x01] ++ rest) = Some (rest, t).
Proof.
  induction t as [|c t IH]; [reflexivity|].
  cbn [escape]. destruct (Byte.eqb c x00) eqn:E.
  - apply Byte.byte_dec_bl in E. subst. cbn [app DecodeBytes Byte.eqb].
    change (Byte.eqb xff x01) with false. change (Byte.eqb xff xff) with true.
    change (Byte.eqb x00 x00) with true. cbv iota.
    change (escape t ++ x00 :: x01 :: rest) with (escape t ++ [x00; x01] ++ rest).
    by rewrite IH.
  - cbn [app DecodeBytes]. rewrite E.
    change (escape t ++ x00 :: x01 :: rest) with (escape t ++ [x00; x01] ++ rest).
    by rewrite IH.
Qed.

Lemma escape_lt t1 t2 :
  bytes_ltb t1 t2 = true ->
  bytes_ltb (escape t1 ++ [x00; x01]) (escape t2 ++ [x00; x01]) = true.
Proof.
  revert t2. induction t1 as [|c t1 IH]; intros [|d t2] Hlt; try done.
  - cbn [escape]. rewrite eqb_x00. case_bool_decide as Hd.
    + reflexivity.
    + apply bytes_ltb_cons. left. pose proof (byte_val_range d).
      change (byte_val x00) with 0. lia.
  - apply bytes_ltb_cons in Hlt as [Hlt|[-> Hlt]].
    + cbn [escape]. rewrite !eqb_x00.
      pose proof (byte_val_range c). pose proof (byte_val_range d).
      repeat case_bool_decide; try lia.
      * apply bytes_ltb_cons. left. change (byte_val x00) with 0. lia.
      * apply bytes_ltb_cons. by left.
    + cbn [escape]. destruct (Byte.eqb d x00).
      * change (bytes_ltb ([x00; xff] ++ (escape t1 ++ [x00; x01]))
                  ([x00; xff] ++ (escape t2 ++ [x00; x01])) = true).
        rewrite bytes_ltb_app_l. by apply IH.
      * apply bytes_ltb_cons. right. split; [done|]. by apply IH.
Qed.

Lemma be_bytes_length k n : length (be_bytes k n) = k.
Proof.
  revert n. induction k as [|k IH]; intros n; simpl; [done|].
  rewrite length_app, IH. simpl. lia.
Qed.

Lemma be_value_snoc l b : be_value (l ++ [b]) = be_value l * 256 + byte_val b.
Proof. unfold be_value. by rewrite foldl_app. Qed.

Lemma be_value_be_bytes k n : be_value (be_bytes k n) = n mod 256 ^ Z.of_nat k.
Proof.
  revert n. induction k as [|k IH]; intros n.
  - simpl. by rewrite Z.mod_1_r.
  - cbn [be_bytes]. rewrite be_value_snoc, IH, byte_val_of_Z.
    rewrite Nat2Z.inj_succ, Z.pow_succ_r by lia.
    rewrite (Z.rem_mul_r n 256 (256 ^ Z.of_nat k)) by lia. lia.
Qed.

Lemma be_value_foldl acc l :
  foldl (fun acc b => acc * 256 + byte_val b) acc l =
  acc * 256 ^ Z.of_nat (length l) + be_value l.
Proof.
  unfold be_value. revert acc. induction l as [|x l IH]; intros acc.
  - simpl. lia.
  - cbn [foldl length]. rewrite IH, (IH (0 * 256 + byte_val x)).
    rewrite Nat2Z.inj_succ, Z.pow_succ_r by lia. lia.
Qed.

Lemma be_value_cons x l :
  be_value (x :: l) = byte_val x * 256 ^ Z.of_nat (length l) + be_value l.
Proof.
  unfold be_value at 1. cbn [foldl]. rewrite be_value_foldl. lia.
Qed.

Lemma be_value_range l : 0 <= be_value l < 256 ^ Z.of_nat (length l).
Proof.
  induction l as [|x l IH].
  - unfold be_value. simpl. lia.
  - rewrite be_value_cons. cbn [length].
    rewrite Nat2Z.inj_succ, Z.pow_succ_r by lia.
    pose proof (byte_val_range x). nia.
Qed.

Lemma be_value_lt l1 l2 :
  length l1 = length l2 -> be_value l1 < be_value l2 -> bytes_ltb l1 l2 = true.
Proof.
  revert l2. induction l1 as [|x l1 IH]; intros [|y l2] Hlen; try done.
  injection Hlen as Hlen. rewrite !be_value_cons, Hlen. intros Hlt.
  pose proof (be_value_range l1) as R1. pose proof (be_value_range l2) as R2.
  rewrite Hlen in R1.
  apply bytes_ltb_cons.
  destruct (Z.lt_trichotomy (byte_val x) (byte_val y)) as [?|[E|?]].
  - by left.
  - right. split; [by apply byte_val_inj|]. apply IH; [done|]. rewrite E in Hlt. lia.
  - exfalso. nia.
Qed.

Lemma be_bytes_lt k n1 n2 :
  0 <= n1 < n2 -> n2 < 256 ^ Z.of_nat k ->
  bytes_ltb (be_bytes k n1) (be_bytes k n2) = true.
Proof.
  intros H1 H2. apply be_value_lt.
  - by rewrite !be_bytes_length.
  - rewrite !be_value_be_bytes, !Z.mod_small by lia. lia.
Qed.

Lemma byte_len_le fuel v : (byte_len fuel v <= fuel)%nat.
Proof.
  revert v. induction fuel as [|fuel IH]; intros v; simpl; [done|].
  destruct (v <=? 0); [lia|]. specialize (IH (v / 256)). lia.
Qed.

Lemma byte_len_bound fuel v :
  0 <= v < 256 ^ Z.of_nat fuel -> v < 256 ^ Z.of_nat (byte_len fuel v).
Proof.
  revert v. induction fuel as [|fuel IH]; intros v Hv.
  - simpl in *. lia.
  - cbn [byte_len]. destruct (Z.leb_spec v 0); [simpl; lia|].
    rewrite Nat2Z.inj_succ, Z.pow_succ_r in * by lia.
    pose proof (Z.div_mod v 256 ltac:(lia)) as Hd.
    pose proof (Z.mod_pos_bound v 256 ltac:(lia)) as Hm.
    assert (0 <= v / 256 < 256 ^ Z.of_nat fuel) as Hq by lia.
    specialize (IH _ Hq). lia.
Qed.

Lemma byte_len_mono fuel v1 v2 :
  v1 <= v2 -> (byte_len fuel v1 <= byte_len fuel v2)%nat.
Proof.
  revert v1 v2. induction fuel as [|fuel IH]; intros v1 v2 Hle; simpl; [done|].
  destruct (Z.leb_spec v1 0); [lia|].
  destruct (Z.leb_spec v2 0); [lia|].
  apply le_n_S, IH. apply Z.div_le_mono; lia.
Qed.

Lemma byte_len_pos fuel v : 0 < v -> (1 <= byte_len (S fuel) v)%nat.
Proof. intros Hv. cbn [byte_len]. destruct (Z.leb_spec v 0); lia. Qed.

Lemma byte_val_tag n : (n <= 16)%nat -> byte_val (byte_of_Z (Z.of_nat n)) = Z.of_nat n.
Proof. intros Hn. rewrite byte_val_of_Z. apply Z.mod_small. lia. Qed.

Lemma DecodeUvarint_EncodeUvarint v rest :
  is_uint64 v -> DecodeUvarint (EncodeUvarint [] v ++ rest) = Some (rest, v).
Proof.
  unfold is_uint64. intros Hv. unfold EncodeUvarint, DecodeUvarint.
  pose proof (byte_len_le 8 v) as Hn.
  assert (v < 256 ^ Z.of_nat (byte_len 8 v)) as Hb
    by (apply byte_len_bound; change (256 ^ Z.of_nat 8) with (2 ^ 64); lia).
  set (n := byte_len 8 v) in *. cbn [app].
  replace (8 + Z.of_nat n) with (Z.of_nat (8 + n)) by lia.
  rewrite byte_val_tag by lia.
  replace (Z.of_nat (8 + n) - 8) with (Z.of_nat n) by lia.
  rewrite Nat2Z.id, length_app, be_bytes_length.
  rewrite !(proj2 (Z.leb_le _ _)) by lia. cbn [andb].
  rewrite take_app_length', drop_app_length' by (by rewrite be_bytes_length).
  rewrite be_value_be_bytes, Z.mod_small by lia. reflexivity.
Qed.

Lemma EncodeUvarint_order v1 v2 :
  is_uint64 v1 -> is_uint64 v2 -> v1 < v2 ->
  bytes_ltb (EncodeUvarint [] v1) (EncodeUvarint [] v2) = true.
Proof.
  unfold is_uint64. intros H1 H2 Hlt. unfold EncodeUvarint. cbn [app].
  pose proof (byte_len_le 8 v1). pose proof (byte_len_le 8 v2).
  pose proof (byte_len_mono 8 v1 v2 ltac:(lia)) as Hm.
  assert (v2 < 256 ^ Z.of_nat (byte_len 8 v2)) as Hb
    by (apply byte_len_bound; change (256 ^ Z.of_nat 8) with (2 ^ 64); lia).
  apply bytes_ltb_cons.
  replace (8 + Z.of_nat (byte_len 8 v1)) with (Z.of_nat (8 + byte_len 8 v1)) by lia.
  replace (8 + Z.of_nat (byte_len 8 v2)) with (Z.of_nat (8 + byte_len 8 v2)) by lia.
  destruct (decide (byte_len 8 v1 = byte_len 8 v2)) as [E|Hne].
  - right. rewrite E. split; [done|]. apply be_bytes_lt; lia.
  - left. rewrite !byte_val_tag by lia. lia.
Qed.

Lemma neg_mod v n : - n < v < 0 -> v mod n = v + n.
Proof.
  intros Hv. rewrite <- (Z_mod_plus_full v 1 n), Z.mul_1_l. apply Z.mod_small. lia.
Qed.

Lemma byte_len_neg v :
  is_int64 v -> v < 0 ->
  (1 <= byte_len 8 (- v) <= 8)%nat /\ - v < 256 ^ Z.of_nat (byte_len 8 (- v)).
Proof.
  unfold is_int64. intros Hv Hneg. split.
  - split; [apply byte_len_pos; lia|apply byte_len_le].
  - apply byte_len_bound. change (256 ^ Z.of_nat 8) with (2 ^ 64). lia.
Qed.

Lemma DecodeVarint_EncodeVarint v rest :
  is_int64 v -> DecodeVarint (EncodeVarint [] v ++ rest) = Some (rest, v).
Proof.
  intros Hv. unfold EncodeVarint. destruct (Z.ltb_spec v 0) as [Hneg|Hpos].
  - destruct (byte_len_neg v Hv Hneg) as [Hn Hb].
    set (n := byte_len 8 (- v)) in *. cbn [app]. unfold DecodeVarint.
    replace (8 - Z.of_nat n) with (Z.of_nat (8 - n)) by lia.
    rewrite byte_val_tag by lia.
    rewrite (proj2 (Z.ltb_lt _ _)) by lia.
    replace (8 - Z.of_nat (8 - n)) with (Z.of_nat n) by lia.
    rewrite Nat2Z.id, length_app, be_bytes_length.
    rewrite (proj2 (Z.leb_le _ _)) by lia.
    rewrite take_app_length', drop_app_length' by (by rewrite be_bytes_length).
    rewrite be_value_be_bytes, Z.mod_mod by lia.
    rewrite neg_mod by lia. do 2 f_equal. lia.
  - assert (is_uint64 v) as Hu by (unfold is_int64, is_uint64 in *; lia).
    pose proof (DecodeUvarint_EncodeUvarint v rest Hu) as Hd.
    unfold EncodeUvarint in *. cbn [app] in *. unfold DecodeVarint.
    pose proof (byte_len_le 8 v).
    replace (8 + Z.of_nat (byte_len 8 v)) with (Z.of_nat (8 + byte_len 8 v)) in * by lia.
    rewrite byte_val_tag by lia.
    rewrite (proj2 (Z.ltb_ge _ _)) by lia. exact Hd.
Qed.

Lemma EncodeVarint_order v1 v2 :
  is_int64 v1 -> is_int64 v2 -> v1 < v2 ->
  bytes_ltb (EncodeVarint [] v1) (EncodeVarint [] v2) = true.
Proof.
  intros H1 H2 Hlt. unfold EncodeVarint.
  destruct (Z.ltb_spec v1 0) as [Hn1|Hp1]; destruct (Z.ltb_spec v2 0) as [Hn2|Hp2];
    try lia.
  - destruct (byte_len_neg v1 H1 Hn1) as [Hl1 Hb1].
    destruct (byte_len_neg v2 H2 Hn2) as [Hl2 Hb2].
    pose proof (byte_len_mono 8 (- v2) (- v1) ltac:(lia)) as Hm.
    cbn [app]. apply bytes_ltb_cons.
    replace (8 - Z.of_nat (byte_len 8 (- v1)))
      with (Z.of_nat (8 - byte_len 8 (- v1))) by lia.
    replace (8 - Z.of_nat (byte_len 8 (- v2)))
      with (Z.of_nat (8 - byte_len 8 (- v2))) by lia.
    destruct (decide (byte_len 8 (- v1) = byte_len 8 (- v2))) as [E|Hne].
    + right. rewrite E in *. split; [done|].
      rewrite !neg_mod by lia. apply be_bytes_lt; lia.
    + left. rewrite !byte_val_tag by lia. lia.
  - destruct (byte_len_neg v1 H1 Hn1) as [Hl1 Hb1].
    pose proof (byte_len_le 8 v2).
    unfold EncodeUvarint. cbn [app]. apply bytes_ltb_cons. left.
    replace (8 - Z.of_nat (byte_len 8 (- v1)))
      with (Z.of_nat (8 - byte_len 8 (- v1))) by lia.
    replace (8 + Z.of_nat (byte_len 8 v2)) with (Z.of_nat (8 + byte_len 8 v2)) by lia.
    rewrite !byte_val_tag by lia. lia.
  - apply EncodeUvarint_order; unfold is_int64, is_uint64 in *; lia.
Qed.

Lemma float_transform_range f :
  is_uint64 f ->
  0 <= (if float_sign f then 2 ^ 64 - 1 - f else f + 2 ^ 63) < 2 ^ 64.
Proof.
  unfold is_uint64, float_sign. intros Hf. destruct (Z.leb_spec (2 ^ 63) f); lia.
Qed.

Lemma DecodeNumericFloat_EncodeNumericFloat f rest :
  is_uint64 f ->
  DecodeNumericFloat (EncodeNumericFloat [] f ++ rest) = Some (rest, f).
Proof.
  intros Hf. pose proof (float_transform_range f Hf) as Hu.
  unfold EncodeNumericFloat, DecodeNumericFloat. cbn [app].
  rewrite length_app, be_bytes_length.
  rewrite (proj2 (Nat.leb_le _ _)) by lia.
  rewrite take_app_length', drop_app_length' by (by rewrite be_bytes_length).
  rewrite be_value_be_bytes.
  change (256 ^ Z.of_nat 8) with (2 ^ 64). rewrite Z.mod_small by done.
  do 2 f_equal. unfold is_uint64, float_sign in *.
  destruct (Z.leb_spec (2 ^ 63) f).
  - rewrite (proj2 (Z.leb_gt _ _)) by lia. lia.
  - rewrite (proj2 (Z.leb_le _ _)) by lia. lia.
Qed.

Lemma EncodeNumericFloat_order f1 f2 :
  is_uint64 f1 -> is_uint64 f2 -> float_lt f1 f2 ->
  bytes_ltb (EncodeNumericFloat [] f1) (EncodeNumericFloat [] f2) = true.
Proof.
  intros H1 H2 (_ & _ & Hlt).
  pose proof (float_transform_range f1 H1). pose proof (float_transform_range f2 H2).
  unfold EncodeNumericFloat. cbn [app]. apply be_bytes_lt;
    [|change (256 ^ Z.of_nat 8) with (2 ^ 64); lia].
  split; [lia|].
  unfold float_key, float_magnitude, float_sign, is_uint64 in *.
  destruct (Z.leb_spec (2 ^ 63) f1); destruct (Z.leb_spec (2 ^ 63) f2).
  - rewrite <- (Z_mod_plus_full f1 (-1)), <- (Z_mod_plus_full f2 (-1)) in Hlt.
    rewrite !Z.mod_small in Hlt by lia. lia.
  - rewrite <- (Z_mod_plus_full f1 (-1)) in Hlt.
    rewrite !Z.mod_small in Hlt by lia. lia.
  - rewrite <- (Z_mod_plus_full f2 (-1)) in Hlt.
    rewrite !Z.mod_small in Hlt by lia. lia.
  - rewrite !Z.mod_small in Hlt by lia. lia.
Qed.

(** The model satisfies every law of the class. *)
Lemma laws : @EncodingLaws encoding.
Proof.
  destruct encoding_unfold as (E1 & E2 & E3 & E4 & E5 & E6 & E7 & E8).
  split; rewrite ?E1, ?E2, ?E3, ?E4, ?E5, ?E6, ?E7, ?E8.
  - intros b t. reflexivity.
  - intros t rest. unfold EncodeBytes. cbn [app]. rewrite <- app_assoc.
    apply DecodeBytes_escape.
  - intros t1 t2. unfold EncodeBytes. cbn [app]. apply escape_lt.
  - intros b v. unfold EncodeVarint, EncodeUvarint. by destruct (v <? 0).
  - apply DecodeVarint_EncodeVarint.
  - apply EncodeVarint_order.
  - intros b v. reflexivity.
  - apply DecodeUvarint_EncodeUvarint.
  - apply EncodeUvarint_order.
  - intros b f. reflexivity.
  - apply DecodeNumericFloat_EncodeNumericFloat.
  - apply EncodeNumericFloat_order.
Qed.

End SpecEncodingLaws.

(** ** Column keys in memory *)

Module SliceProperties.
Import Slices.
Local Open Scope nat_scope.

Section Append.
Context (growcap : nat -> nat -> nat).

Lemma preserves_refl h : preserves h h.
Proof. by intros a _. Qed.

Lemma preserves_dom h h' a : preserves h h' -> a ∈ dom h -> a ∈ dom h'.
Proof.
  intros Hp Ha. apply elem_of_dom. rewrite (Hp a Ha). by apply elem_of_dom.
Qed.

Lemma preserves_trans h1 h2 h3 : preserves h1 h2 -> preserves h2 h3 -> preserves h1 h3.
Proof.
  intros H12 H23 a Ha. rewrite (H23 a), (H12 a); [done..|].
  by eapply preserves_dom.
Qed.

Lemma preserves_read h h' s :
  slice_valid h s -> preserves h h' -> slice_read h' s = slice_read h s.
Proof.
  unfold slice_valid, slice_read. destruct (s_arr s) as [a|]; [|done].
  intros (l & Hl & _) Hp. rewrite (Hp a); [done|]. apply elem_of_dom. eauto.
Qed.

Lemma preserves_valid h h' s : slice_valid h s -> preserves h h' -> slice_valid h' s.
Proof.
  unfold slice_valid. destruct (s_arr s) as [a|]; [|done].
  intros (l & Hl & Hb) Hp. exists l. split; [|done].
  rewrite (Hp a); [done|]. apply elem_of_dom. eauto.
Qed.

(** Appending to a slice whose array is not shared with the heap [h0]:
    the result shows the old bytes followed by the new ones, and no array of
    [h0] is written to. *)
Lemma append_spec h0 h s xs :
  slice_valid h s -> preserves h0 h -> fresh_in h0 s ->
  slice_read (append growcap h s xs).1 (append growcap h s xs).2 = slice_read h s ++ xs /\
  slice_valid (append growcap h s xs).1 (append growcap h s xs).2 /\
  preserves h0 (append growcap h s xs).1 /\
  fresh_in h0 (append growcap h s xs).2.
Proof.
  intros Hv Hp Hf. unfold append. case_bool_decide as Hcap.
  - destruct (s_arr s) as [a|] eqn:Ha; simpl.
    + unfold slice_valid in Hv. rewrite Ha in Hv. destruct Hv as (l & Hl & Hb & Hlen).
      assert (a ∉ dom h0) as Hna by (by apply Hf).
      repeat split.
      * unfold slice_read. simpl. rewrite Ha, lookup_alter_eq, Hl. simpl.
        unfold write_at.
        rewrite drop_app_le by (rewrite length_take; lia).
        rewrite <- take_drop_commute.
        assert (length (take (s_len s) (drop (s_off s) l)) = s_len s) as Hl1
          by (rewrite length_take, length_drop; lia).
        rewrite take_app_add' by done.
        rewrite take_app_length. done.
      * unfold slice_valid. simpl. eexists. rewrite lookup_alter_eq, Hl. simpl.
        split; [done|]. unfold write_at.
        rewrite !length_app, length_take, length_drop. lia.
      * intros b Hb'. rewrite lookup_alter_ne by congruence. by apply Hp.
      * intros b [= <-]. done.
    + unfold slice_valid in Hv. rewrite Ha in Hv. destruct Hv as [Hl Hc].
      assert (xs = []) as -> by (destruct xs; [done|simpl in Hcap; lia]).
      rewrite app_nil_r. repeat split; try done.
      unfold slice_valid. by rewrite Ha.
  - simpl. pose proof (is_fresh (dom h)) as Hfr.
    set (a := fresh (dom h)) in *.
    set (n := s_len s + length xs).
    set (c := max n (growcap (s_cap s) n)).
    assert (length (slice_read h s) = s_len s) as Hlr.
    { unfold slice_read, slice_valid in *. destruct (s_arr s) as [b|].
      - destruct Hv as (l & -> & Hb & Hlen). simpl.
        rewrite length_take, length_drop. lia.
      - destruct Hv as [-> _]. done. }
    repeat split.
    + unfold slice_read at 1. simpl. rewrite lookup_insert_eq. simpl. rewrite drop_0.
      rewrite app_assoc. apply take_app_length'. rewrite length_app. lia.
    + unfold slice_valid. simpl. eexists. rewrite lookup_insert_eq. split; [done|].
      rewrite !length_app, length_replicate. lia.
    + intros b Hb. rewrite lookup_insert_ne; [by apply Hp|].
      intros <-. apply Hfr. by eapply preserves_dom.
    + intros b [= <-]. intros Hin. apply Hfr. by eapply preserves_dom.
Qed.

Lemma nil_slice_valid h : slice_valid h nil_slice.
Proof. by split. Qed.

Lemma encodeColumnKey_spec h pk column :
  slice_valid h pk ->
  slice_read (encodeColumnKey growcap h pk column).1 (encodeColumnKey growcap h pk column).2 =
    slice_read h pk ++ String.list_byte_of_string column /\
  slice_valid (encodeColumnKey growcap h pk column).1 (encodeColumnKey growcap h pk column).2 /\
  preserves h (encodeColumnKey growcap h pk column).1 /\
  fresh_in h (encodeColumnKey growcap h pk column).2.
Proof.
  intros Hv. unfold encodeColumnKey.
  destruct (append_spec h h nil_slice (slice_read h pk) (nil_slice_valid h)
              (preserves_refl h)) as (Hr1 & Hv1 & Hp1 & Hf1); [by intros a|].
  destruct (append growcap h nil_slice (slice_read h pk)) as [h1 key1]. simpl in *.
  destruct (append_spec h h1 key1 (String.list_byte_of_string column) Hv1 Hp1 Hf1)
    as (Hr2 & Hv2 & Hp2 & Hf2).
  rewrite Hr2, Hr1. done.
Qed.

Lemma encodeColumnKeys_spec h pk columns :
  slice_valid h pk ->
  preserves h (encodeColumnKeys growcap h pk columns).1 /\
  Forall2 (fun key col =>
             slice_read (encodeColumnKeys growcap h pk columns).1 key =
               slice_read h pk ++ String.list_byte_of_string col /\
             fresh_in h key /\
             slice_valid (encodeColumnKeys growcap h pk columns).1 key)
    (encodeColumnKeys growcap h pk columns).2 columns /\
  NoDup (omap s_arr (encodeColumnKeys growcap h pk columns).2).
Proof.
  revert h. induction columns as [|col columns IH]; intros h Hv; cbn [encodeColumnKeys].
  - split; [apply preserves_refl|]. split; constructor.
  - destruct (encodeColumnKey_spec h pk col Hv) as (Hr & Hvk & Hp & Hf).
    destruct (encodeColumnKey growcap h pk col) as [h1 key]. simpl in *.
    destruct (IH h1 (preserves_valid _ _ _ Hv Hp)) as (Hp' & Hall & Hnd).
    destruct (encodeColumnKeys growcap h1 pk columns) as [h2 keys]. simpl in *.
    split; [by eapply preserves_trans|]. split.
    + constructor.
      * rewrite (preserves_read h1 h2 key Hvk Hp'). split; [done|]. split; [done|].
        by eapply preserves_valid.
      * eapply Forall2_impl; [exact Hall|]. intros k c (Hk & Hfk & Hvk').
        rewrite Hk, (preserves_read h h1 pk Hv Hp). split; [done|]. split; [|done].
        intros a Ha Hin. apply (Hfk a Ha). by eapply preserves_dom.
    + change (omap s_arr (key :: keys))
        with (match s_arr key with
              | Some a => a :: omap s_arr keys
              | None => omap s_arr keys
              end).
      destruct (s_arr key) as [a|] eqn:Ha; [|done].
      constructor; [|done]. intros Hin.
      apply list_elem_of_omap in Hin as (k & Hk & Hka).
      apply list_elem_of_lookup in Hk as [i Hi].
      destruct (Forall2_lookup_l _ _ _ _ _ Hall Hi) as (c & _ & _ & Hfk & _).
      apply (Hfk a Hka). unfold slice_valid in Hvk. rewrite Ha in Hvk.
      destruct Hvk as (l & Hl & _). apply elem_of_dom. eauto.
Qed.

End Append.
End SliceProperties.


(** C10. [encodeColumnKey] returns a slice on an array that did not exist
    before the call, showing the primary key followed by the bytes of the
    column name; no array that existed is written to, so the primary key
    shows the same bytes afterwards. The keys built one after the other
    from one primary key lie on different arrays, and each shows the
    unchanged primary key followed by its column. *)
Theorem encodeColumnKey_leaves_primary_key growcap h pk m :
  Slices.slice_valid h pk ->
  (forall column,
     let r := Slices.encodeColumnKey growcap h pk column in
     Slices.slice_read r.1 r.2 = encodeColumnKey m (Slices.slice_read h pk) column /\
     Slices.fresh_in h r.2 /\
     Slices.preserves h r.1 /\
     Slices.slice_read r.1 pk = Slices.slice_read h pk) /\
  (forall columns,
     let r := Slices.encodeColumnKeys growcap h pk columns in
     Forall2 (fun key col =>
                Slices.slice_read r.1 key =
                encodeColumnKey m (Slices.slice_read h pk) col) r.2 columns /\
     NoDup (omap Slices.s_arr r.2) /\
     Forall (Slices.fresh_in h) r.2 /\
     Slices.preserves h r.1 /\
     Slices.slice_read r.1 pk = Slices.slice_read h pk).
Proof.
  intros Hv. split.
  - intros column r. subst r.
    destruct (SliceProperties.encodeColumnKey_spec growcap h pk column Hv) as (Hr & _ & Hp & Hf).
    repeat split; try done.
    by apply SliceProperties.preserves_read.
  - intros columns r. subst r.
    destruct (SliceProperties.encodeColumnKeys_spec growcap h pk columns Hv) as (Hp & Hall & Hnd).
    repeat split; try done.
    + eapply Forall2_impl; [exact Hall|]. by intros k c (Hk & _).
    + apply Forall_forall. intros k Hk.
      apply list_elem_of_lookup in Hk as [i Hi].
      by destruct (Forall2_lookup_l _ _ _ _ _ Hall Hi) as (c & _ & _ & Hfk & _).
    + by apply SliceProperties.preserves_read.
Qed.

(** * Further properties of the table layer *)

Section Values.
Context `{Encoding} `{Float32}.

(** ** Column values *)

Lemma unmarshalTableValue_marshalTableValue v dest :
  key_kind (type_of v) = true -> wf_value v -> type_of dest = type_of v ->
  exists pv,
    marshalTableValue v = Ok pv /\ unmarshalTableValue (Some pv) dest = Ok v.
Proof.
  intros Hk Hwf Ht.
  destruct v; try discriminate Hk; destruct dest; try discriminate Ht;
    simplify_eq/=; eexists; (split; [reflexivity|]); simpl; unfold GetInteger; simpl.
  - by destruct b.
  - by rewrite SetInt_wf.
  - rewrite uint64_of_int64_of_uint64 by (by eapply wf_uint_is_uint64).
    by rewrite SetUint_wf.
  - unfold Float64frombits, Float64bits.
    rewrite uint64_of_int64_of_uint64 by (by eapply wf_float_is_uint64).
    by rewrite SetFloat_wf.
  - by rewrite String.string_of_list_byte_of_string.
  - by rewrite String.string_of_list_byte_of_string.
  - reflexivity.
Qed.

(** X1. What [marshalTableValue] makes of a field of a supported kind,
    [unmarshalTableValue] turns back into the same value in a field of the
    same type: a column written by [PutStruct] and read by [GetStruct] is
    the column that was written, whatever the destination held. *)
Theorem marshal_unmarshal_round_trip v dest :
  key_kind (type_of v) = true -> wf_value v -> type_of dest = type_of v ->
  exists pv,
    marshalTableValue v = Ok pv /\ unmarshalTableValue (Some pv) dest = Ok v.
Proof. exact (unmarshalTableValue_marshalTableValue v dest). Qed.

(** X2. A value is refused by the fields of the other family: one that
    carries an integer by the string and byte-slice fields, one that carries
    bytes by the boolean, integer and float fields.  A value that carries
    both is refused by every field of a supported kind. *)
Theorem unmarshal_rejects_other_member src dest :
  (bytes_kind (type_of dest) = true -> is_Some (Integer src) ->
   unmarshalTableValue (Some src) dest = Err EUnmarshalInteger) /\
  (integer_kind (type_of dest) = true -> is_Some (Bytes src) ->
   unmarshalTableValue (Some src) dest = Err EUnmarshalBytes) /\
  (key_kind (type_of dest) = true -> is_Some (Integer src) -> is_Some (Bytes src) ->
   exists e, unmarshalTableValue (Some src) dest = Err e).
Proof.
  destruct src as [bs i]. repeat split.
  - intros Hk [z Hz]. simpl in Hz. subst. by destruct dest.
  - intros Hk [z Hz]. simpl in Hz. subst. by destruct dest.
  - intros Hk [z Hz] [z' Hz']. simpl in Hz, Hz'. subst.
    destruct dest; try discriminate Hk; by eexists.
Qed.

(** X3. Neither decoding a key element into a field nor unmarshaling a
    value into it changes the type of the field. *)
Theorem field_assignments_preserve_type :
  (forall src dest v, unmarshalTableValue src dest = Ok v -> type_of v = type_of dest) /\
  (forall b dest b' v, decodeTableKey b dest = Ok (b', v) -> type_of v = type_of dest).
Proof.
  split.
  - exact unmarshalTableValue_type.
  - intros b dest b' v.
    destruct dest as [| | |[]| | | | | | |]; simpl; unfold of_option;
      repeat (case_match; simpl); intros ?; simplify_eq; reflexivity.
Qed.

(** X4. On a field that is not of interface type the two codecs of key
    elements support the same kinds: on a field of a supported kind
    [encodeTableKey] returns a key and [decodeTableKey] returns no error; on
    any other field the one returns its error and the other its error,
    whatever the bytes. *)
Theorem key_codec_supported_kinds b v :
  (forall i, type_of v <> TIface i) ->
  (key_kind (type_of v) = true ->
   (exists k, encodeTableKey b v = Ok k) /\ forall e, decodeTableKey b v <> Err e) /\
  (key_kind (type_of v) = false ->
   encodeTableKey b v = Err EUnableToEncodeKey /\
   decodeTableKey b v = Err EUnableToDecodeKey).
Proof.
  intros _. split; intros Hk; destruct v as [[]| | | | | | | | | |];
    try discriminate Hk; simpl;
    try (split; reflexivity);
    (split; [by eexists|]); intros e; unfold of_option;
    repeat (case_match; simpl); discriminate.
Qed.

(** X5. A value with neither member set reads as the zero value of the
    field, as an absent value does: the empty string, the nil slice,
    [false], zero. *)
Theorem unmarshal_empty_value_is_zero dest :
  key_kind (type_of dest) = true -> float32_round 0 = 0 ->
  unmarshalTableValue (Some {| Bytes := None; Integer := None |}) dest =
  unmarshalTableValue None dest.
Proof.
  intros Hk Hr. destruct dest as [|k ?|k ?|[] ?| | | | | | |]; try discriminate Hk; simpl;
    unfold GetInteger, SetInt, SetUint, Float64frombits, uint64_of_int64; simpl;
    try reflexivity.
  - rewrite wrap_signed_small; [done|apply int_bits_range|].
    pose proof (int_bits_range k).
    assert (0 < 2 ^ (int_bits k - 1)) by (apply Z.pow_pos_nonneg; lia). lia.
  - by rewrite wrap_unsigned_small, Hr by lia.
Qed.

End Values.

(** ** The registry *)

Section RegistryLookup.
Context `{Encoding} `{Float32}.
Context (getDBFields : gotype -> outcome (gmap string field)).

(** X6. After a successful [BindModel] the model is found by the record
    type and by the pointer to it, also where a pointer is required; it
    carries the table name and the primary key that were given and the
    field map of the type.  The lookups of the other types answer as
    before. *)
Theorem BindModel_then_getModel db name0 obj pk db' :
  BindModel getDBFields db name0 obj pk = (db', Ok ()) ->
  let t := deref (TypeOf obj) in
  is_ptr t = false ->
  exists m,
    getModel db' t false = Ok m /\
    getModel db' (GPtr t) false = Ok m /\
    getModel db' (GPtr t) true = Ok m /\
    name m = name0 /\ primaryKey m = pk /\ getDBFields t = Ok (fields m) /\
    forall t' p, deref t' <> t -> getModel db' t' p = getModel db t' p.
Proof.
  unfold BindModel. destruct (Type__cases obj) as [-> | ->]; [|discriminate].
  intros Hb Hp. set (t := deref (TypeOf obj)) in *.
  destruct (experimentalModels db !! t) eqn:Hfree; [discriminate|].
  destruct (getDBFields t) as [fields0| |] eqn:Hf; try discriminate.
  injection Hb as <-. eexists. unfold getModel. simpl.
  assert (deref t = t) as Ht by (by destruct t).
  rewrite Ht, lookup_insert_eq.
  repeat split; try reflexivity.
  intros t' p Hne. by rewrite lookup_insert_ne.
Qed.

Lemma BindModel_otherColumns_spec db name0 obj pk db' m :
  BindModel getDBFields db name0 obj pk = (db', Ok ()) ->
  experimentalModels db' !! deref (TypeOf obj) = Some m ->
  NoDup (otherColumns m) /\
  forall col, col ∈ otherColumns m <-> is_Some (fields m !! col) /\ col ∉ pk.
Proof.
  unfold BindModel. destruct (Type__cases obj) as [-> | ->]; [|discriminate].
  intros Hb. set (t := deref (TypeOf obj)) in *.
  destruct (experimentalModels db !! t) eqn:Hfree; [discriminate|].
  destruct (getDBFields t) as [fields0| |] eqn:Hf; try discriminate.
  injection Hb as <-. simpl. rewrite lookup_insert_eq. intros [= <-]. simpl. split.
  - apply NoDup_filter, NoDup_fst_map_to_list.
  - intros col. rewrite list_elem_of_filter, elem_of_list_to_set, list_elem_of_fmap.
    split.
    + intros [Hn [[c f] [-> Hc%elem_of_map_to_list]]]. split; [by eexists|done].
    + intros [[f Hc] Hn]. split; [done|]. exists (col, f). split; [done|].
      by apply elem_of_map_to_list.
Qed.

(** X7. The columns [BindModel] collects for the operations that name no
    column are the fields of the type that are not in the primary key, each
    once: a write of "all columns" never writes a primary-key column. *)
Theorem BindModel_otherColumns db name0 obj pk db' m :
  BindModel getDBFields db name0 obj pk = (db', Ok ()) ->
  experimentalModels db' !! deref (TypeOf obj) = Some m ->
  NoDup (otherColumns m) /\
  forall col, col ∈ otherColumns m <-> is_Some (fields m !! col) /\ col ∉ pk.
Proof. exact (BindModel_otherColumns_spec db name0 obj pk db' m). Qed.

End RegistryLookup.

(** ** The operations on one record *)

Section RecordOperations.
Context `{Encoding} `{Float32}.

Lemma getModel_bound db t m :
  is_ptr t = false -> experimentalModels db !! t = Some m ->
  getModel db t false = Ok m /\ forall p, getModel db (GPtr t) p = Ok m.
Proof.
  intros Hp Hm. assert (deref t = t) as Ht by (by destruct t).
  unfold getModel. simpl. rewrite Ht, Hm. split; [done|]. by intros [].
Qed.

Lemma Indirect_value o : is_ptr (TypeOf o) = false -> Indirect o = o.
Proof. by destruct o. Qed.

(** X8. Only the operations that write into the record need a pointer to
    it: [GetStruct] and [IncStruct] refuse a record handed by value, with
    the error of the registry and without a call, whether or not its type
    is bound; [PutStruct], [DelStruct] and the bounds of [ScanStruct] take
    the record and the pointer to it alike. *)
Theorem pointer_required_only_to_write_back b o :
  is_ptr (TypeOf o) = false -> o <> OInvalid ->
  (forall columns,
     GetStruct b o columns = Ok (initResult b 0 0 (Some EPointerRequired))) /\
  (forall value column,
     IncStruct b o value column = Ok (initResult b 0 0 (Some EPointerRequired))) /\
  (forall columns, PutStruct b (OPtr o) columns = PutStruct b o columns) /\
  (forall columns, DelStruct b (OPtr o) columns = DelStruct b o columns) /\
  (forall dest e maxRows columns,
     ScanStruct b dest (OPtr o) e maxRows columns = ScanStruct b dest o e maxRows columns) /\
  (forall dest s maxRows columns,
     ScanStruct b dest s (OPtr o) maxRows columns = ScanStruct b dest s o maxRows columns).
Proof.
  intros Hp Hv. pose proof (Indirect_value o Hp) as Hi.
  repeat split; intros.
  - unfold GetStruct. rewrite (Type__valid o Hv). simpl. unfold getModel. by rewrite Hp.
  - unfold IncStruct. rewrite (Type__valid o Hv). simpl. unfold getModel. by rewrite Hp.
  - unfold PutStruct. simpl. by rewrite Hi.
  - unfold DelStruct. simpl. by rewrite Hi.
  - unfold ScanStruct. simpl. by rewrite Hi.
  - unfold ScanStruct. simpl. by rewrite Hi.
Qed.

Lemma GetStruct_calls_spec m pk cols acc cs :
  GetStruct_calls m pk cols acc = Ok cs ->
  exists new, cs = acc ++ new /\
    Forall2 (fun c col => exists f, fields m !! col = Some f /\
               c = {| Args := GetRequest (encodeColumnKey m pk col);
                      Post := Some (get_post f) |}) new cols.
Proof.
  revert acc. induction cols as [|col cols IH]; intros acc; simpl.
  - intros [= <-]. exists []. by rewrite app_nil_r.
  - destruct (fields m !! col) as [f|] eqn:Hf; [|discriminate].
    intros (new & -> & Hnew)%IH. eexists (_ :: new). rewrite <- app_assoc.
    split; [reflexivity|]. constructor; [by exists f|done].
Qed.

Lemma PutStruct_calls_spec m pk v cols acc cs :
  PutStruct_calls m pk v cols acc = Ok cs ->
  exists new, cs = acc ++ new /\
    Forall2 (fun c col => exists f fv pv,
               fields m !! col = Some f /\ FieldByIndex v (Index f) = Ok fv /\
               marshalTableValue fv = Ok pv /\
               c = {| Args := PutRequest (encodeColumnKey m pk col) pv;
                      Post := None |}) new cols.
Proof.
  revert acc. induction cols as [|col cols IH]; intros acc; simpl.
  - intros [= <-]. exists []. by rewrite app_nil_r.
  - destruct (fields m !! col) as [f|] eqn:Hf; [|discriminate].
    destruct (FieldByIndex v (Index f)) as [fv| |] eqn:Hfv; try discriminate. simpl.
    destruct (marshalTableValue fv) as [pv| |] eqn:Hpv; try discriminate. simpl.
    intros (new & -> & Hnew)%IH. eexists (_ :: new). rewrite <- app_assoc.
    split; [reflexivity|]. constructor; [by exists f, fv, pv|done].
Qed.

Lemma DelStruct_calls_spec m pk cols acc cs :
  DelStruct_calls m pk cols acc = Ok cs ->
  exists new, cs = acc ++ new /\
    Forall2 (fun c col => is_Some (fields m !! col) /\
               c = Delete (encodeColumnKey m pk col)) new cols.
Proof.
  revert acc. induction cols as [|col cols IH]; intros acc; simpl.
  - intros [= <-]. exists []. by rewrite app_nil_r.
  - destruct (fields m !! col) as [f|] eqn:Hf; [|discriminate].
    intros (new & -> & Hnew)%IH. eexists (_ :: new). rewrite <- app_assoc.
    split; [reflexivity|]. constructor; [by split; [eexists|]|done].
Qed.

(** X9. What the column-wise operations queue for a record with the primary
    key [pk]: unless the operation is refused, one call per column asked
    for, in the order asked, each on the key of its column under [pk].
    [GetStruct] attaches the step that assigns the column's field;
    [PutStruct] sends the marshaled value of the column's field;
    [DelStruct] sends the key alone.  So reading, writing and deleting one
    record address the same keys. *)
Theorem column_operations_address_column_keys b o m pk columns :
  is_ptr (TypeOf o) = false -> o <> OInvalid ->
  experimentalModels (bDB b) !! TypeOf o = Some m ->
  encodePrimaryKey m o = Ok pk ->
  let cols := effective_columns m columns in
  (forall b', GetStruct b (OPtr o) columns = Ok b' ->
     refused b b' \/
     exists cs,
       b' = initResult (append_calls b cs) (length cols) (length cols) None /\
       Forall2 (fun c col => exists f, fields m !! col = Some f /\
                  c = {| Args := GetRequest (encodeColumnKey m pk col);
                         Post := Some (get_post f) |}) cs cols) /\
  (forall b', PutStruct b o columns = Ok b' ->
     refused b b' \/
     exists cs,
       b' = initResult (append_calls b cs) (length cols) (length cols) None /\
       Forall2 (fun c col => exists f fv pv,
                  fields m !! col = Some f /\ FieldByIndex o (Index f) = Ok fv /\
                  marshalTableValue fv = Ok pv /\
                  c = {| Args := PutRequest (encodeColumnKey m pk col) pv;
                         Post := None |}) cs cols) /\
  (forall b', DelStruct b o columns = Ok b' ->
     refused b b' \/
     exists cs,
       b' = initResult (append_calls b cs) (length cols) (length cols) None /\
       Forall2 (fun c col => is_Some (fields m !! col) /\
                  c = Delete (encodeColumnKey m pk col)) cs cols).
Proof.
  intros Hp Hv Hm Hpk cols.
  destruct (getModel_bound _ _ _ Hp Hm) as [Hg Hgp].
  pose proof (Indirect_value o Hp) as Hi.
  repeat split; intros b'.
  - unfold GetStruct. simpl. rewrite Hgp. simpl. rewrite Hpk. fold cols.
    destruct (GetStruct_calls m pk cols []) as [cs|e|] eqn:Hcs; [|intros [= <-]|discriminate].
    + intros [= <-]. right. apply GetStruct_calls_spec in Hcs as (new & -> & Hnew).
      exists new. split; [|done]. rewrite !app_nil_l. by rewrite (Forall2_length _ _ _ Hnew).
    + left. apply refused_initResult.
  - unfold PutStruct. rewrite Hi, (Type__valid o Hv). simpl. rewrite Hg, Hpk. fold cols.
    destruct (PutStruct_calls m pk o cols []) as [cs|e|] eqn:Hcs; [|intros [= <-]|discriminate].
    + intros [= <-]. right. apply PutStruct_calls_spec in Hcs as (new & -> & Hnew).
      exists new. split; [|done]. rewrite !app_nil_l. by rewrite (Forall2_length _ _ _ Hnew).
    + left. apply refused_initResult.
  - unfold DelStruct. rewrite Hi, (Type__valid o Hv). simpl. rewrite Hg, Hpk. fold cols.
    destruct (DelStruct_calls m pk cols []) as [cs|e|] eqn:Hcs; [|intros [= <-]|discriminate].
    + intros [= <-]. right. apply DelStruct_calls_spec in Hcs as (new & -> & Hnew).
      exists new. split; [|done]. rewrite !app_nil_l. by rewrite (Forall2_length _ _ _ Hnew).
    + left. apply refused_initResult.
Qed.

(** X10. Writing a column and reading it back compose: [PutStruct] of one
    column of a record and [GetStruct] of that column into another record
    with the same primary key queue one call each on the same key, and the
    step of the read, run on the value that was written, stores the written
    field value in the destination. *)
Theorem PutStruct_then_GetStruct_column b st r r' m pk col f fv dest :
  experimentalModels (bDB b) !! GStruct st = Some m ->
  encodePrimaryKey m (OStruct st r) = Ok pk ->
  encodePrimaryKey m (OStruct st r') = Ok pk ->
  fields m !! col = Some f ->
  r !! Index f = Some fv -> key_kind (type_of fv) = true -> wf_value fv ->
  r' !! Index f = Some dest -> type_of dest = type_of fv ->
  exists pv post,
    PutStruct b (OStruct st r) [col] =
      Ok (initResult
            (append_calls b [{| Args := PutRequest (encodeColumnKey m pk col) pv;
                                Post := None |}]) 1 1 None) /\
    GetStruct b (OPtr (OStruct st r')) [col] =
      Ok (initResult
            (append_calls b [{| Args := GetRequest (encodeColumnKey m pk col);
                                Post := Some post |}]) 1 1 None) /\
    post (GetResponse (Some pv)) (OStruct st r') = Ok (OStruct st (<[Index f:=fv]> r')).
Proof.
  intros Hm Hpk Hpk' Hf Hfv Hk Hwf Hd Ht.
  destruct (unmarshalTableValue_marshalTableValue fv dest Hk Hwf Ht) as (pv & Hpv & Hun).
  destruct (getModel_bound (bDB b) (GStruct st) m eq_refl Hm) as [Hg Hgp].
  exists pv, (get_post f). repeat split.
  - unfold PutStruct. simpl. rewrite Hg, Hpk. simpl. rewrite Hf. simpl.
    rewrite Hfv. simpl. by rewrite Hpv.
  - unfold GetStruct. simpl. rewrite Hgp. simpl. rewrite Hpk'. simpl. by rewrite Hf.
  - unfold get_post, FieldByIndex. rewrite Hd. cbn [of_option obind]. by rewrite Hun.
Qed.

(** X11. [IncStruct] does not look at the kind of the column it increments:
    the increment is queued for any field of the model.  The step that
    stores the new value truncates it to the width of an integer field, and
    fails on a string or byte-slice field, after the increment was sent. *)
Theorem IncStruct_any_column b o m pk column f value :
  is_ptr (TypeOf o) = false ->
  experimentalModels (bDB b) !! TypeOf o = Some m ->
  encodePrimaryKey m o = Ok pk ->
  fields m !! column = Some f ->
  exists post,
    IncStruct b (OPtr o) value column =
      Ok (initResult
            (append_calls b
               [{| Args := IncrementRequest (encodeColumnKey m pk column) value;
                   Post := Some post |}]) 1 1 None) /\
    (forall st r k i n,
       r !! Index f = Some (VInt k i) ->
       post (IncrementResponse n) (OStruct st r) =
       Ok (OStruct st (<[Index f:=VInt k (wrap_signed (int_bits k) n)]> r))) /\
    (forall st r fv n,
       r !! Index f = Some fv -> bytes_kind (type_of fv) = true ->
       post (IncrementResponse n) (OStruct st r) = Err EUnmarshalInteger).
Proof.
  intros Hp Hm Hpk Hf.
  destruct (getModel_bound (bDB b) _ m Hp Hm) as [Hg Hgp].
  exists (inc_post f). repeat split.
  - unfold IncStruct. simpl. rewrite Hgp. simpl. by rewrite Hpk, Hf.
  - intros st r k i n Hr. unfold inc_post. simpl. by rewrite Hr.
  - intros st r fv n Hr Hk. unfold inc_post. simpl. rewrite Hr. simpl.
    by destruct fv.
Qed.

End RecordOperations.

Section KeyOnlyModels.
Context `{Encoding} `{Float32}.
Context (getDBFields : gotype -> outcome (gmap string field)).

(** X12. A model whose fields are all in the primary key has no other
    column, and the operations that are asked for "all columns" of such a
    record queue nothing and report no error: [PutStruct] stores no key for
    the record, which a later scan cannot find. *)
Theorem key_only_model_stores_nothing db name0 obj pk db' m :
  BindModel getDBFields db name0 obj pk = (db', Ok ()) ->
  experimentalModels db' !! deref (TypeOf obj) = Some m ->
  (forall col, is_Some (fields m !! col) -> col ∈ pk) ->
  otherColumns m = [] /\
  forall b o key,
    bDB b = db' -> o <> OInvalid -> TypeOf o = deref (TypeOf obj) ->
    is_ptr (TypeOf o) = false -> encodePrimaryKey m o = Ok key ->
    PutStruct b o [] = Ok (initResult (append_calls b []) 0 0 None) /\
    GetStruct b (OPtr o) [] = Ok (initResult (append_calls b []) 0 0 None) /\
    DelStruct b o [] = Ok (initResult (append_calls b []) 0 0 None).
Proof.
  intros Hb Hm Hall.
  destruct (BindModel_otherColumns_spec getDBFields db name0 obj pk db' m Hb Hm) as [_ Hoc].
  assert (otherColumns m = []) as Hnil.
  { destruct (otherColumns m) as [|col l] eqn:E; [done|].
    destruct (proj1 (Hoc col)) as [Hs Hn]; [left|].
    destruct (Hn (Hall col Hs)). }
  split; [done|]. intros b o key Hdb Hv Ht Hp Hk.
  rewrite <- Hdb, <- Ht in Hm.
  destruct (getModel_bound (bDB b) _ m Hp Hm) as [Hg Hgp].
  repeat split.
  - unfold PutStruct. rewrite (Indirect_value o Hp), (Type__valid o Hv). simpl.
    rewrite Hg, Hk. unfold effective_columns. simpl. by rewrite Hnil.
  - unfold GetStruct. simpl. rewrite Hgp. simpl. rewrite Hk.
    unfold effective_columns. simpl. by rewrite Hnil.
  - unfold DelStruct. rewrite (Indirect_value o Hp), (Type__valid o Hv). simpl.
    rewrite Hg, Hk. unfold effective_columns. simpl. by rewrite Hnil.
Qed.

End KeyOnlyModels.

(** ** Scans *)

Section Scans.
Context `{Encoding} `{Float32}.

(** X13. The checks of [ScanStruct], in the order it makes them: the
    destination must be a pointer to a slice; the element type of the
    slice, with one pointer dropped, must be bound; the start record and
    then the end record must have that type.  A nil start pointer is not
    refused: the operation panics on it.  When the checks pass and both
    primary keys encode, one range read from the start key to the end key
    is queued, with the row limit, and no row is expected of it. *)
Theorem ScanStruct_argument_checks b dest start end_ maxRows columns :
  (is_ptr (TypeOf dest) = false \/ (forall elem items, Indirect dest <> OSlice elem items) ->
   ScanStruct b dest start end_ maxRows columns =
     Ok (initResult b 0 0 (Some EDestNotSlicePointer))) /\
  (forall elem items,
     dest = OPtr (OSlice elem items) -> is_ptr (deref elem) = false ->
     (experimentalModels (bDB b) !! deref elem = None ->
      ScanStruct b dest start end_ maxRows columns = Ok (initResult b 0 0 (Some ENoModel))) /\
     (forall m,
        experimentalModels (bDB b) !! deref elem = Some m ->
        (Indirect start = OInvalid ->
         ScanStruct b dest start end_ maxRows columns = Panic) /\
        (Indirect start <> OInvalid -> TypeOf (Indirect start) <> deref elem ->
         ScanStruct b dest start end_ maxRows columns =
           Ok (initResult b 0 0 (Some EIncompatibleStart))) /\
        (Indirect start <> OInvalid -> TypeOf (Indirect start) = deref elem ->
         Indirect end_ <> OInvalid -> TypeOf (Indirect end_) <> deref elem ->
         ScanStruct b dest start end_ maxRows columns =
           Ok (initResult b 0 0 (Some EIncompatibleEnd))) /\
        (forall startKey endKey,
           Indirect start <> OInvalid -> TypeOf (Indirect start) = deref elem ->
           Indirect end_ <> OInvalid -> TypeOf (Indirect end_) = deref elem ->
           encodePrimaryKey m (Indirect start) = Ok startKey ->
           encodePrimaryKey m (Indirect end_) = Ok endKey ->
           exists post,
             ScanStruct b dest start end_ maxRows columns =
               Ok (initResult
                     (append_calls b
                        [{| Args := ScanRequest startKey endKey maxRows;
                            Post := Some post |}]) 1 0 None)))).
Proof.
  split.
  - intros [Hp|Hs]; unfold ScanStruct.
    + by rewrite Hp.
    + destruct (is_ptr (TypeOf dest)); [|done]. simpl.
      destruct (Indirect dest) as [| | |elem items| |] eqn:Hd; try done.
      by destruct (Hs elem items).
  - intros elem items -> Hp. unfold ScanStruct. simpl. rewrite scan_modelT_deref.
    assert (deref (deref elem) = deref elem) as Hdd by (by destruct (deref elem)).
    unfold getModel. simpl. rewrite Hdd. split.
    + by intros ->.
    + intros m ->. repeat split.
      * by intros ->.
      * intros Hv Ht. rewrite (Type__valid _ Hv). simpl.
        by rewrite bool_decide_eq_false_2.
      * intros Hv Ht Hv' Ht'. rewrite (Type__valid _ Hv). simpl.
        rewrite bool_decide_eq_true_2 by done. simpl.
        rewrite (Type__valid _ Hv'). simpl. by rewrite bool_decide_eq_false_2.
      * intros startKey endKey Hv Ht Hv' Ht' Hs He. rewrite (Type__valid _ Hv). simpl.
        rewrite bool_decide_eq_true_2 by done. simpl.
        rewrite (Type__valid _ Hv'). simpl. rewrite bool_decide_eq_true_2 by done. simpl.
        rewrite Hs, He. by eexists.
Qed.

Lemma scan_row_ptrResults m modelT scanCols pk res base_v base_p recs row :
  match scan_row m modelT false scanCols
          {| sc_primaryKey := pk; sc_result := res; sc_sliceV := base_v ++ recs |} row,
        scan_row m modelT true scanCols
          {| sc_primaryKey := pk; sc_result := res;
             sc_sliceV := base_p ++ (OPtr <$> recs) |} row with
  | Ok s1, Ok s2 =>
      sc_primaryKey s1 = sc_primaryKey s2 /\ sc_result s1 = sc_result s2 /\
      exists recs', sc_sliceV s1 = base_v ++ recs' /\
                    sc_sliceV s2 = base_p ++ (OPtr <$> recs')
  | Err e1, Err e2 => e1 = e2
  | Panic, Panic => True
  | _, _ => False
  end.
Proof.
  unfold scan_row. generalize (unmarshalTableValue (Some (Value row))). intros um. simpl.
  destruct (match pk with Some p => negb (HasPrefix (Key row) p) | None => false end).
  - destruct (decodePrimaryKey m (slice_bytes pk) (zero_object modelT)) as [res' [k|e|]];
      simpl; try done.
    destruct (decodePrimaryKey m (Key row) res') as [res2 [col|e|]]; simpl; try done.
    assert (exists recs', (base_v ++ recs) ++ [res] = base_v ++ recs' /\
              (base_p ++ (OPtr <$> recs)) ++ [OPtr res] = base_p ++ (OPtr <$> recs')) as Hr.
    { exists (recs ++ [res]). by rewrite fmap_app, !app_assoc. }
    destruct (filtered_out scanCols _); [done|].
    destruct (fields m !! _) as [f|]; [|done].
    destruct (FieldByIndex res2 (Index f)) as [fv| |]; simpl; try done.
    destruct (um fv) as [fv'| |]; simpl; done.
  - simpl.
    destruct (decodePrimaryKey m (Key row) res) as [res2 [col|e|]]; simpl; try done.
    assert (exists recs', base_v ++ recs = base_v ++ recs' /\
              base_p ++ (OPtr <$> recs) = base_p ++ (OPtr <$> recs')) as Hr by (by exists recs).
    destruct (filtered_out scanCols _); [done|].
    destruct (fields m !! _) as [f|]; [|done].
    destruct (FieldByIndex res2 (Index f)) as [fv| |]; simpl; try done.
    destruct (um fv) as [fv'| |]; simpl; done.
Qed.

Lemma scan_rows_ptrResults m modelT scanCols rows pk res base_v base_p recs :
  match scan_rows m modelT false scanCols
          {| sc_primaryKey := pk; sc_result := res; sc_sliceV := base_v ++ recs |} rows,
        scan_rows m modelT true scanCols
          {| sc_primaryKey := pk; sc_result := res;
             sc_sliceV := base_p ++ (OPtr <$> recs) |} rows with
  | Ok s1, Ok s2 =>
      sc_primaryKey s1 = sc_primaryKey s2 /\ sc_result s1 = sc_result s2 /\
      exists recs', sc_sliceV s1 = base_v ++ recs' /\
                    sc_sliceV s2 = base_p ++ (OPtr <$> recs')
  | Err e1, Err e2 => e1 = e2
  | Panic, Panic => True
  | _, _ => False
  end.
Proof.
  revert pk res recs. induction rows as [|row rows IH]; intros pk res recs.
  - simpl. repeat split. by exists recs.
  - cbn [scan_rows].
    pose proof (scan_row_ptrResults m modelT scanCols pk res base_v base_p recs row) as Hrow.
    destruct (scan_row m modelT false _ _ row) as [[pk1 res1 sl1]| |],
             (scan_row m modelT true _ _ row) as [[pk2 res2 sl2]| |]; simpl in *; try done.
    destruct Hrow as (-> & -> & recs' & -> & ->). apply IH.
Qed.

(** X14. A scan into a slice of pointers reconstructs the records a scan
    into a slice of records does: on the same reply the two steps fail
    alike, or the one appends the records and the other the pointers to the
    same records, in the same order. *)
Theorem scan_post_pointer_results m modelT columns elem_v elem_p base_v base_p rows
    dest_v dest_p :
  rows <> [] ->
  match scan_post m modelT false columns elem_v base_v (ScanResponse rows) dest_v,
        scan_post m modelT true columns elem_p base_p (ScanResponse rows) dest_p with
  | Ok d1, Ok d2 =>
      exists recs, d1 = OSlice elem_v (base_v ++ recs) /\
                   d2 = OSlice elem_p (base_p ++ (OPtr <$> recs))
  | Err e1, Err e2 => e1 = e2
  | Panic, Panic => True
  | _, _ => False
  end.
Proof.
  intros Hne. unfold scan_post.
  rewrite bool_decide_eq_false_2 by (by destruct rows).
  pose proof (scan_rows_ptrResults m modelT (make_scanCols columns) rows None
                (zero_object modelT) base_v base_p []) as Hrows.
  rewrite fmap_nil, !app_nil_r in Hrows.
  destruct (scan_rows m modelT false _ _ rows) as [[pk1 res1 sl1]| |],
           (scan_rows m modelT true _ _ rows) as [[pk2 res2 sl2]| |]; simpl in *; try done.
  destruct Hrows as (-> & -> & recs' & -> & ->).
  exists (recs' ++ [res2]). by rewrite fmap_app, !app_assoc.
Qed.

Lemma scan_row_extends m modelT ptrResults scanCols st row st' :
  scan_row m modelT ptrResults scanCols st row = Ok st' ->
  exists recs, sc_sliceV st' = sc_sliceV st ++ recs.
Proof.
  unfold scan_row. generalize (unmarshalTableValue (Some (Value row))). intros um.
  destruct (match sc_primaryKey st with
            | Some p => negb (HasPrefix (Key row) p) | None => false end).
  - destruct (decodePrimaryKey m (slice_bytes (sc_primaryKey st)) (zero_object modelT))
      as [res' [k|e|]]; simpl; try done.
    destruct (decodePrimaryKey m (Key row) res') as [res2 [col|e|]]; simpl; try done.
    destruct (filtered_out scanCols _); [intros [= <-]; by eexists|].
    destruct (fields m !! _) as [f|]; [|done].
    destruct (FieldByIndex res2 (Index f)) as [fv| |]; simpl; try done.
    destruct (um fv) as [fv'| |]; simpl; try done.
    intros [= <-]. by eexists.
  - simpl.
    destruct (decodePrimaryKey m (Key row) (sc_result st)) as [res2 [col|e|]]; simpl; try done.
    destruct (filtered_out scanCols _); [intros [= <-]; exists []; by rewrite app_nil_r|].
    destruct (fields m !! _) as [f|]; [|done].
    destruct (FieldByIndex res2 (Index f)) as [fv| |]; simpl; try done.
    destruct (um fv) as [fv'| |]; simpl; try done.
    intros [= <-]. exists []. by rewrite app_nil_r.
Qed.

Lemma scan_rows_extends m modelT ptrResults scanCols rows st st' :
  scan_rows m modelT ptrResults scanCols st rows = Ok st' ->
  exists recs, sc_sliceV st' = sc_sliceV st ++ recs.
Proof.
  revert st. induction rows as [|row rows IH]; intros st; simpl.
  - intros [= <-]. exists []. by rewrite app_nil_r.
  - destruct (scan_row m modelT ptrResults scanCols st row) as [st1| |] eqn:Hrow;
      simpl; try done.
    apply scan_row_extends in Hrow as [recs1 Hr1].
    intros [recs2 ->]%IH. exists (recs1 ++ recs2). by rewrite Hr1, app_assoc.
Qed.

(** X22. The step of a scan appends to the destination slice as it is when
    the step runs: an empty reply leaves it as it is, and a reply with rows
    that the step accepts stores the slice it finds followed by at least
    one record.  What an earlier step of the batch appended to the same
    destination is kept. *)
Theorem ScanStruct_step_appends_to_current_slice b dest start end_ maxRows columns b' :
  ScanStruct b dest start end_ maxRows columns = Ok b' ->
  refused b b' \/
  exists c post,
    b' = initResult (append_calls b [c]) 1 0 None /\ Post c = Some post /\
    (forall d, post (ScanResponse []) d = Ok d) /\
    (forall rows elem items dest',
       rows <> [] -> post (ScanResponse rows) (OSlice elem items) = Ok dest' ->
       exists recs, recs <> [] /\ dest' = OSlice elem (items ++ recs)) /\
    (forall rows1 rows2 elem items dest1 dest2,
       rows1 <> [] -> rows2 <> [] ->
       post (ScanResponse rows1) (OSlice elem items) = Ok dest1 ->
       post (ScanResponse rows2) dest1 = Ok dest2 ->
       exists recs1 recs2,
         recs1 <> [] /\ recs2 <> [] /\ dest2 = OSlice elem (items ++ recs1 ++ recs2)).
Proof.
  unfold ScanStruct.
  destruct (negb (is_ptr (TypeOf dest))); [intros [= <-]; left; apply refused_initResult|].
  destruct (Indirect dest) as [| | |elem0 items0| |];
    try (intros [= <-]; left; apply refused_initResult).
  destruct (getModel _ _ false) as [m|e|];
    [|intros [= <-]; left; apply refused_initResult|done].
  destruct (Type_ (Indirect start)) as [startT| |]; cbn [obind]; try done.
  destruct (negb (bool_decide _)); [intros [= <-]; left; apply refused_initResult|].
  destruct (Type_ (Indirect end_)) as [endT| |]; cbn [obind]; try done.
  destruct (negb (bool_decide _)); [intros [= <-]; left; apply refused_initResult|].
  destruct (encodePrimaryKey m (Indirect start)) as [startKey|e|];
    [|intros [= <-]; left; apply refused_initResult|done].
  destruct (encodePrimaryKey m (Indirect end_)) as [endKey|e|];
    [|intros [= <-]; left; apply refused_initResult|done].
  intros [= <-]. right. eexists _, _. split; [reflexivity|]. split; [reflexivity|].
  set (modelT := if is_ptr elem0 then deref elem0 else elem0).
  assert (forall rows elem items dest',
            rows <> [] ->
            scan_step m modelT (is_ptr elem0) columns (ScanResponse rows)
              (OSlice elem items) = Ok dest' ->
            exists recs, recs <> [] /\ dest' = OSlice elem (items ++ recs)) as Hstep.
  { intros rows elem items dest' Hne. unfold scan_step, scan_post.
    rewrite bool_decide_eq_false_2 by (by destruct rows).
    destruct (scan_rows _ _ _ _ _ rows) as [st'| |] eqn:Hrows; cbn [obind]; try done.
    apply scan_rows_extends in Hrows as [recs Hrecs]. simpl in Hrecs.
    intros [= <-]. exists (recs ++ [scan_element (is_ptr elem0) (sc_result st')]).
    split; [by destruct recs|]. by rewrite Hrecs, app_assoc. }
  split; [by intros []|]. split; [exact Hstep|].
  intros rows1 rows2 elem items dest1 dest2 Hne1 Hne2 H1 H2.
  apply Hstep in H1 as (recs1 & Hr1 & ->); [|done].
  apply Hstep in H2 as (recs2 & Hr2 & ->); [|done].
  exists recs1, recs2. by rewrite app_assoc.
Qed.

End Scans.

(** ** Primary keys and column keys *)

Section Keys.
Context `{Encoding} `{Float32} `{!EncodingLaws}.

Lemma encodePrimaryKey_loop_extends m cols key o pk :
  encodePrimaryKey_loop m cols key o = Ok pk -> exists suffix, pk = key ++ suffix.
Proof.
  revert key. induction cols as [|col cols IH]; intros key; simpl.
  - intros [= <-]. exists []. by rewrite app_nil_r.
  - destruct (fields m !! col) as [f|]; [|done].
    destruct (FieldByIndex o (Index f)) as [fv| |]; simpl; try done.
    rewrite encodeTableKey_app.
    destruct (encodeTableKey [] fv) as [k| |]; simpl; try done.
    intros [suffix ->]%IH. exists (k ++ suffix). by rewrite app_assoc.
Qed.

Lemma decodePrimaryKey_loop_app m pre post key v :
  decodePrimaryKey_loop m (pre ++ post) key v =
  match decodePrimaryKey_loop m pre key v with
  | (v', Ok key') => decodePrimaryKey_loop m post key' v'
  | r => r
  end.
Proof.
  revert key v. induction pre as [|col pre IH]; intros key v; simpl; [done|].
  destruct (fields m !! col) as [f|]; [|done].
  destruct (let! fv := FieldByIndex v (Index f) in decodeTableKey key fv)
    as [[key' fv']| |]; try done.
Qed.

(** X15. A key of one table is not decoded as a key of another: the key
    built for a record of the model [m1], with anything after it, is
    refused by [decodePrimaryKey] of a model with another table name, with
    the name found in the key, and the record handed in is not touched. *)
Theorem decodePrimaryKey_other_table m1 m2 o pk rest v :
  encodePrimaryKey m1 o = Ok pk -> name m1 <> name m2 ->
  decodePrimaryKey m2 (pk ++ rest) v =
    (v, Err (EUnexpectedTableName (name m2) (String.list_byte_of_string (name m1)))).
Proof.
  intros [suffix ->]%encodePrimaryKey_loop_extends Hne.
  unfold decodePrimaryKey. rewrite <- app_assoc, DecodeBytes_Encode.
  rewrite bool_decide_eq_false_2; [done|].
  by rewrite String.string_of_list_byte_of_string.
Qed.

(** X16. Decoding undoes encoding: the primary key of a record, followed by
    any bytes, decodes into a record of the same type with those bytes as
    the rest.  The primary-key fields of the destination receive the
    values of the record, the other fields keep theirs, and the
    destination then encodes to the same key. *)
Theorem primary_key_round_trip m st r r0 pk rest :
  has_type st r -> type_of <$> r0 = st_fields st ->
  encodePrimaryKey m (OStruct st r) = Ok pk ->
  exists r1,
    decodePrimaryKey m (pk ++ rest) (OStruct st r0) = (OStruct st r1, Ok rest) /\
    encodePrimaryKey m (OStruct st r1) = Ok pk /\
    forall i,
      r1 !! i = if bool_decide (i ∈ col_indices m (primaryKey m))
                then decoded <$> r !! i else r0 !! i.
Proof.
  intros [Ht Hwf] Ht0 Hpk.
  assert (length r0 = length r) as Hlen.
  { rewrite <- (length_fmap type_of r0), Ht0, <- Ht. apply length_fmap. }
  exists (copy_fields (col_indices m (primaryKey m)) r r0). repeat split.
  - apply decodePrimaryKey_encodePrimaryKey; [done|congruence|done].
  - by rewrite encodePrimaryKey_copy_fields.
  - intros i. by apply copy_fields_lookup.
Qed.

(** X17. The keys of the columns tell the records and the columns apart:
    when a column key of one record is a column key of another record of
    the table, the two records have the same primary key, with the same
    values in the primary-key fields, and the column is the same. *)
Theorem column_key_injective m st r r' pk pk' col col' :
  has_type st r -> has_type st r' ->
  encodePrimaryKey m (OStruct st r) = Ok pk ->
  encodePrimaryKey m (OStruct st r') = Ok pk' ->
  encodeColumnKey m pk col = encodeColumnKey m pk' col' ->
  pk = pk' /\ col = col' /\ pk_only m st r = pk_only m st r'.
Proof.
  intros Hr Hr' Hpk Hpk' Hkey. unfold encodeColumnKey in Hkey. simpl in Hkey.
  destruct (encodePrimaryKey_prefix_free m st r r' pk pk' _ _ Hr Hr' Hpk Hpk' Hkey)
    as [<- Hcol].
  split; [done|]. split.
  - apply (f_equal String.string_of_list_byte) in Hcol.
    by rewrite !String.string_of_list_byte_of_string in Hcol.
  - destruct Hr as [Ht Hwf], Hr' as [Ht' Hwf'].
    pose proof (decodePrimaryKey_encodePrimaryKey m st r (zero <$> st_fields st) pk []
                  Hwf ltac:(by rewrite type_of_zeros) Hpk) as Hd.
    pose proof (decodePrimaryKey_encodePrimaryKey m st r' (zero <$> st_fields st) pk []
                  Hwf' ltac:(by rewrite type_of_zeros) Hpk') as Hd'.
    rewrite Hd in Hd'. by injection Hd'.
Qed.

(** X18. [decodePrimaryKey] is not all-or-nothing: when the table name
    matches and a column of the primary key fails, for want of a field or
    by the codec, the error is returned and the record keeps the columns
    decoded before it. *)
Theorem decodePrimaryKey_keeps_decoded_columns m key key1 name' pre col post v v' key2 :
  DecodeBytes key = Some (key1, name') ->
  String.string_of_list_byte name' = name m ->
  primaryKey m = pre ++ col :: post ->
  decodePrimaryKey_loop m pre key1 v = (v', Ok key2) ->
  (fields m !! col = None ->
   decodePrimaryKey m key v = (v', Err (EUnableToFindField (name m) col))) /\
  (forall f fv e,
     fields m !! col = Some f -> FieldByIndex v' (Index f) = Ok fv ->
     decodeTableKey key2 fv = Err e ->
     decodePrimaryKey m key v = (v', Err e)).
Proof.
  intros Hkey Hname Hpk Hpre. unfold decodePrimaryKey.
  rewrite Hkey, bool_decide_eq_true_2 by done.
  rewrite Hpk, decodePrimaryKey_loop_app, Hpre. cbn [decodePrimaryKey_loop]. split.
  - by intros ->.
  - intros f fv e Hf Hfv Hd. rewrite Hf, Hfv. cbn [obind]. by rewrite Hd.
Qed.

(** X19. A primary-key column whose field is of a kind the key codec does
    not support is found only when a key is built: [encodePrimaryKey]
    returns the codec's error at the first such column, and an operation on
    the record is refused with it. *)
Theorem encodePrimaryKey_unsupported_kind b m o pre col post f fv key :
  primaryKey m = pre ++ col :: post ->
  encodePrimaryKey_loop m pre (EncodeBytes [] (String.list_byte_of_string (name m))) o
    = Ok key ->
  fields m !! col = Some f -> FieldByIndex o (Index f) = Ok fv ->
  key_kind (type_of fv) = false ->
  encodePrimaryKey m o = Err EUnableToEncodeKey /\
  (experimentalModels (bDB b) !! TypeOf o = Some m -> is_ptr (TypeOf o) = false ->
   forall columns,
     GetStruct b (OPtr o) columns = Ok (initResult b 0 0 (Some EUnableToEncodeKey)) /\
     PutStruct b o columns = Ok (initResult b 0 0 (Some EUnableToEncodeKey))).
Proof.
  intros Hpk Hpre Hf Hfv Hk.
  assert (encodePrimaryKey m o = Err EUnableToEncodeKey) as Henc.
  { unfold encodePrimaryKey. rewrite Hpk, encodePrimaryKey_loop_app, Hpre. simpl.
    rewrite Hf, Hfv. simpl. by destruct fv. }
  split; [done|]. intros Hm Hp columns.
  destruct (getModel_bound (bDB b) _ m Hp Hm) as [Hg Hgp].
  assert (o <> OInvalid) as Hv by (by destruct o).
  split.
  - unfold GetStruct. simpl. rewrite Hgp. simpl. by rewrite Henc.
  - unfold PutStruct. rewrite (Indirect_value o Hp), (Type__valid o Hv). simpl.
    by rewrite Hg, Henc.
Qed.

Lemma encodeTableKey_not_prefix v1 v2 k1 k2 t :
  wf_value v1 -> wf_value v2 -> type_of v1 = type_of v2 ->
  encodeTableKey [] v1 = Ok k1 -> encodeTableKey [] v2 = Ok k2 ->
  k2 = k1 ++ t -> k1 = k2.
Proof.
  intros Hw1 Hw2 Ht Hk1 Hk2 ->.
  pose proof (decodeTableKey_encodeTableKey v1 v1 k1 t Hw1 eq_refl Hk1) as Hd1.
  pose proof (decodeTableKey_encodeTableKey v2 v1 (k1 ++ t) [] Hw2 Ht Hk2) as Hd2.
  rewrite app_nil_r in Hd2. rewrite Hd1 in Hd2. injection Hd2 as -> _.
  by rewrite app_nil_r.
Qed.

(** X20. The keys of a table sort by the first column of the primary key:
    when the value of that column in one record is below the value in
    another, every key that starts with the primary key of the first
    record sorts before every key that starts with the primary key of the
    second, whatever the later columns hold.  The column keys of a record
    are such keys. *)
Theorem keys_sorted_by_first_primary_key_column m st r1 r2 pk1 pk2 col cols f v1 v2 :
  primaryKey m = col :: cols -> fields m !! col = Some f ->
  r1 !! Index f = Some v1 -> r2 !! Index f = Some v2 ->
  wf_value v1 -> wf_value v2 -> value_lt v1 v2 ->
  encodePrimaryKey m (OStruct st r1) = Ok pk1 ->
  encodePrimaryKey m (OStruct st r2) = Ok pk2 ->
  (forall rest1 rest2, bytes_lt (pk1 ++ rest1) (pk2 ++ rest2)) /\
  (forall c1 c2, bytes_lt (encodeColumnKey m pk1 c1) (encodeColumnKey m pk2 c2)).
Proof.
  intros Hpk Hf Hv1 Hv2 Hw1 Hw2 Hlt Hk1 Hk2.
  assert (forall rest1 rest2, bytes_lt (pk1 ++ rest1) (pk2 ++ rest2)) as Hall.
  { unfold encodePrimaryKey in Hk1, Hk2. rewrite Hpk in Hk1, Hk2. simpl in Hk1, Hk2.
    rewrite Hf in Hk1, Hk2. rewrite Hv1 in Hk1. rewrite Hv2 in Hk2. simpl in Hk1, Hk2.
    rewrite encodeTableKey_app in Hk1, Hk2.
    destruct (encodeTableKey [] v1) as [k1| |] eqn:He1; try done.
    destruct (encodeTableKey [] v2) as [k2| |] eqn:He2; try done.
    simpl in Hk1, Hk2.
    apply encodePrimaryKey_loop_extends in Hk1 as [s1 ->].
    apply encodePrimaryKey_loop_extends in Hk2 as [s2 ->].
    intros rest1 rest2. unfold bytes_lt. rewrite <- !app_assoc, bytes_ltb_app_l.
    apply bytes_ltb_app.
    - by apply (encodeTableKey_lt v1 v2).
    - intros t Ht.
      assert (type_of v1 = type_of v2) as Hty.
      { destruct v1, v2; simpl in Hlt; try done; destruct Hlt as [-> _]; done. }
      pose proof (encodeTableKey_not_prefix v1 v2 k1 k2 t Hw1 Hw2 Hty He1 He2 Ht) as ->.
      pose proof (encodeTableKey_lt v1 v2 k2 k2 Hw1 Hw2 Hlt He1 He2) as Hirr.
      unfold bytes_lt in Hirr. by rewrite bytes_ltb_irrefl in Hirr. }
  split; [done|]. intros c1 c2. unfold encodeColumnKey. simpl. apply Hall.
Qed.

(** X21. The key codec does not check that a key element fits the field
    it is decoded into: the element encoded from an integer field decodes
    into an integer field of any width, truncated to that width, and into
    a boolean field as "not zero". *)
Theorem decodeTableKey_into_narrower_field k1 i key rest :
  is_int64 i -> encodeTableKey [] (VInt k1 i) = Ok key ->
  (forall k2 d,
     decodeTableKey (key ++ rest) (VInt k2 d) =
     Ok (rest, VInt k2 (wrap_signed (int_bits k2) i))) /\
  (forall d, decodeTableKey (key ++ rest) (VBool d) = Ok (rest, VBool (negb (i =? 0)))).
Proof.
  intros Hi [= <-]. split; intros; simpl; by rewrite DecodeVarint_Encode.
Qed.

End Keys.

(** ** The theorems at the example *)

Import KV.
#[local] Existing Instance SpecEncoding.encoding.
#[local] Existing Instance no_narrowing.

Lemma kv_rows_of_keys : rows_of_keys kv_model kv_st kv_rows kv_src.
Proof.
  constructor; [|constructor; [|constructor]].
  - exists (kv "a" ""). repeat split. repeat constructor.
  - exists (kv "c" ""). repeat split. repeat constructor.
Qed.

Lemma kv_rows_ascending : keys_ascending kv_rows.
Proof. repeat constructor. Qed.

(** C1, the claim as stated fails: the reply holds one row for the primary
    key of [{a}], sorted and with a key of the right shape, and the
    post-processing step returns an error, so that no record is appended. *)
Lemma scan_post_refuses_mismatched_value :
  rows_of_keys kv_model kv_st kv_rows_mismatch
    [(kv_pk "a", String.list_byte_of_string "V")] /\
  keys_ascending kv_rows_mismatch /\
  scan_step kv_model (GStruct kv_st) false [] (ScanResponse kv_rows_mismatch) kv_dest
    = Err EUnmarshalInteger.
Proof.
  split; [|split].
  - constructor; [|constructor]. exists (kv "a" ""). repeat split. repeat constructor.
  - repeat constructor.
  - reflexivity.
Qed.

(** The scan of the example: the reply has one run for [{a}] and one for
    [{c}], and the step stores [{a, b}] and [{c, d}], in that order. *)
Lemma scan_post_groups_kv_rows :
  group_rows (keyed kv_src kv_rows) =
    [(kv_pk "a", [(String.list_byte_of_string "V", kv_row "a" "V" "b")]);
     (kv_pk "c", [(String.list_byte_of_string "V", kv_row "c" "V" "d")])] /\
  scan_step kv_model (GStruct kv_st) false [] (ScanResponse kv_rows) kv_dest
    = Ok kv_scanned /\
  (exists recs,
     kv_scanned =
       OSlice (GStruct kv_st) ([] ++ (scan_element false <$> (OStruct kv_st <$> recs))) /\
     Forall2 (fun run rec => rebuild kv_model (make_scanCols []) kv_st run.1 run.2 = Ok rec)
       (group_rows (keyed kv_src kv_rows)) recs) /\
  StronglySorted bytes_lt (group_rows (keyed kv_src kv_rows)).*1 /\
  encodePrimaryKey kv_model (OStruct kv_st (kv "a" "b")) = Ok (kv_pk "a").
Proof.
  assert (scan_step kv_model (GStruct kv_st) false [] (ScanResponse kv_rows) kv_dest
          = Ok kv_scanned) as Hpost by reflexivity.
  destruct (scan_post_groups_by_primary_key (H1:=SpecEncodingLaws.laws)
              kv_model kv_st false [] (GStruct kv_st) [] kv_rows kv_src
              kv_scanned kv_rows_of_keys kv_rows_ascending Hpost)
    as (_ & Hrecs & _ & _ & Hsorted & _ & _ & Hkey).
  split; [reflexivity|]. split; [exact Hpost|]. split; [apply Hrecs; discriminate|].
  split; [exact Hsorted|].
  apply (Hkey (kv_pk "a") [] (String.list_byte_of_string "V", kv_row "a" "V" "b")).
  - left.
  - reflexivity.
  - right. intros f [= <-]. simpl. intros [E|E%elem_of_nil]%elem_of_cons; done.
Defined.


(** The codec at an [int8] and at two [int64] of different signs. *)
Lemma key_codec_at_integers :
  (exists k v',
     encodeTableKey [] (VInt KInt8 (-3)) = Ok k /\
     decodeTableKey k (VInt KInt8 0) = Ok ([], v') /\
     same_value v' (VInt KInt8 (-3))) /\
  (exists k1 k2,
     encodeTableKey [] (VInt KInt64 (-1)) = Ok k1 /\
     encodeTableKey [] (VInt KInt64 0) = Ok k2 /\ bytes_lt k1 k2).
Proof.
  destruct (key_codec_round_trip_and_order (H1:=SpecEncodingLaws.laws)) as [Hrt Hord].
  split.
  - apply Hrt; [reflexivity|simpl; lia|reflexivity].
  - apply Hord; simpl; try lia. split; [reflexivity|lia].
Defined.

(** C5, the claim as stated fails: "nope" is not a field of the record type
    and [BindModel] succeeds with it as the primary key. *)
Lemma BindModel_accepts_unknown_primary_key :
  kv_fields !! "nope" = None /\
  (BindModel kv_getDBFields empty_db "kv" (OStruct kv_st (kv "" "")) ["nope"]).2 = Ok ().
Proof. split; reflexivity. Qed.

Lemma BindModel_unknown_primary_key_kv :
  exists m,
    BindModel kv_getDBFields empty_db "kv" (OStruct kv_st (kv "" "")) ["nope"] =
      ({| experimentalModels := <[GStruct kv_st := m]> ∅ |}, Ok ()) /\
    primaryKey m = ["nope"] /\
    encodePrimaryKey m (OStruct kv_st (kv "a" "b")) = Err (EUnableToFindField "kv" "nope").
Proof.
  destruct (BindModel_primary_key_unchecked kv_getDBFields empty_db "kv"
              (OStruct kv_st (kv "" "")) ["nope"] kv_fields ltac:(discriminate)
              eq_refl eq_refl)
    as (m & Hb & _ & _ & Hpk & Herr).
  exists m. split; [exact Hb|]. split; [exact Hpk|].
  apply (Herr (OStruct kv_st (kv "a" "b")) [] "nope" [] _ eq_refl eq_refl eq_refl).
Defined.

(** C6, the claim as stated fails: the table name "kv" is bound to [KV], and
    binding it to [KV2], another record type, succeeds. *)
Lemma BindModel_accepts_bound_table_name :
  name <$> experimentalModels kv_db !! GStruct kv_st = Some "kv" /\
  GStruct kv2_st <> GStruct kv_st /\
  (BindModel kv_getDBFields kv_db "kv" (OStruct kv2_st (kv "" "")) ["K"]).2 = Ok ().
Proof. split; [|split]; [reflexivity|discriminate|reflexivity]. Qed.

(** Binding [KV] a second time, through a pointer and to another name. *)
Lemma BindModel_twice_kv :
  BindModel kv_getDBFields kv_db "kv2" (OPtr (OStruct kv_st (kv "" ""))) ["K"] =
    (kv_db, Err (EAlreadyDefined "kv2")).
Proof.
  destruct (BindModel_type_uniqueness kv_getDBFields kv_db "kv2"
              (OPtr (OStruct kv_st (kv "" ""))) ["K"] ltac:(discriminate))
    as (Hdup & _ & _).
  apply (Hdup kv_model). reflexivity.
Defined.

(** A key of the table "kv" handed to the model of the table "users", and a
    key of [{a, b}] decoded by the model with the primary key [K], [V] into
    [{x, y}]. *)
Lemma decodePrimaryKey_kv_key :
  decodePrimaryKey Examples.users_model (kv_key "a" "V") (OStruct kv_st (kv "x" "y")) =
    (OStruct kv_st (kv "x" "y"),
     Err (EUnexpectedTableName "users" (String.list_byte_of_string "kv"))) /\
  exists r1,
    decodePrimaryKey Examples.kv_all_model
      (EncodeBytes [] (String.list_byte_of_string "kv") ++
       mjoin [EncodeBytes [] (String.list_byte_of_string "a");
              EncodeBytes [] (String.list_byte_of_string "b")] ++
       String.list_byte_of_string "W")
      (OStruct kv_st (kv "x" "y")) =
      (OStruct kv_st r1, Ok (String.list_byte_of_string "W")) /\
    r1 !! 0%nat = Some (VString "a") /\ r1 !! 1%nat = Some (VString "b").
Proof.
  split.
  - refine (proj1 (decodePrimaryKey_checks_table_name (H1:=SpecEncodingLaws.laws)
                     Examples.users_model) (kv_key "a" "V") (OStruct kv_st (kv "x" "y"))
              _ (String.list_byte_of_string "kv") _ _); [reflexivity|discriminate].
  - destruct (proj2 (decodePrimaryKey_checks_table_name (H1:=SpecEncodingLaws.laws)
                       Examples.kv_all_model) kv_st (kv "a" "b") (kv "x" "y")
                [EncodeBytes [] (String.list_byte_of_string "a");
                 EncodeBytes [] (String.list_byte_of_string "b")]
                (String.list_byte_of_string "W"))
      as (r1 & Hdec & Hpk & _).
    + split; [reflexivity|repeat constructor].
    + reflexivity.
    + constructor; [by exists {| Index := 0 |}, (VString "a")|].
      constructor; [by exists {| Index := 1 |}, (VString "b")|constructor].
    + exists r1. split; [exact Hdec|]. split.
      * apply (Hpk "K" {| Index := 0 |}); [left|reflexivity].
      * apply (Hpk "V" {| Index := 1 |}); [right; left|reflexivity].
Defined.

(** The float [1.0] as a value and as a key. *)
Lemma float_one_is_bit_pattern :
  marshalTableValue (VFloat KFloat64 4607182418800017408) =
    Ok {| Bytes := None; Integer := Some 4607182418800017408 |} /\
  unmarshalTableValue (Some {| Bytes := None; Integer := Some 4607182418800017408 |})
    (VFloat KFloat64 0) = Ok (VFloat KFloat64 4607182418800017408).
Proof.
  destruct (float_value_is_bit_pattern KFloat64 4607182418800017408) as (Hm & Hu & _).
  - simpl. lia.
  - split; [exact Hm|]. apply Hu. exact Hm.
Defined.

(** The column keys "V" and "W" of [{a}], built from one primary key. *)
Lemma encodeColumnKey_kv_heap :
  let r := Slices.encodeColumnKeys double_cap kv_heap kv_pk_slice ["V"; "W"] in
  Forall2 (fun key col =>
             Slices.slice_read r.1 key =
             encodeColumnKey kv_model (Slices.slice_read kv_heap kv_pk_slice) col)
    r.2 ["V"; "W"] /\
  NoDup (omap Slices.s_arr r.2) /\
  Slices.slice_read r.1 kv_pk_slice = Slices.slice_read kv_heap kv_pk_slice.
Proof.
  intros r.
  destruct (encodeColumnKey_leaves_primary_key double_cap kv_heap kv_pk_slice kv_model)
    as (_ & Hkeys).
  - exists (kv_pk "a"). split; [reflexivity|]. simpl. lia.
  - destruct (Hkeys ["V"; "W"]) as (Hall & Hnd & _ & _ & Hpk). done.
Defined.

(** *** The operations at the example *)

Lemma kv_db_wf : wf_registry kv_db.
Proof.
  intros t m Hm.
  change (experimentalModels kv_db) with (<[GStruct kv_st := kv_model]> (∅ : gmap gotype model))
    in Hm.
  apply lookup_insert_Some in Hm as [[<- <-]|[_ Hm]]; [|by rewrite lookup_empty in Hm].
  exists kv_st. split; [done|]. intros col f Hf. simpl in *. unfold kv_fields in Hf.
  apply lookup_insert_Some in Hf as [[_ <-]|[_ Hf]]; [simpl; lia|].
  apply lookup_insert_Some in Hf as [[_ <-]|[_ Hf]]; [simpl; lia|].
  by rewrite lookup_empty in Hf.
Qed.

(** C4, the claim as stated fails: the nil pointer to a [KV] is a pointer,
    its type is bound, the columns asked for are columns of the model and
    the key builder returns no error; [GetStruct] and [PutStruct] neither
    record an error nor append a call: they panic. *)
Lemma GetStruct_nil_pointer_panics :
  is_ptr (TypeOf (ONilPtr (GStruct kv_st))) = true /\
  experimentalModels kv_db !! deref (TypeOf (ONilPtr (GStruct kv_st))) = Some kv_model /\
  columns_known kv_model (effective_columns kv_model []) /\
  (forall e, encodePrimaryKey kv_model (Indirect (ONilPtr (GStruct kv_st))) <> Err e) /\
  GetStruct kv_batch (ONilPtr (GStruct kv_st)) [] = Panic /\
  PutStruct kv_batch (ONilPtr (GStruct kv_st)) [] = Panic.
Proof.
  split; [reflexivity|]. split; [reflexivity|]. split.
  - constructor; [by eexists|constructor].
  - split; [discriminate|]. split; reflexivity.
Qed.

(** Reading and writing [{a, b}] on the registry of the example queue one
    call; reading its columns [V] and [W], of which the second is no column
    of the model, is refused. *)
Lemma structured_operations_kv :
  (exists new,
     GetStruct kv_batch (OPtr (OStruct kv_st (kv "a" "b"))) [] =
       Ok (initResult (append_calls kv_batch new) (length new) (length new) None) /\
     length new = 1%nat) /\
  (exists new,
     PutStruct kv_batch (OStruct kv_st (kv "a" "b")) [] =
       Ok (initResult (append_calls kv_batch new) (length new) (length new) None) /\
     length new = 1%nat) /\
  (exists e,
     GetStruct kv_batch (OPtr (OStruct kv_st (kv "a" "b"))) ["V"; "W"] =
       Ok (initResult kv_batch 0 0 (Some e))).
Proof.
  destruct (structured_operations_all_or_nothing kv_batch) as (Hget & Hput & _).
  split; [|split].
  - apply (proj1 (Hget (OPtr (OStruct kv_st (kv "a" "b"))) []) kv_model).
    split; [reflexivity|]. split; [reflexivity|]. split; [by eexists|].
    constructor; [by eexists|constructor].
  - apply (proj1 (Hput (OStruct kv_st (kv "a" "b")) []) kv_model); [discriminate|].
    split; [reflexivity|]. split; [by eexists|]. split.
    + constructor; [by eexists|constructor].
    + constructor; [|constructor]. intros f [= <-]. by eexists _, _.
  - apply (proj1 (proj2 (Hget (OPtr (OStruct kv_st (kv "a" "b"))) ["V"; "W"]))).
    + exact kv_db_wf.
    + discriminate.
    + split; [reflexivity|]. repeat constructor; discriminate.
    + intros m (_ & Hm & _ & Hk).
      change (Some kv_model = Some m) in Hm. injection Hm as <-.
      change (effective_columns kv_model ["V"; "W"]) with ["V"; "W"] in Hk.
      apply Forall_cons in Hk as [_ Hk]. apply Forall_cons in Hk as [[f Hf] _].
      change (None = Some f) in Hf. discriminate Hf.
Defined.

(** Reading [{a}] asks for its only other column, under the key of that
    column. *)
Example GetStruct_kv :
  (fun b => (Args <$> calls b, Results b)) <$>
    of_outcome (GetStruct kv_batch (OPtr (OStruct kv_st (kv "a" ""))) []) =
  Some ([GetRequest (kv_key "a" "V")],
        [{| res_calls := 1; res_rows := 1; res_Err := None |}]).
Proof. reflexivity. Qed.

(** A record handed to [GetStruct] by value, and a column the model does not
    have: an error is recorded and no call is issued. *)
Example GetStruct_kv_refused :
  (fun b => (Args <$> calls b, Results b)) <$>
    of_outcome (GetStruct kv_batch (OStruct kv_st (kv "a" "")) []) =
  Some ([], [{| res_calls := 0; res_rows := 0; res_Err := Some EPointerRequired |}]) /\
  (fun b => (Args <$> calls b, Results b)) <$>
    of_outcome (GetStruct kv_batch (OPtr (OStruct kv_st (kv "a" ""))) ["V"; "W"]) =
  Some ([], [{| res_calls := 0; res_rows := 0;
                res_Err := Some (EUnableToFindField "kv" "W") |}]).
Proof. split; reflexivity. Qed.

(** Writing [{a, b}] puts the bytes of "b" under the key of the column. *)
Example PutStruct_kv :
  (fun b => (Args <$> calls b, Results b)) <$>
    of_outcome (PutStruct kv_batch (OStruct kv_st (kv "a" "b")) []) =
  Some ([PutRequest (kv_key "a" "V")
           {| Bytes := Some (String.list_byte_of_string "b"); Integer := None |}],
        [{| res_calls := 1; res_rows := 1; res_Err := None |}]).
Proof. reflexivity. Qed.

(** Reading back the deleted column [V] of [{a, b}] leaves the empty string
    in the field. *)
Example get_post_deleted_column :
  get_post {| Index := 1 |} (GetResponse None) (OStruct kv_st (kv "a" "b")) =
  Ok (OStruct kv_st (kv "a" "")).
Proof. reflexivity. Qed.

(** The integer codec of the model around zero. *)
Example EncodeVarint_examples :
  SpecEncoding.EncodeVarint [] (-256) = [x06; xff; x00] /\
  SpecEncoding.EncodeVarint [] (-1) = [x07; xff] /\
  SpecEncoding.EncodeVarint [] 0 = [x08] /\
  SpecEncoding.EncodeVarint [] 1 = [x09; x01] /\
  SpecEncoding.EncodeVarint [] 256 = [x0a; x01; x00].
Proof. repeat split. Qed.

(** ** The further properties at the examples *)

Import Examples.

(** The largest [uint64] travels as [-1] and comes back. *)
Lemma marshal_unmarshal_uint64_max :
  exists pv,
    marshalTableValue (VUint KUint64 18446744073709551615) = Ok pv /\
    unmarshalTableValue (Some pv) (VUint KUint64 0) = Ok (VUint KUint64 18446744073709551615).
Proof.
  apply marshal_unmarshal_round_trip; [reflexivity|simpl; lia|reflexivity].
Defined.

(** An empty value read into a [float32] field that holds [1.0]. *)
Lemma unmarshal_empty_value_float32 :
  unmarshalTableValue (Some {| Bytes := None; Integer := None |})
    (VFloat KFloat32 4607182418800017408) =
  unmarshalTableValue None (VFloat KFloat32 4607182418800017408).
Proof.
  apply unmarshal_empty_value_is_zero; reflexivity.
Defined.

(** [KV] bound through a pointer is found by the record type and by the
    pointer type. *)
Lemma BindModel_then_getModel_kv :
  exists m,
    getModel kv_db (GStruct kv_st) false = Ok m /\
    getModel kv_db (GPtr (GStruct kv_st)) false = Ok m /\
    getModel kv_db (GPtr (GStruct kv_st)) true = Ok m /\
    name m = "kv" /\ primaryKey m = ["K"] /\
    kv_getDBFields (GStruct kv_st) = Ok (fields m) /\
    forall t' p, deref t' <> GStruct kv_st -> getModel kv_db t' p = getModel empty_db t' p.
Proof.
  apply (BindModel_then_getModel kv_getDBFields empty_db "kv"
           (OPtr (OStruct kv_st (kv "" ""))) ["K"] kv_db); reflexivity.
Defined.

(** The other columns of [KV] with the primary key [K]: [V] alone. *)
Lemma BindModel_otherColumns_kv :
  NoDup (otherColumns kv_model) /\
  forall col,
    col ∈ otherColumns kv_model <-> is_Some (fields kv_model !! col) /\ col ∉ ["K"].
Proof.
  apply (BindModel_otherColumns kv_getDBFields empty_db "kv"
           (OStruct kv_st (kv "" "")) ["K"] kv_db kv_model); reflexivity.
Defined.

(** [{a, b}] handed by value. *)
Lemma pointer_required_kv :
  (forall columns,
     GetStruct kv_batch (OStruct kv_st (kv "a" "b")) columns =
       Ok (initResult kv_batch 0 0 (Some EPointerRequired))) /\
  (forall columns,
     PutStruct kv_batch (OPtr (OStruct kv_st (kv "a" "b"))) columns =
     PutStruct kv_batch (OStruct kv_st (kv "a" "b")) columns).
Proof.
  destruct (pointer_required_only_to_write_back kv_batch (OStruct kv_st (kv "a" "b")))
    as (Hget & _ & Hput & _); [reflexivity|discriminate|].
  split; [exact Hget|exact Hput].
Defined.

(** The calls of the three column-wise operations on [{a, b}]. *)
Lemma column_operations_kv :
  (forall b', GetStruct kv_batch (OPtr (OStruct kv_st (kv "a" "b"))) [] = Ok b' ->
     refused kv_batch b' \/
     exists cs,
       b' = initResult (append_calls kv_batch cs) 1 1 None /\
       Forall2 (fun c col => exists f, fields kv_model !! col = Some f /\
                  c = {| Args := GetRequest (encodeColumnKey kv_model (kv_pk "a") col);
                         Post := Some (get_post f) |}) cs ["V"]) /\
  (forall b', PutStruct kv_batch (OStruct kv_st (kv "a" "b")) [] = Ok b' ->
     refused kv_batch b' \/
     exists cs,
       b' = initResult (append_calls kv_batch cs) 1 1 None /\
       Forall2 (fun c col => exists f fv pv,
                  fields kv_model !! col = Some f /\
                  FieldByIndex (OStruct kv_st (kv "a" "b")) (Index f) = Ok fv /\
                  marshalTableValue fv = Ok pv /\
                  c = {| Args := PutRequest (encodeColumnKey kv_model (kv_pk "a") col) pv;
                         Post := None |}) cs ["V"]) /\
  (forall b', DelStruct kv_batch (OStruct kv_st (kv "a" "b")) [] = Ok b' ->
     refused kv_batch b' \/
     exists cs,
       b' = initResult (append_calls kv_batch cs) 1 1 None /\
       Forall2 (fun c col => is_Some (fields kv_model !! col) /\
                  c = Delete (encodeColumnKey kv_model (kv_pk "a") col)) cs ["V"]).
Proof.
  apply (column_operations_address_column_keys kv_batch (OStruct kv_st (kv "a" "b"))
           kv_model (kv_pk "a") []); [reflexivity|discriminate|reflexivity|reflexivity].
Defined.

(** [{a, b}] written, and its column [V] read into [{a, ""}]. *)
Lemma PutStruct_then_GetStruct_kv :
  exists pv post,
    PutStruct kv_batch (OStruct kv_st (kv "a" "b")) ["V"] =
      Ok (initResult
            (append_calls kv_batch [{| Args := PutRequest (kv_key "a" "V") pv;
                                       Post := None |}]) 1 1 None) /\
    GetStruct kv_batch (OPtr (OStruct kv_st (kv "a" ""))) ["V"] =
      Ok (initResult
            (append_calls kv_batch [{| Args := GetRequest (kv_key "a" "V");
                                       Post := Some post |}]) 1 1 None) /\
    post (GetResponse (Some pv)) (OStruct kv_st (kv "a" "")) =
      Ok (OStruct kv_st (kv "a" "b")).
Proof.
  apply (PutStruct_then_GetStruct_column kv_batch kv_st (kv "a" "b") (kv "a" "") kv_model
           (kv_pk "a") "V" {| Index := 1 |} (VString "b") (VString "")); reflexivity.
Defined.

(** The counter [Hits] of the account 7 is an [int8]: the new value 200
    is stored as -56.  An increment of [Note], a string, is queued all the
    same, and its step fails. *)
Lemma IncStruct_account :
  (exists post,
     IncStruct acct_batch (OPtr (OStruct acct_st (acct 7 0 ""))) 1 "Hits" =
       Ok (initResult
             (append_calls acct_batch
                [{| Args := IncrementRequest
                              (acct_pk 7 ++ String.list_byte_of_string "Hits") 1;
                    Post := Some post |}]) 1 1 None) /\
     post (IncrementResponse 200) (OStruct acct_st (acct 7 0 "")) =
       Ok (OStruct acct_st (acct 7 (-56) ""))) /\
  (exists post,
     IncStruct acct_batch (OPtr (OStruct acct_st (acct 7 0 ""))) 1 "Note" =
       Ok (initResult
             (append_calls acct_batch
                [{| Args := IncrementRequest
                              (acct_pk 7 ++ String.list_byte_of_string "Note") 1;
                    Post := Some post |}]) 1 1 None) /\
     post (IncrementResponse 1) (OStruct acct_st (acct 7 0 "")) = Err EUnmarshalInteger).
Proof.
  split.
  - destruct (IncStruct_any_column (H:=SpecEncoding.encoding) (H0:=no_narrowing)
                acct_batch (OStruct acct_st (acct 7 0 "")) acct_model
                (acct_pk 7) "Hits" {| Index := 1 |} 1 eq_refl eq_refl
                ltac:(reflexivity) eq_refl)
      as (post & Hinc & Hint & _).
    exists post. split; [exact Hinc|].
    apply (Hint acct_st (acct 7 0 "") KInt8 0 200 eq_refl).
  - destruct (IncStruct_any_column (H:=SpecEncoding.encoding) (H0:=no_narrowing)
                acct_batch (OStruct acct_st (acct 7 0 "")) acct_model
                (acct_pk 7) "Note" {| Index := 2 |} 1 eq_refl eq_refl
                ltac:(reflexivity) eq_refl)
      as (post & Hinc & _ & Hstr).
    exists post. split; [exact Hinc|].
    apply (Hstr acct_st (acct 7 0 "") (VString "") 1 eq_refl eq_refl).
Defined.

(** The scan of the example into a slice of records and into a slice of
    pointers. *)
Lemma scan_post_pointer_results_kv :
  exists recs,
    kv_scanned = OSlice (GStruct kv_st) ([] ++ recs) /\
    kv_scanned_ptr = OSlice (GPtr (GStruct kv_st)) ([] ++ (OPtr <$> recs)).
Proof.
  exact (scan_post_pointer_results kv_model (GStruct kv_st) [] (GStruct kv_st)
           (GPtr (GStruct kv_st)) [] [] kv_rows kv_dest kv_dest_ptr ltac:(discriminate)).
Defined.

(** A key of the table "kv" handed to the model of the table "users". *)
Lemma decodePrimaryKey_users :
  decodePrimaryKey users_model (kv_pk "a" ++ String.list_byte_of_string "V")
    (OStruct kv_st (kv "x" "y")) =
  (OStruct kv_st (kv "x" "y"),
   Err (EUnexpectedTableName "users" (String.list_byte_of_string "kv"))).
Proof.
  apply (decodePrimaryKey_other_table (H1:=SpecEncodingLaws.laws) kv_model users_model
           (OStruct kv_st (kv "a" "")) (kv_pk "a")); [reflexivity|discriminate].
Defined.

(** The key of [{a, b}] decoded into [{x, y}]. *)
Lemma primary_key_round_trip_kv :
  exists r1,
    decodePrimaryKey kv_model (kv_pk "a" ++ String.list_byte_of_string "V")
      (OStruct kv_st (kv "x" "y")) =
      (OStruct kv_st r1, Ok (String.list_byte_of_string "V")) /\
    encodePrimaryKey kv_model (OStruct kv_st r1) = Ok (kv_pk "a") /\
    forall i,
      r1 !! i = if bool_decide (i ∈ col_indices kv_model (primaryKey kv_model))
                then decoded <$> kv "a" "b" !! i else kv "x" "y" !! i.
Proof.
  apply (primary_key_round_trip (H1:=SpecEncodingLaws.laws) kv_model kv_st
           (kv "a" "b") (kv "x" "y") (kv_pk "a")).
  - split; [reflexivity|repeat constructor].
  - reflexivity.
  - reflexivity.
Defined.

(** The column keys of [{a, b}] and of [{a, z}]. *)
Lemma column_key_injective_kv :
  kv_pk "a" = kv_pk "a" /\ "V" = "V" /\
  pk_only kv_model kv_st (kv "a" "b") = pk_only kv_model kv_st (kv "a" "z").
Proof.
  apply (column_key_injective (H1:=SpecEncodingLaws.laws) kv_model kv_st
           (kv "a" "b") (kv "a" "z") (kv_pk "a") (kv_pk "a") "V" "V").
  - split; [reflexivity|repeat constructor].
  - split; [reflexivity|repeat constructor].
  - reflexivity.
  - reflexivity.
  - reflexivity.
Defined.

(** A key decoded against a primary key whose second column is no field:
    the first column is left in the record. *)
Lemma decodePrimaryKey_nope :
  decodePrimaryKey kv_nope_model (kv_key "a" "V") (OStruct kv_st (kv "" "")) =
  (OStruct kv_st (kv "a" ""), Err (EUnableToFindField "kv" "nope")).
Proof.
  refine (proj1 (decodePrimaryKey_keeps_decoded_columns kv_nope_model (kv_key "a" "V")
                   _ (String.list_byte_of_string "kv") ["K"] "nope" []
                   (OStruct kv_st (kv "" "")) _ _ _ _ _ _) _); reflexivity.
Defined.

(** A record with a map in its primary key. *)
Lemma encodePrimaryKey_blob :
  encodePrimaryKey blob_model blob = Err EUnableToEncodeKey /\
  forall columns,
    GetStruct blob_batch (OPtr blob) columns =
      Ok (initResult blob_batch 0 0 (Some EUnableToEncodeKey)) /\
    PutStruct blob_batch blob columns =
      Ok (initResult blob_batch 0 0 (Some EUnableToEncodeKey)).
Proof.
  destruct (encodePrimaryKey_unsupported_kind blob_batch blob_model blob ["K"] "M" []
              {| Index := 1 |} (VOther "map[string]int") _ eq_refl eq_refl eq_refl eq_refl
              eq_refl) as [Henc Hops].
  split; [exact Henc|]. apply Hops; reflexivity.
Defined.

(** Every key of [{a}] sorts before every key of [{c}]. *)
Lemma keys_sorted_kv :
  (forall rest1 rest2, bytes_lt (kv_pk "a" ++ rest1) (kv_pk "c" ++ rest2)) /\
  (forall c1 c2,
     bytes_lt (encodeColumnKey kv_model (kv_pk "a") c1)
       (encodeColumnKey kv_model (kv_pk "c") c2)).
Proof.
  apply (keys_sorted_by_first_primary_key_column (H1:=SpecEncodingLaws.laws) kv_model kv_st
           (kv "a" "b") (kv "c" "d") (kv_pk "a") (kv_pk "c") "K" [] {| Index := 0 |}
           (VString "a") (VString "c")); try reflexivity; exact I.
Defined.

(** [KV] with both fields in the primary key: nothing is stored for
    [{a, b}]. *)
Lemma key_only_model_kv :
  otherColumns kv_all_model = [] /\
  PutStruct {| bDB := kv_all_db; calls := []; Results := [] |}
    (OStruct kv_st (kv "a" "b")) [] =
  Ok (initResult {| bDB := kv_all_db; calls := []; Results := [] |} 0 0 None).
Proof.
  destruct (key_only_model_stores_nothing kv_getDBFields empty_db "kv"
              (OStruct kv_st (kv "" "")) ["K"; "V"] kv_all_db kv_all_model eq_refl eq_refl)
    as [Hnil Hops].
  - intros col [f Hf]. simpl in Hf. unfold kv_fields in Hf.
    apply lookup_insert_Some in Hf as [[<- _]|[_ Hf]]; [by left|].
    apply lookup_insert_Some in Hf as [[<- _]|[_ Hf]]; [by right; left|].
    by rewrite lookup_empty in Hf.
  - split; [exact Hnil|].
    destruct (Hops {| bDB := kv_all_db; calls := []; Results := [] |}
                (OStruct kv_st (kv "a" "b"))
                (SpecEncoding.EncodeBytes (kv_pk "a") (String.list_byte_of_string "b"))
                eq_refl ltac:(discriminate) eq_refl eq_refl eq_refl) as (Hput & _).
    exact Hput.
Defined.

(** Two steps of the scan of the example run one after the other on one
    destination. *)
Lemma ScanStruct_step_kv :
  refused kv_batch
    (initResult
       (append_calls kv_batch
          [{| Args := ScanRequest (kv_pk "a") (kv_pk "z") 0;
              Post := Some (scan_step kv_model (GStruct kv_st) false []) |}]) 1 0 None) \/
  exists c post,
    initResult
      (append_calls kv_batch
         [{| Args := ScanRequest (kv_pk "a") (kv_pk "z") 0;
             Post := Some (scan_step kv_model (GStruct kv_st) false []) |}]) 1 0 None =
      initResult (append_calls kv_batch [c]) 1 0 None /\
    Post c = Some post /\
    (forall d, post (ScanResponse []) d = Ok d) /\
    (forall rows elem items dest',
       rows <> [] -> post (ScanResponse rows) (OSlice elem items) = Ok dest' ->
       exists recs, recs <> [] /\ dest' = OSlice elem (items ++ recs)) /\
    (forall rows1 rows2 elem items dest1 dest2,
       rows1 <> [] -> rows2 <> [] ->
       post (ScanResponse rows1) (OSlice elem items) = Ok dest1 ->
       post (ScanResponse rows2) dest1 = Ok dest2 ->
       exists recs1 recs2,
         recs1 <> [] /\ recs2 <> [] /\ dest2 = OSlice elem (items ++ recs1 ++ recs2)).
Proof.
  apply (ScanStruct_step_appends_to_current_slice kv_batch (OPtr kv_dest)
           (OStruct kv_st (kv "a" "")) (OStruct kv_st (kv "z" "")) 0 []).
  reflexivity.
Defined.

(** The key element of the [int64] 300 decoded into an [int8] field. *)
Lemma decodeTableKey_300_into_int8 :
  decodeTableKey (SpecEncoding.EncodeVarint [] 300 ++ []) (VInt KInt8 0) =
  Ok ([], VInt KInt8 44).
Proof.
  refine (proj1 (decodeTableKey_into_narrower_field (H1:=SpecEncodingLaws.laws)
                   KInt64 300 _ [] _ _) KInt8 0).
  - unfold is_int64. lia.
  - reflexivity.
Defined.

(** A value that carries both an integer and bytes, read into a string
    field and into an integer field. *)
Lemma unmarshal_both_members :
  unmarshalTableValue
    (Some {| Bytes := Some (String.list_byte_of_string "b"); Integer := Some 7 |})
    (VString "") = Err EUnmarshalInteger /\
  unmarshalTableValue
    (Some {| Bytes := Some (String.list_byte_of_string "b"); Integer := Some 7 |})
    (VInt KInt64 0) = Err EUnmarshalBytes.
Proof.
  destruct (unmarshal_rejects_other_member
              {| Bytes := Some (String.list_byte_of_string "b"); Integer := Some 7 |}
              (VString "")) as (Hs & _ & _).
  destruct (unmarshal_rejects_other_member
              {| Bytes := Some (String.list_byte_of_string "b"); Integer := Some 7 |}
              (VInt KInt64 0)) as (_ & Hi & _).
  split; [apply Hs|apply Hi]; first [reflexivity|by eexists].
Defined.

(** A map is no key element, whatever the bytes decoded from. *)
Lemma key_codec_map_field :
  encodeTableKey [] (VOther "map[string]int") = Err EUnableToEncodeKey /\
  decodeTableKey (kv_pk "a") (VOther "map[string]int") = Err EUnableToDecodeKey.
Proof.
  destruct (key_codec_supported_kinds [] (VOther "map[string]int")) as [_ He];
    [discriminate|].
  destruct (key_codec_supported_kinds (kv_pk "a") (VOther "map[string]int")) as [_ Hd];
    [discriminate|].
  split; [apply He|apply Hd]; reflexivity.
Defined.

(** The scan of "kv" from a nil pointer, from an account, and from [{a}] to
    [{z}]. *)
Lemma ScanStruct_checks_kv :
  ScanStruct kv_batch (OPtr kv_dest) (ONilPtr (GStruct kv_st)) (OStruct kv_st (kv "z" ""))
    0 [] = Panic /\
  ScanStruct kv_batch (OPtr kv_dest) (OStruct acct_st (acct 7 0 ""))
    (OStruct kv_st (kv "z" "")) 0 [] = Ok (initResult kv_batch 0 0 (Some EIncompatibleStart)) /\
  ScanStruct kv_batch kv_dest (OStruct kv_st (kv "a" "")) (OStruct kv_st (kv "z" "")) 0 [] =
    Ok (initResult kv_batch 0 0 (Some EDestNotSlicePointer)) /\
  exists post,
    ScanStruct kv_batch (OPtr kv_dest) (OStruct kv_st (kv "a" ""))
      (OPtr (OStruct kv_st (kv "z" ""))) 10 ["V"] =
    Ok (initResult
          (append_calls kv_batch
             [{| Args := ScanRequest (kv_pk "a") (kv_pk "z") 10; Post := Some post |}])
          1 0 None).
Proof.
  split; [|split; [|split]].
  - destruct (proj2 (ScanStruct_argument_checks kv_batch (OPtr kv_dest)
                       (ONilPtr (GStruct kv_st)) (OStruct kv_st (kv "z" "")) 0 [])
                (GStruct kv_st) [] eq_refl eq_refl) as [_ Hm].
    by apply (Hm kv_model).
  - destruct (proj2 (ScanStruct_argument_checks kv_batch (OPtr kv_dest)
                       (OStruct acct_st (acct 7 0 "")) (OStruct kv_st (kv "z" "")) 0 [])
                (GStruct kv_st) [] eq_refl eq_refl) as [_ Hm].
    by apply (Hm kv_model).
  - apply (proj1 (ScanStruct_argument_checks kv_batch kv_dest
                    (OStruct kv_st (kv "a" "")) (OStruct kv_st (kv "z" "")) 0 [])).
    by left.
  - destruct (proj2 (ScanStruct_argument_checks kv_batch (OPtr kv_dest)
                       (OStruct kv_st (kv "a" "")) (OPtr (OStruct kv_st (kv "z" "")))
                       10 ["V"])
                (GStruct kv_st) [] eq_refl eq_refl) as [_ Hm].
    by apply (Hm kv_model).
Defined.
